(** * HandToolTracker: a shallow embedding of the checkout tracker

    The development follows the modules of the application:

    - [Js]       the fragments of the JavaScript platform the code relies on
                 (JSON values, exceptions, [Date], [parseInt], [trim]);
    - [Config]   [js/config.js];
    - [Storage]  [js/storage.js], over a model of [localStorage];
    - [AppState] [js/state.js], over a heap of mutable objects;
    - [Dom]      the part of the document the tool, crew and drag modules
                 work on, with [js/tools.js], [js/crews.js] and [drag.js].

    Each module gives the definitions first and the properties after. *)

From Stdlib Require Import ZArith Lia Ascii.
From stdpp Require Import base option list strings gmap pretty.

Local Open Scope string_scope.
Local Open Scope nat_scope.
Local Open Scope list_scope.
Set Warnings "-register-all".

(* ===================================================================== *)
(** ** The JavaScript platform                                            *)
(* ===================================================================== *)

Module Js.

(** Values that survive [JSON.stringify]: objects keep their fields in
    insertion order; numbers are the integers. *)
Inductive JValue : Type :=
  | JNull
  | JBool (b : bool)
  | JNum (n : Z)
  | JStr (s : string)
  | JArr (items : list JValue)
  | JObj (fields : list (string * JValue)).

(** Exceptions the platform raises. *)
Inductive JSError : Type :=
  | SecurityError
  | QuotaExceededError
  | SyntaxError
  | TypeError
  | ReferenceError
  | UserError (message : string).

(** The outcome of a call: it returns or it throws. *)
Inductive Outcome (A : Type) : Type :=
  | Returns (a : A)
  | Throws (e : JSError).
Arguments Returns {A} a.
Arguments Throws {A} e.

(** A call on a mutable state [S]: it returns or throws, and leaves a
    state behind either way. *)
Definition M (S A : Type) : Type := S → Outcome A * S.

Definition ret {S A} (a : A) : M S A := fun st => (Returns a, st).
Definition throw {S A} (e : JSError) : M S A := fun st => (Throws e, st).
Definition bind {S A B} (m : M S A) (k : A → M S B) : M S B :=
  fun st =>
    match m st with
    | (Returns a, st') => k a st'
    | (Throws e, st') => (Throws e, st')
    end.
Definition try_catch {S A} (body : M S A) (handler : JSError → M S A)
  : M S A :=
  fun st =>
    match body st with
    | (Returns a, st') => (Returns a, st')
    | (Throws e, st') => handler e st'
    end.
Definition get_state {S} : M S S := fun st => (Returns st, st).
Definition set_state {S} (st : S) : M S unit := fun _ => (Returns tt, st).

Notation "'let!' x ':=' m 'in' k" := (bind m (fun x => k))
  (at level 10, x name, m at level 100, k at level 200).
Notation "'do!' m 'in' k" := (bind m (fun _ => k))
  (at level 10, m at level 100, k at level 200).

(** [forEach]: the calls run in order; a throw ends the loop. *)
Fixpoint for_each {S A} (l : list A) (body : A → M S unit) : M S unit :=
  match l with
  | [] => ret tt
  | x :: rest => do! body x in for_each rest body
  end.

(** [m] keeps [P], whether it returns or throws. *)
Definition preserves {S A} (P : S → Prop) (m : M S A) : Prop :=
  ∀ st, P st → P (m st).2.

(** Truthiness of a string: only the empty string is falsy. *)
Definition truthy_string (s : string) : bool :=
  match s with "" => false | _ => true end.

(** [String(v)], as a template literal applies it. *)
Definition join_with (sep : string) (parts : list string) : string :=
  match parts with
  | [] => ""
  | p :: ps => fold_left (fun acc q => acc +:+ sep +:+ q) ps p
  end.

Fixpoint to_string (v : JValue) : string :=
  match v with
  | JNull => "null"
  | JBool true => "true"
  | JBool false => "false"
  | JNum n => pretty n
  | JStr s => s
  | JArr items =>
      join_with ","
        (map (fun x => match x with JNull => "" | _ => to_string x end) items)
  | JObj _ => "[object Object]"
  end.

(** [a === s] for a string [s]. *)
Definition strict_eq_string (a : JValue) (s : string) : bool :=
  match a with
  | JStr t => bool_decide (t = s)
  | _ => false
  end.

(** [String.prototype.includes]. *)
Fixpoint is_prefix (p s : string) : bool :=
  match p, s with
  | "", _ => true
  | String a p', String b s' => bool_decide (a = b) && is_prefix p' s'
  | _, _ => false
  end.

Fixpoint string_includes (s p : string) : bool :=
  is_prefix p s ||
  match s with
  | "" => false
  | String _ s' => string_includes s' p
  end.

(** Object spread [{...v}]: the own enumerable properties of [v]. *)
Fixpoint indexed {A} (i : nat) (l : list A) : list (string * A) :=
  match l with
  | [] => []
  | x :: l' => (pretty i, x) :: indexed (S i) l'
  end.

Fixpoint chars (s : string) : list JValue :=
  match s with
  | "" => []
  | String c s' => JStr (String c "") :: chars s'
  end.

Definition spread (v : JValue) : list (string * JValue) :=
  match v with
  | JObj fields => fields
  | JArr items => indexed 0 items
  | JStr s => indexed 0 (chars s)
  | _ => []
  end.

(** [o[k] = v] on the field list: an existing field keeps its place. *)
Fixpoint set_field (k : string) (v : JValue) (fields : list (string * JValue))
  : list (string * JValue) :=
  match fields with
  | [] => [(k, v)]
  | (k', v') :: rest =>
      if bool_decide (k' = k) then (k, v) :: rest
      else (k', v') :: set_field k v rest
  end.

Fixpoint get_field (k : string) (fields : list (string * JValue))
  : option JValue :=
  match fields with
  | [] => None
  | (k', v') :: rest =>
      if bool_decide (k' = k) then Some v' else get_field k rest
  end.

(** The names every plain object inherits from [Object.prototype].  For a
    plain object [o] that has no own property [k], [o[k]] is [undefined]
    unless [k] is one of them: then it is a function, or for [__proto__]
    the prototype itself, and in either case truthy. *)
Definition inherited_member (k : string) : bool :=
  bool_decide
    (k ∈ ["constructor"; "__defineGetter__"; "__defineSetter__";
          "hasOwnProperty"; "__lookupGetter__"; "__lookupSetter__";
          "isPrototypeOf"; "propertyIsEnumerable"; "toString"; "valueOf";
          "__proto__"; "toLocaleString"]).

(** A string stands for a JavaScript string of code units below 256.
    [String.prototype.trim] and [parseInt] skip the white space among
    them: tab, line feed, vertical tab, form feed, carriage return, space
    and no-break space. *)
Definition is_whitespace (a : ascii) : bool :=
  let n := Ascii.nat_of_ascii a in
  (n =? 9) || (n =? 10) || (n =? 11) || (n =? 12) || (n =? 13)
  || (n =? 32) || (n =? 160).

Fixpoint trim_start (s : string) : string :=
  match s with
  | "" => ""
  | String a s' => if is_whitespace a then trim_start s' else s
  end.

Definition trim (s : string) : string :=
  String.rev (trim_start (String.rev (trim_start s))).

(** [validateTool] and [addTool] use their quantity only as the argument
    of [parseInt(quantity, 10)], which reads the text [String] makes of it.
    A quantity is given by that text: a string is itself, the number 25 is
    "25", the number 1e21 is "1e+21" and [NaN] is "NaN". *)
Inductive Quantity : Type :=
  | QText (text : string).

Definition digit_value (a : ascii) : option Z :=
  let n := Ascii.nat_of_ascii a in
  if (48 <=? n) && (n <=? 57) then Some (Z.of_nat (n - 48)) else None.

Fixpoint parse_digits (acc : option Z) (s : string) : option Z :=
  match s with
  | "" => acc
  | String a s' =>
      match digit_value a with
      | Some v => parse_digits (Some (10 * default 0%Z acc + v)%Z) s'
      | None => acc
      end
  end.

(** [parseInt(text, 10)]; [None] is [NaN]. *)
Definition parseInt_string (text : string) : option Z :=
  match trim_start text with
  | String "-" r => Z.opp <$> parse_digits None r
  | String "+" r => parse_digits None r
  | r => parse_digits None r
  end.

Definition parseInt (quantity : Quantity) : option Z :=
  match quantity with
  | QText text => parseInt_string text
  end.

(** [String.prototype.padStart(2, '0')] on a number's decimal form. *)
Definition pad2 (n : nat) : string :=
  let s := pretty n in
  if Nat.ltb (String.length s) 2 then "0" +:+ s else s.

Definition pad4 (n : nat) : string :=
  let s := pretty n in
  match String.length s with
  | 0 => "0000" | 1 => "000" +:+ s | 2 => "00" +:+ s | 3 => "0" +:+ s
  | _ => s
  end.

(** A reading of the clock, [new Date()], in local time.  What
    [toISOString] prints is in UTC, and what [toLocaleString] and
    [toLocaleTimeString] print depends on the locale data of the browser, so
    the three come with the reading. *)
Record Date : Type := mkDate {
  getFullYear : nat;
  getMonth : nat;      (* 0 .. 11 *)
  getDate : nat;       (* 1 .. 31 *)
  getDay : nat;        (* 0 .. 6, Sunday first *)
  toISOString : string;
  toLocaleString : string;
  toLocaleTimeString : string
}.

Definition day_name (d : nat) : string :=
  match d with
  | 0 => "Sun" | 1 => "Mon" | 2 => "Tue" | 3 => "Wed"
  | 4 => "Thu" | 5 => "Fri" | _ => "Sat"
  end.

Definition month_name (m : nat) : string :=
  match m with
  | 0 => "Jan" | 1 => "Feb" | 2 => "Mar" | 3 => "Apr" | 4 => "May"
  | 5 => "Jun" | 6 => "Jul" | 7 => "Aug" | 8 => "Sep" | 9 => "Oct"
  | 10 => "Nov" | _ => "Dec"
  end.

(** [Date.prototype.toDateString]: ["Sun Nov 01 2026"]. *)
Definition toDateString (d : Date) : string :=
  day_name (getDay d) +:+ " " +:+ month_name (getMonth d) +:+ " "
  +:+ pad2 (getDate d) +:+ " " +:+ pad4 (getFullYear d).

(** A date of the calendar, from the year 1000 on. *)
Definition valid_date (d : Date) : Prop :=
  1000 ≤ getFullYear d ∧ getMonth d < 12 ∧ 1 ≤ getDate d ≤ 31.

Definition same_day (d1 d2 : Date) : Prop :=
  getFullYear d1 = getFullYear d2 ∧ getMonth d1 = getMonth d2
  ∧ getDate d1 = getDate d2.

End Js.

(* ===================================================================== *)
(** ** js/config.js                                                       *)
(* ===================================================================== *)

Module Config.

Definition CREW_COUNT : nat := 8.

Module STORAGE_KEYS.
Definition SCHEDULE : string := "toolCheckoutSchedule".
Definition DATE : string := "toolCheckoutDate".
Definition UPDATE_TIME : string := "toolLastUpdateTime".
Definition INVENTORY : string := "toolInventory".
End STORAGE_KEYS.

Module VALIDATION.
Definition MIN_TOOL_NAME_LENGTH : nat := 1.
Definition MAX_TOOL_NAME_LENGTH : nat := 100.
Definition MIN_QUANTITY : Z := 1.
Definition MAX_QUANTITY : Z := 999.
End VALIDATION.

(** [CATEGORY_CLASSES] and [POOL_IDS], as lookups of the names the two
    objects have.  For a name they inherit ([inherited_member]) the code
    finds a function where these give [None]: as a pool id it is the id of
    no element, so no pool is found either way; as a class see [addTool]. *)
Definition CATEGORY_CLASSES (category : string) : option string :=
  if bool_decide (category = "hammers") then Some "hammer"
  else if bool_decide (category = "drivers") then Some "screwdriver"
  else if bool_decide (category = "measuring") then Some "measuring"
  else if bool_decide (category = "cutting") then Some "cutting"
  else if bool_decide (category = "pliers") then Some "pliers"
  else if bool_decide (category = "batteries") then Some "battery"
  else if bool_decide (category = "power") then Some "power-tool"
  else if bool_decide (category = "safety") then Some "safety"
  else if bool_decide (category = "misc") then Some "misc"
  else None.

Definition POOL_IDS (category : string) : option string :=
  if bool_decide (category = "hammers") then Some "hammersPool"
  else if bool_decide (category = "drivers") then Some "driversPool"
  else if bool_decide (category = "measuring") then Some "measuringPool"
  else if bool_decide (category = "cutting") then Some "cuttingPool"
  else if bool_decide (category = "pliers") then Some "pliersPool"
  else if bool_decide (category = "batteries") then Some "batteriesPool"
  else if bool_decide (category = "power") then Some "powerPool"
  else if bool_decide (category = "safety") then Some "safetyPool"
  else if bool_decide (category = "misc") then Some "miscPool"
  else if bool_decide (category = "broken") then Some "brokenPool"
  else None.

(** A tool definition [{ name, qty, class }], and the inventory: the tool
    definitions of each category, categories in insertion order.  That is
    the order in which an object lists its keys, but for keys that are
    array indices (0, 1, ...), which it lists first; no category that has a
    pool is one, and tools are looked up by the name of the category. *)
Record Tool : Type := mkTool {
  name : string;
  qty : Z;
  class : string
}.

Definition Inventory : Type := list (string * list Tool).

(** [inventory[category]] for a category the inventory has. *)
Fixpoint tools_of (category : string) (inv : Inventory)
  : option (list Tool) :=
  match inv with
  | [] => None
  | (c, tools) :: rest =>
      if bool_decide (c = category) then Some tools
      else tools_of category rest
  end.

Definition DEFAULT_TOOL_INVENTORY : Inventory :=
  [
    ("hammers",
      [mkTool "Claw Hammer" 8 "hammer";
       mkTool "Mini Sledge" 4 "hammer";
       mkTool "Dead Blow" 3 "hammer";
       mkTool "Framing Hammer" 6 "hammer"]);
    ("drivers",
      [mkTool "Phillips Screwdriver" 10 "screwdriver";
       mkTool "Flathead Screwdriver" 10 "screwdriver";
       mkTool "Impact Bit Set" 6 "screwdriver";
       mkTool "Multi-bit Driver" 6 "screwdriver"]);
    ("measuring",
      [mkTool "Level 2ft" 6 "measuring";
       mkTool "Level 4ft" 4 "measuring";
       mkTool "Framing Square" 5 "measuring";
       mkTool "Chalk Line" 8 "measuring";
       mkTool "String Line" 10 "measuring";
       mkTool "Tape Measure" 15 "measuring"]);
    ("cutting",
      [mkTool "Machete" 4 "cutting";
       mkTool "Utility Knife" 12 "cutting";
       mkTool "Hacksaw" 4 "cutting";
       mkTool "Tin Snips" 6 "cutting"]);
    ("pliers",
      [mkTool "Pliers" 10 "pliers";
       mkTool "Needle Nose Pliers" 8 "pliers";
       mkTool "Wire Strippers" 6 "pliers";
       mkTool "Wrench Set" 5 "fastening";
       mkTool "Adjustable Wrench" 6 "fastening"]);
    ("batteries",
      [mkTool "DeWalt 20V Battery" 12 "battery";
       mkTool "Milwaukee M18 Battery" 8 "battery";
       mkTool "Battery Charger" 4 "battery"]);
    ("power",
      [mkTool "Paint Gun" 2 "power-tool";
       mkTool "Impact Driver" 6 "power-tool";
       mkTool "Drill" 8 "power-tool";
       mkTool "Circular Saw" 4 "power-tool"]);
    ("safety",
      [mkTool "Safety Glasses" 20 "safety";
       mkTool "Work Gloves" 30 "safety";
       mkTool "Ear Protection" 15 "safety"]);
    ("misc",
      [mkTool "Tool Belt" 10 "misc";
       mkTool "Extension Cord" 6 "misc";
       mkTool "Work Light" 5 "misc"])
  ]%Z.

End Config.

(* ===================================================================== *)
(** ** js/storage.js                                                      *)
(* ===================================================================== *)

Module Storage.
Import Js.

(** *** The browser's [localStorage]

    A stored string is only ever tested for emptiness and handed to
    [JSON.parse], so it is kept as what the parser makes of it: the text of
    a value, the empty string, or text that is not JSON. *)
Inductive Payload : Type :=
  | EmptyText
  | JsonText (v : JValue)
  | BadText.

Definition JSON_stringify (v : JValue) : Payload := JsonText v.

Definition JSON_parse (p : Payload) : Outcome JValue :=
  match p with
  | JsonText v => Returns v
  | EmptyText | BadText => Throws SyntaxError
  end.

(** [ls_denied]: the store is blocked and every access throws.
    [ls_accepts]: whether a write fits the quota. *)
Record LocalStorage : Type := mkLocalStorage {
  ls_items : gmap string Payload;
  ls_denied : bool;
  ls_accepts : string → Payload → bool
}.

Definition with_items (ls : LocalStorage) (m : gmap string Payload)
  : LocalStorage :=
  {| ls_items := m; ls_denied := ls_denied ls; ls_accepts := ls_accepts ls |}.

(** The [Storage] singleton: its cached probe and the store behind it. *)
Record Storage : Type := mkStorage {
  isAvailable : bool;
  localStorage : LocalStorage
}.

Definition with_ls (st : Storage) (ls : LocalStorage) : Storage :=
  {| isAvailable := isAvailable st; localStorage := ls |}.

(** *** Calls that may throw and that change the store *)

Abbreviation M := (Js.M Storage).

Definition ls_getItem (key : string) : M (option Payload) :=
  fun st =>
    if ls_denied (localStorage st) then (Throws SecurityError, st)
    else (Returns (ls_items (localStorage st) !! key), st).

Definition ls_setItem (key : string) (p : Payload) : M unit :=
  fun st =>
    let ls := localStorage st in
    if ls_denied ls then (Throws SecurityError, st)
    else if ls_accepts ls key p
      then (Returns tt, with_ls st (with_items ls (<[key := p]> (ls_items ls))))
      else (Throws QuotaExceededError, st).

Definition ls_removeItem (key : string) : M unit :=
  fun st =>
    let ls := localStorage st in
    if ls_denied ls then (Throws SecurityError, st)
    else (Returns tt, with_ls st (with_items ls (delete key (ls_items ls)))).

(** *** The class *)

(** [checkAvailability], run once by the constructor: the sentinel is
    written raw (it is not JSON) and removed. *)
Definition checkAvailability (ls : LocalStorage) : bool * LocalStorage :=
  let test := "__storage_test__" in
  let probe :=
    try_catch (do! ls_setItem test BadText in do! ls_removeItem test in ret true)
              (fun _ => ret false) in
  match probe {| isAvailable := false; localStorage := ls |} with
  | (Returns b, st) => (b, localStorage st)
  | (Throws _, st) => (false, localStorage st)
  end.

Definition new_Storage (ls : LocalStorage) : Storage :=
  let '(b, ls') := checkAvailability ls in
  {| isAvailable := b; localStorage := ls' |}.

Definition getItem (key : string) (defaultValue : JValue) : M JValue :=
  fun st =>
    if negb (isAvailable st) then ret defaultValue st
    else
      try_catch
        (let! item := ls_getItem key in
         match item with
         | None | Some EmptyText => ret defaultValue
         | Some p => fun st' => (JSON_parse p, st')
         end)
        (fun _ => ret defaultValue) st.

Definition setItem (key : string) (value : JValue) : M bool :=
  fun st =>
    if negb (isAvailable st) then ret false st
    else
      try_catch
        (do! ls_setItem key (JSON_stringify value) in ret true)
        (fun _ => ret false) st.

Definition removeItem (key : string) : M bool :=
  fun st =>
    if negb (isAvailable st) then ret false st
    else try_catch (do! ls_removeItem key in ret true) (fun _ => ret false) st.

Definition getCurrentDateString (now : Date) : string := toDateString now.

Definition isToday (now : Date) : M bool :=
  let! savedDate := getItem Config.STORAGE_KEYS.DATE JNull in
  ret (strict_eq_string savedDate (getCurrentDateString now)).

Definition saveSchedule (now : Date) (scheduleData : JValue) : M bool :=
  let! success := setItem Config.STORAGE_KEYS.SCHEDULE scheduleData in
  do! (if success : bool
       then setItem Config.STORAGE_KEYS.DATE (JStr (getCurrentDateString now))
       else ret false) in
  ret success.

Definition loadSchedule (now : Date) : M JValue :=
  let! today := isToday now in
  if today : bool then getItem Config.STORAGE_KEYS.SCHEDULE JNull
  else ret JNull.

Definition saveUpdateTime (timeString : string) : M bool :=
  setItem Config.STORAGE_KEYS.UPDATE_TIME (JStr timeString).

Definition loadUpdateTime : M JValue :=
  getItem Config.STORAGE_KEYS.UPDATE_TIME JNull.

Definition getDateKey (d : Date) : string :=
  let year := getFullYear d in
  let month := pad2 (getMonth d + 1) in
  let day := pad2 (getDate d) in
  pretty year +:+ "-" +:+ month +:+ "-" +:+ day.

Definition historyKey (key : string) : string := "toolHistory_" +:+ key.

(** [index.includes(dateKey)], [unshift], [splice(90)] and the clean-up of
    what was cut off.  An index that is not an array has no [unshift]. *)
Fixpoint removeAll (keys : list JValue) : M unit :=
  match keys with
  | [] => ret tt
  | key :: rest =>
      do! removeItem (historyKey (to_string key)) in removeAll rest
  end.

Definition updateHistoryIndex (dateKey : string) : M unit :=
  let! index := getItem "toolHistoryIndex" (JArr []) in
  match index with
  | JArr items =>
      if negb (existsb (fun x => strict_eq_string x dateKey) items) then
        let items1 := JStr dateKey :: items in
        do! (if Nat.ltb 90 (length items1)
             then do! removeAll (drop 90 items1) in
                  setItem "toolHistoryIndex" (JArr (take 90 items1))
             else setItem "toolHistoryIndex" (JArr items1)) in
        ret tt
      else ret tt
  | JStr s =>
      if negb (string_includes s dateKey) then throw TypeError else ret tt
  | _ => throw TypeError
  end.

(** [dateKey || this.getDateKey()]. *)
Definition resolveKey (now : Date) (dateKey : option string) : string :=
  match dateKey with
  | Some k => if truthy_string k then k else getDateKey now
  | None => getDateKey now
  end.

(** [{...scheduleData, savedAt: new Date().toISOString(), dateKey: key}]. *)
Definition historyEntry (now : Date) (scheduleData : JValue) (key : string)
  : JValue :=
  JObj (set_field "dateKey" (JStr key)
          (set_field "savedAt" (JStr (toISOString now)) (spread scheduleData))).

Definition saveToHistory (now : Date) (scheduleData : JValue)
    (dateKey : option string) : M bool :=
  let key := resolveKey now dateKey in
  let! success := setItem (historyKey key) (historyEntry now scheduleData key) in
  do! (if success : bool then updateHistoryIndex key else ret tt) in
  ret success.

Definition getHistoryDates : M JValue := getItem "toolHistoryIndex" (JArr []).

Definition loadFromHistory (dateKey : string) : M JValue :=
  getItem (historyKey dateKey) JNull.

Definition deleteHistoryEntry (dateKey : string) : M bool :=
  let! success := removeItem (historyKey dateKey) in
  do! (if success : bool then
         let! index := getItem "toolHistoryIndex" (JArr []) in
         match index with
         | JArr items =>
             setItem "toolHistoryIndex"
               (JArr (filter (fun k => strict_eq_string k dateKey = false)
                        items))
         | _ => throw TypeError
         end
       else ret false) in
  ret success.

(** [clear], [saveInventory] and [loadInventory]. *)
Definition ls_clear : M unit :=
  fun st =>
    let ls := localStorage st in
    if ls_denied ls then (Throws SecurityError, st)
    else (Returns tt, with_ls st (with_items ls ∅)).

Definition clear : M bool :=
  fun st =>
    if negb (isAvailable st) then ret false st
    else try_catch (do! ls_clear in ret true) (fun _ => ret false) st.

Definition saveInventory (inventory : JValue) : M bool :=
  setItem Config.STORAGE_KEYS.INVENTORY inventory.

Definition loadInventory : M JValue :=
  getItem Config.STORAGE_KEYS.INVENTORY JNull.

(** *** Views of the store used to state its properties *)

(** The payload under a key, and the history index as stored. *)
Definition stored (st : Storage) (key : string) : option Payload :=
  ls_items (localStorage st) !! key.

(** What [getItem] computes, as a total function of the store. *)
Definition read (st : Storage) (key : string) (defaultValue : JValue)
  : JValue :=
  if negb (isAvailable st) then defaultValue
  else if ls_denied (localStorage st) then defaultValue
  else match stored st key with
       | Some (JsonText v) => v
       | _ => defaultValue
       end.

(** A store that works: probed available, not blocked since, and with room
    for every write. *)
Definition working (st : Storage) : Prop :=
  isAvailable st = true
  ∧ ls_denied (localStorage st) = false
  ∧ ∀ k p, ls_accepts (localStorage st) k p = true.

Definition put (st : Storage) (key : string) (p : Payload) : Storage :=
  with_ls st (with_items (localStorage st)
                (<[key := p]> (ls_items (localStorage st)))).

Definition del (st : Storage) (key : string) : Storage :=
  with_ls st (with_items (localStorage st)
                (delete key (ls_items (localStorage st)))).

(** The index holds the dates [l], most recent first. *)
Definition indexed_by (st : Storage) (l : list string) : Prop :=
  stored st "toolHistoryIndex" = Some (JsonText (JArr (JStr <$> l))).

(** The index is absent or unreadable (then it reads as the empty list), or
    it lists at most 90 dates, each once. *)
Definition index_ok (st : Storage) : Prop :=
  match stored st "toolHistoryIndex" with
  | Some (JsonText v) =>
      ∃ l, v = JArr (JStr <$> l) ∧ NoDup l ∧ length l ≤ 90
  | _ => True
  end.

(** The store after the records of the dates [keys] are removed. *)
Definition evict (keys : list string) (st : Storage) : Storage :=
  fold_left (fun s x => del s (historyKey x)) keys st.

(** **** Examples: an empty store that works, and two mornings *)

Definition empty_localStorage : LocalStorage :=
  {| ls_items := ∅; ls_denied := false; ls_accepts := fun _ _ => true |}.

Definition fresh : Storage := new_Storage empty_localStorage.

Definition nov_1 : Date :=
  mkDate 2026 10 1 0 "2026-11-01T07:30:00.000Z"
    "Nov 1, 2026, 07:30:00 AM" "07:30 AM".
Definition nov_2 : Date :=
  mkDate 2026 10 2 1 "2026-11-02T07:30:00.000Z"
    "Nov 2, 2026, 07:30:00 AM" "07:30 AM".

(** A run of [saveToHistory] calls, whatever each of them returns. *)
Definition save_calls (calls : list (Date * JValue * option string))
    (st : Storage) : Storage :=
  fold_left (fun s c => (saveToHistory c.1.1 c.1.2 c.2 s).2) calls st.

(** Ninety days of history, saved one after the other into [fresh]. *)
Definition ninety_days : list string :=
  (fun i => "day-" +:+ pretty i) <$> seq 0 90.

Definition after_ninety_days : Storage :=
  save_calls ((fun k => (nov_1, JObj [], Some k)) <$> ninety_days) fresh.

Definition after_nov_1 : Storage :=
  (saveToHistory nov_1 (JObj []) None fresh).2.

Definition with_answer : Storage := (setItem "answer" (JNum 42) fresh).2.

(** The store can take the write of [p] under [key]. *)
Definition writable (st : Storage) (key : string) (p : Payload) : Prop :=
  isAvailable st = true
  ∧ ls_denied (localStorage st) = false
  ∧ ls_accepts (localStorage st) key p = true.

(** The store with no item left. *)
Definition emptied (st : Storage) : Storage :=
  with_ls st (with_items (localStorage st) ∅).

(** Calls on the dated history, and a run of them whatever they return. *)
Inductive HistoryCall : Type :=
  | Save (now : Date) (scheduleData : JValue) (dateKey : option string)
  | Delete (dateKey : string).

Definition history_call (st : Storage) (c : HistoryCall) : Storage :=
  match c with
  | Save now scheduleData dateKey =>
      (saveToHistory now scheduleData dateKey st).2
  | Delete dateKey => (deleteHistoryEntry dateKey st).2
  end.

Definition history_calls (calls : list HistoryCall) (st : Storage) : Storage :=
  fold_left history_call calls st.

(** Every date the index lists has its record, and the record carries the
    date. *)
Definition listed_dates_have_records (st : Storage) (l : list string) : Prop :=
  ∀ k, k ∈ l →
    ∃ fields, stored st (historyKey k) = Some (JsonText (JObj fields))
              ∧ get_field "dateKey" fields = Some (JStr k).

(** What holds of the dated history between calls. *)
Definition history_inv (st : Storage) (l : list string) : Prop :=
  working st
  ∧ read st "toolHistoryIndex" (JArr []) = JArr (JStr <$> l)
  ∧ NoDup l ∧ length l ≤ 90
  ∧ listed_dates_have_records st l.

(** A store whose second write of a save is refused: it takes everything
    but the date marker. *)
Definition no_room_for_the_date : Storage :=
  {| isAvailable := true;
     localStorage :=
       {| ls_items := ∅; ls_denied := false;
          ls_accepts := fun k _ =>
            bool_decide (k ≠ Config.STORAGE_KEYS.DATE) |} |}.

End Storage.

(* ===================================================================== *)
(** ** js/state.js                                                        *)
(* ===================================================================== *)

Module AppState.
Import Js Config.

(** *** Objects and references

    The state object, the inventory and the set of expanded stacks are
    mutable objects: who holds a reference can change them.  They live in a
    heap, a reference is an address, and a copy is a new address.  A DOM
    element is referred to by its node identity. *)
Definition loc : Type := nat.

Record StateObj : Type := mkStateObj {
  toolInventory : loc;
  expandedStacks : loc;
  draggedElement : option nat;
  lastUpdateTime : option string
}.

Inductive Cell : Type :=
  | CInventory (inv : Inventory)
  | CSet (items : list string)
  | CState (s : StateObj).

(** What a listener is handed: the contents of a state object. *)
Record StateView : Type := mkStateView {
  v_toolInventory : Inventory;
  v_expandedStacks : list string;
  v_draggedElement : option nat;
  v_lastUpdateTime : option string
}.

(** A listener is a function with an identity; it only looks at the state
    it is given, and returns or throws. *)
Record Listener : Type := mkListener {
  listener_id : nat;
  listener_run : StateView → Outcome unit
}.

Inductive Event : Type :=
  | Called (id : nat) (view : StateView)
  | ConsoleError (message : string) (e : JSError).

(** The [AppState] singleton with the heap it works in.  [log] records the
    calls of listeners and what was printed with [console.error]. *)
Record App : Type := mkApp {
  heap : list Cell;
  state : loc;
  listeners : list Listener;
  log : list Event
}.

Abbreviation M := (Js.M App).

Definition with_heap (app : App) (h : list Cell) : App :=
  {| heap := h; state := state app; listeners := listeners app;
     log := log app |}.
Definition with_state (app : App) (r : loc) : App :=
  {| heap := heap app; state := r; listeners := listeners app;
     log := log app |}.
Definition with_listeners (app : App) (ls : list Listener) : App :=
  {| heap := heap app; state := state app; listeners := ls; log := log app |}.
Definition with_log (app : App) (l : list Event) : App :=
  {| heap := heap app; state := state app; listeners := listeners app;
     log := l |}.

Definition alloc (c : Cell) : M loc :=
  fun app => (Returns (length (heap app)), with_heap app (heap app ++ [c])).

Definition write (r : loc) (c : Cell) : M unit :=
  fun app => (Returns tt, with_heap app (<[r := c]> (heap app))).

Definition readState (r : loc) : M StateObj :=
  fun app =>
    match heap app !! r with
    | Some (CState s) => (Returns s, app)
    | _ => (Throws TypeError, app)
    end.

Definition readInventory (r : loc) : M Inventory :=
  fun app =>
    match heap app !! r with
    | Some (CInventory inv) => (Returns inv, app)
    | _ => (Throws TypeError, app)
    end.

Definition readSet (r : loc) : M (list string) :=
  fun app =>
    match heap app !! r with
    | Some (CSet items) => (Returns items, app)
    | _ => (Throws TypeError, app)
    end.

Definition this_state : M StateObj :=
  fun app => readState (state app) app.

Definition emit (e : Event) : M unit :=
  fun app => (Returns tt, with_log app (log app ++ [e])).

(** [Set.prototype.add], and [new Set(iterable)]. *)
Definition set_add (x : string) (items : list string) : list string :=
  if bool_decide (x ∈ items) then items else items ++ [x].

Definition set_delete (x : string) (items : list string) : list string :=
  filter (fun y => y ≠ x) items.

Definition new_Set (iterable : list string) : list string :=
  fold_left (fun acc x => set_add x acc) iterable [].

(** *** The class *)

(** [deepClone(obj)] is [JSON.parse(JSON.stringify(obj))]: a new object with
    the same contents. *)
Definition deepClone (inv : Inventory) : M loc := alloc (CInventory inv).

Definition new_AppState : App :=
  {| heap := [CInventory DEFAULT_TOOL_INVENTORY; CSet [];
              CState {| toolInventory := 0; expandedStacks := 1;
                        draggedElement := None; lastUpdateTime := None |}];
     state := 2; listeners := []; log := [] |}.

Definition getState : M loc :=
  let! s := this_state in
  let! inv := readInventory (toolInventory s) in
  let! inv' := deepClone inv in
  let! ex := readSet (expandedStacks s) in
  let! ex' := alloc (CSet (new_Set ex)) in
  alloc (CState {| toolInventory := inv'; expandedStacks := ex';
                   draggedElement := draggedElement s;
                   lastUpdateTime := lastUpdateTime s |}).

(** The contents of the state object at [r]. *)
Definition view (r : loc) : M StateView :=
  let! s := readState r in
  let! inv := readInventory (toolInventory s) in
  let! ex := readSet (expandedStacks s) in
  ret {| v_toolInventory := inv; v_expandedStacks := ex;
         v_draggedElement := draggedElement s;
         v_lastUpdateTime := lastUpdateTime s |}.

Definition notifyListeners : M unit :=
  let! app := get_state in
  for_each (listeners app) (fun listener =>
    try_catch
      (let! copy := getState in
       let! v := view copy in
       do! emit (Called (listener_id listener) v) in
       fun app' => (listener_run listener v, app'))
      (fun error => emit (ConsoleError "Error in state listener:" error))).

(** The fields an update object may carry. *)
Record Updates : Type := mkUpdates {
  u_toolInventory : option loc;
  u_expandedStacks : option loc;
  u_draggedElement : option (option nat);
  u_lastUpdateTime : option (option string)
}.

(** [{ ...this.state, ...updates }]. *)
Definition merge (s : StateObj) (u : Updates) : StateObj :=
  {| toolInventory := default (toolInventory s) (u_toolInventory u);
     expandedStacks := default (expandedStacks s) (u_expandedStacks u);
     draggedElement := default (draggedElement s) (u_draggedElement u);
     lastUpdateTime := default (lastUpdateTime s) (u_lastUpdateTime u) |}.

Definition setState (updates : Updates) : M unit :=
  let! s := this_state in
  let! r := alloc (CState (merge s updates)) in
  do! (fun app => (Returns tt, with_state app r)) in
  notifyListeners.

Definition getInventory : M loc :=
  let! s := this_state in
  let! inv := readInventory (toolInventory s) in
  deepClone inv.

(** [setInventory(inventory)] copies its argument at once, so the argument
    is the contents of the caller's object. *)
Definition setInventory (inventory : Inventory) : M unit :=
  let! r := deepClone inventory in
  setState {| u_toolInventory := Some r; u_expandedStacks := None;
              u_draggedElement := None; u_lastUpdateTime := None |}.

(** [if (!inventory[category]) inventory[category] = [];
     inventory[category].push(tool)].  A category the inventory has gets
    the tool as its last; one it lacks is created, unless its name is
    inherited from [Object.prototype]: then [inventory[category]] is
    truthy, nothing is created, and what is found has no [push], which is
    a TypeError. *)
Fixpoint push_tool (category : string) (tool : Tool) (inv : Inventory)
  : Outcome Inventory :=
  match inv with
  | [] =>
      if inherited_member category then Throws TypeError
      else Returns [(category, [tool])]
  | (c, tools) :: rest =>
      if bool_decide (c = category) then Returns ((c, tools ++ [tool]) :: rest)
      else
        match push_tool category tool rest with
        | Returns rest' => Returns ((c, tools) :: rest')
        | Throws e => Throws e
        end
  end.

Definition addTool (category : string) (tool : Tool) : M unit :=
  let! s := this_state in
  let! inv := readInventory (toolInventory s) in
  let! inventory := deepClone inv in
  match push_tool category tool inv with
  | Throws e => throw e
  | Returns grown =>
      do! write inventory (CInventory grown) in
      let! pushed := readInventory inventory in
      setInventory pushed
  end.

Definition getExpandedStacks : M loc :=
  let! s := this_state in
  let! ex := readSet (expandedStacks s) in
  alloc (CSet (new_Set ex)).

Definition toggleStack (toolName : string) : M unit :=
  let! s := this_state in
  let! ex := readSet (expandedStacks s) in
  let! expandedStacks := alloc (CSet (new_Set ex)) in
  do! write expandedStacks
        (CSet (if bool_decide (toolName ∈ new_Set ex)
               then set_delete toolName (new_Set ex)
               else set_add toolName (new_Set ex))) in
  setState {| u_toolInventory := None; u_expandedStacks := Some expandedStacks;
              u_draggedElement := None; u_lastUpdateTime := None |}.

Definition expandAllStacks (toolNames : list string) : M unit :=
  let! r := alloc (CSet (new_Set toolNames)) in
  setState {| u_toolInventory := None; u_expandedStacks := Some r;
              u_draggedElement := None; u_lastUpdateTime := None |}.

Definition collapseAllStacks : M unit :=
  let! r := alloc (CSet (new_Set [])) in
  setState {| u_toolInventory := None; u_expandedStacks := Some r;
              u_draggedElement := None; u_lastUpdateTime := None |}.

Definition setDraggedElement (element : option nat) : M unit :=
  setState {| u_toolInventory := None; u_expandedStacks := None;
              u_draggedElement := Some element; u_lastUpdateTime := None |}.

Definition getDraggedElement : M (option nat) :=
  let! s := this_state in ret (draggedElement s).

Definition clearDraggedElement : M unit :=
  setState {| u_toolInventory := None; u_expandedStacks := None;
              u_draggedElement := Some None; u_lastUpdateTime := None |}.

Definition setLastUpdateTime (time : option string) : M unit :=
  setState {| u_toolInventory := None; u_expandedStacks := None;
              u_draggedElement := None; u_lastUpdateTime := Some time |}.

Definition getLastUpdateTime : M (option string) :=
  let! s := this_state in ret (lastUpdateTime s).

(** [subscribe]: a [Set] keeps one entry per function, at the place of its
    first registration.  The function it returns is [unsubscribe]. *)
Definition subscribe (listener : Listener) : M unit :=
  fun app =>
    (Returns tt,
     if existsb (fun l => Nat.eqb (listener_id l) (listener_id listener))
          (listeners app)
     then app
     else with_listeners app (listeners app ++ [listener])).

Definition unsubscribe (listener : Listener) : M unit :=
  fun app =>
    (Returns tt,
     with_listeners app
       (filter (fun l => listener_id l ≠ listener_id listener)
          (listeners app))).

Definition reset : M unit :=
  let! inv := deepClone DEFAULT_TOOL_INVENTORY in
  let! ex := alloc (CSet (new_Set [])) in
  let! r := alloc (CState {| toolInventory := inv; expandedStacks := ex;
                             draggedElement := None;
                             lastUpdateTime := None |}) in
  do! (fun app => (Returns tt, with_state app r)) in
  notifyListeners.

(** The operations that write the state; [setState] itself comes with the
    update object it is given. *)
Inductive Write : Type :=
  | WSetState (updates : Updates)
  | WSetInventory (inventory : Inventory)
  | WAddTool (category : string) (tool : Tool)
  | WToggleStack (toolName : string)
  | WExpandAllStacks (toolNames : list string)
  | WCollapseAllStacks
  | WSetDraggedElement (element : option nat)
  | WClearDraggedElement
  | WSetLastUpdateTime (time : option string)
  | WReset.

Definition perform (w : Write) : M unit :=
  match w with
  | WSetState updates => setState updates
  | WSetInventory inventory => setInventory inventory
  | WAddTool category tool => addTool category tool
  | WToggleStack toolName => toggleStack toolName
  | WExpandAllStacks toolNames => expandAllStacks toolNames
  | WCollapseAllStacks => collapseAllStacks
  | WSetDraggedElement element => setDraggedElement element
  | WClearDraggedElement => clearDraggedElement
  | WSetLastUpdateTime time => setLastUpdateTime time
  | WReset => reset
  end.

(** *** Views of the state used to state its properties *)

(** The objects an update refers to are in the heap, and a tool is added
    to a category the inventory has or can get. *)
Definition valid (w : Write) (app : App) : Prop :=
  match w with
  | WSetState u =>
      (∀ r, u_toolInventory u = Some r →
            ∃ inv, heap app !! r = Some (CInventory inv))
      ∧ (∀ r, u_expandedStacks u = Some r →
              ∃ ex, heap app !! r = Some (CSet ex) ∧ NoDup ex)
  | WAddTool category _ =>
      ∀ s inv, heap app !! state app = Some (CState s) →
               heap app !! toolInventory s = Some (CInventory inv) →
               is_Some (tools_of category inv)
               ∨ inherited_member category = false
  | _ => True
  end.

(** What a write makes of the contents of the state. *)
Definition effect (w : Write) (app : App) (v : StateView) : StateView :=
  match w with
  | WSetState u =>
      {| v_toolInventory :=
           match u_toolInventory u ≫= fun r => heap app !! r with
           | Some (CInventory inv) => inv
           | _ => v_toolInventory v
           end;
         v_expandedStacks :=
           match u_expandedStacks u ≫= fun r => heap app !! r with
           | Some (CSet ex) => ex
           | _ => v_expandedStacks v
           end;
         v_draggedElement := default (v_draggedElement v) (u_draggedElement u);
         v_lastUpdateTime := default (v_lastUpdateTime v) (u_lastUpdateTime u)
      |}
  | WSetInventory inventory =>
      {| v_toolInventory := inventory;
         v_expandedStacks := v_expandedStacks v;
         v_draggedElement := v_draggedElement v;
         v_lastUpdateTime := v_lastUpdateTime v |}
  | WAddTool category tool =>
      {| v_toolInventory :=
           match push_tool category tool (v_toolInventory v) with
           | Returns grown => grown
           | Throws _ => v_toolInventory v
           end;
         v_expandedStacks := v_expandedStacks v;
         v_draggedElement := v_draggedElement v;
         v_lastUpdateTime := v_lastUpdateTime v |}
  | WToggleStack toolName =>
      {| v_toolInventory := v_toolInventory v;
         v_expandedStacks :=
           if bool_decide (toolName ∈ v_expandedStacks v)
           then set_delete toolName (v_expandedStacks v)
           else set_add toolName (v_expandedStacks v);
         v_draggedElement := v_draggedElement v;
         v_lastUpdateTime := v_lastUpdateTime v |}
  | WExpandAllStacks toolNames =>
      {| v_toolInventory := v_toolInventory v;
         v_expandedStacks := new_Set toolNames;
         v_draggedElement := v_draggedElement v;
         v_lastUpdateTime := v_lastUpdateTime v |}
  | WCollapseAllStacks =>
      {| v_toolInventory := v_toolInventory v;
         v_expandedStacks := [];
         v_draggedElement := v_draggedElement v;
         v_lastUpdateTime := v_lastUpdateTime v |}
  | WSetDraggedElement element =>
      {| v_toolInventory := v_toolInventory v;
         v_expandedStacks := v_expandedStacks v;
         v_draggedElement := element;
         v_lastUpdateTime := v_lastUpdateTime v |}
  | WClearDraggedElement =>
      {| v_toolInventory := v_toolInventory v;
         v_expandedStacks := v_expandedStacks v;
         v_draggedElement := None;
         v_lastUpdateTime := v_lastUpdateTime v |}
  | WSetLastUpdateTime time =>
      {| v_toolInventory := v_toolInventory v;
         v_expandedStacks := v_expandedStacks v;
         v_draggedElement := v_draggedElement v;
         v_lastUpdateTime := time |}
  | WReset =>
      {| v_toolInventory := DEFAULT_TOOL_INVENTORY;
         v_expandedStacks := [];
         v_draggedElement := None;
         v_lastUpdateTime := None |}
  end.

(** Changes made through references: each pair is an object and what it is
    changed into. *)
Definition mutate (changes : list (loc * Cell)) (app : App) : App :=
  fold_left (fun a rc => (write rc.1 rc.2 a).2) changes app.

(** The changes touch only objects that did not exist in [app]. *)
Definition only_new (app : App) (changes : list (loc * Cell)) : Prop :=
  ∀ rc, rc ∈ changes → length (heap app) ≤ rc.1.

(** **** Examples: two quiet listeners around one that throws *)

Definition quiet (id : nat) : Listener :=
  {| listener_id := id; listener_run := fun _ => Returns tt |}.

Definition faulty (id : nat) : Listener :=
  {| listener_id := id;
     listener_run := fun _ => Throws (UserError "render failed") |}.

Definition observed : App :=
  (subscribe (quiet 3)
     (subscribe (faulty 2) (subscribe (quiet 1) new_AppState).2).2).2.

(** The contents of the current state object, if the heap holds them. *)
Definition contents (app : App) : option StateView :=
  match view (state app) app with
  | (Returns v, _) => Some v
  | (Throws _, _) => None
  end.

(** The cells [getState] adds to a heap of [n] cells. *)
Definition copy_cells (s : StateObj) (inv : Inventory) (ex : list string)
    (n : nat) : list Cell :=
  [CInventory inv; CSet (new_Set ex);
   CState {| toolInventory := n; expandedStacks := n + 1;
             draggedElement := draggedElement s;
             lastUpdateTime := lastUpdateTime s |}].

(** The heap holds the state object, its inventory and its set. *)
Definition wf (app : App) : Prop :=
  ∃ s inv ex,
    heap app !! state app = Some (CState s)
    ∧ heap app !! toolInventory s = Some (CInventory inv)
    ∧ heap app !! expandedStacks s = Some (CSet ex)
    ∧ NoDup ex.

(** What one round of notification adds to the log: each listener in turn
    is called with the state, and a throw is printed. *)
Definition notified (v : StateView) (ls : list Listener) : list Event :=
  concat ((fun l =>
             Called (listener_id l) v ::
             match listener_run l v with
             | Returns _ => []
             | Throws e => [ConsoleError "Error in state listener:" e]
             end) <$> ls).

(** The outcome of a write: the state now holds [v], the listeners are the
    same and were notified of [v], and no object of the old heap changed. *)
Definition written (app app' : App) (v : StateView) : Prop :=
  wf app'
  ∧ contents app' = Some v
  ∧ listeners app' = listeners app
  ∧ log app' = log app ++ notified v (listeners app)
  ∧ heap app `prefix_of` heap app'.

(** What [toggleStack] makes of the set of expanded stacks. *)
Definition toggled (toolName : string) (ex : list string) : list string :=
  if bool_decide (toolName ∈ ex) then set_delete toolName ex
  else set_add toolName ex.

(** The listeners called in a piece of log, in the order of the calls. *)
Definition called (l : list Event) : list nat :=
  omap (fun e => match e with
                 | Called id _ => Some id
                 | ConsoleError _ _ => None
                 end) l.

End AppState.

(* ===================================================================== *)
(** ** The document (js/dom.js)                                           *)
(* ===================================================================== *)

Module Dom.
Import Js Config.

(** *** Nodes

    The page is given by [index.html]: containers for the tools of each
    category (the pools), one of them the broken pool, a container for the
    crew cards, a live region and a line for the time of the last update.
    The modules fill the pools with tool elements and stacks and the crew
    container with drop zones.  A node has an identity; the fixed
    attributes ([role], [tabindex], [draggable]) are left out. *)

(** A tool element, [div.draggable] with [data-tool-number]. *)
Record Element : Type := mkElement {
  eid : nat;
  classList : list string;
  ds_toolName : string;
  ds_toolNumber : string;
  ds_toolClass : string;
  ds_checkoutTime : option string;
  ds_crew : option string;
  display : string;
  ariaLabel : string;
  ariaGrabbed : option string;
  textContent : string
}.

(** A stack: the label with its count badge, then the items.  [stackTool]
    is the tool definition its click handler was created with. *)
Record Stack : Type := mkStack {
  stackId : nat;
  stackTool : Tool;
  stackClasses : list string;
  stackToolName : string;
  stackDisplay : string;
  stackAriaLabel : string;
  labelClasses : list string;
  labelText : string;
  badgeText : string;
  badgeAriaLabel : string;
  items : list Element
}.

Inductive PoolChild : Type :=
  | PTool (e : Element)
  | PStack (s : Stack).

Record Pool : Type := mkPool {
  poolId : string;
  poolClasses : list string;
  children : list PoolChild
}.

(** A row of a crew's drop zone, [div.checkout-item]. *)
Record CheckoutItem : Type := mkCheckoutItem {
  ci_originalTool : string;
  ci_toolNumber : string;
  ci_checkoutTime : string;
  ci_crew : string;
  ci_ariaLabel : string
}.

(** A crew's drop zone, [div.drop-zone] with [data-crew]. *)
Record DropZone : Type := mkDropZone {
  zoneCrew : string;
  zoneItems : list CheckoutItem
}.

(** The document.  [crewsContainer], [liveRegion] and [updateTime] are
    [None] when the page lacks the element; the live region is kept as the
    list of what was announced in it.  [hasRequire] tells whether the page
    defines a global [require].  [cssOther] and [cssOtherZone] are what the
    browser finds, a tool element or a drop zone, for a selector text that
    is not the one the code meant to write. *)
Record Doc : Type := mkDoc {
  pools : list Pool;
  crewsContainer : option (list DropZone);
  liveRegion : option (list string);
  updateTime : option string;
  nextId : nat;
  hasRequire : bool;
  cssOther : string → list Element → Outcome (option nat);
  cssOtherZone : string → Outcome (option nat)
}.

Abbreviation M := (Js.M Doc).

(** *** Field updates *)

Definition set_classList (l : list string) (e : Element) : Element :=
  {| eid := eid e; classList := l; ds_toolName := ds_toolName e;
     ds_toolNumber := ds_toolNumber e; ds_toolClass := ds_toolClass e;
     ds_checkoutTime := ds_checkoutTime e; ds_crew := ds_crew e;
     display := display e; ariaLabel := ariaLabel e;
     ariaGrabbed := ariaGrabbed e; textContent := textContent e |}.

Definition set_checkoutTime (t : option string) (e : Element) : Element :=
  {| eid := eid e; classList := classList e; ds_toolName := ds_toolName e;
     ds_toolNumber := ds_toolNumber e; ds_toolClass := ds_toolClass e;
     ds_checkoutTime := t; ds_crew := ds_crew e;
     display := display e; ariaLabel := ariaLabel e;
     ariaGrabbed := ariaGrabbed e; textContent := textContent e |}.

Definition set_crew (c : option string) (e : Element) : Element :=
  {| eid := eid e; classList := classList e; ds_toolName := ds_toolName e;
     ds_toolNumber := ds_toolNumber e; ds_toolClass := ds_toolClass e;
     ds_checkoutTime := ds_checkoutTime e; ds_crew := c;
     display := display e; ariaLabel := ariaLabel e;
     ariaGrabbed := ariaGrabbed e; textContent := textContent e |}.

Definition set_display (d : string) (e : Element) : Element :=
  {| eid := eid e; classList := classList e; ds_toolName := ds_toolName e;
     ds_toolNumber := ds_toolNumber e; ds_toolClass := ds_toolClass e;
     ds_checkoutTime := ds_checkoutTime e; ds_crew := ds_crew e;
     display := d; ariaLabel := ariaLabel e;
     ariaGrabbed := ariaGrabbed e; textContent := textContent e |}.

Definition set_ariaLabel (a : string) (e : Element) : Element :=
  {| eid := eid e; classList := classList e; ds_toolName := ds_toolName e;
     ds_toolNumber := ds_toolNumber e; ds_toolClass := ds_toolClass e;
     ds_checkoutTime := ds_checkoutTime e; ds_crew := ds_crew e;
     display := display e; ariaLabel := a;
     ariaGrabbed := ariaGrabbed e; textContent := textContent e |}.

Definition set_ariaGrabbed (g : option string) (e : Element) : Element :=
  {| eid := eid e; classList := classList e; ds_toolName := ds_toolName e;
     ds_toolNumber := ds_toolNumber e; ds_toolClass := ds_toolClass e;
     ds_checkoutTime := ds_checkoutTime e; ds_crew := ds_crew e;
     display := display e; ariaLabel := ariaLabel e;
     ariaGrabbed := g; textContent := textContent e |}.

Definition set_items (l : list Element) (s : Stack) : Stack :=
  {| stackId := stackId s; stackTool := stackTool s; stackClasses := stackClasses s;
     stackToolName := stackToolName s; stackDisplay := stackDisplay s;
     stackAriaLabel := stackAriaLabel s; labelClasses := labelClasses s;
     labelText := labelText s; badgeText := badgeText s;
     badgeAriaLabel := badgeAriaLabel s; items := l |}.

Definition set_stackClasses (l : list string) (s : Stack) : Stack :=
  {| stackId := stackId s; stackTool := stackTool s; stackClasses := l;
     stackToolName := stackToolName s; stackDisplay := stackDisplay s;
     stackAriaLabel := stackAriaLabel s; labelClasses := labelClasses s;
     labelText := labelText s; badgeText := badgeText s;
     badgeAriaLabel := badgeAriaLabel s; items := items s |}.

Definition set_stackAriaLabel (a : string) (s : Stack) : Stack :=
  {| stackId := stackId s; stackTool := stackTool s; stackClasses := stackClasses s;
     stackToolName := stackToolName s; stackDisplay := stackDisplay s;
     stackAriaLabel := a; labelClasses := labelClasses s;
     labelText := labelText s; badgeText := badgeText s;
     badgeAriaLabel := badgeAriaLabel s; items := items s |}.

Definition set_badge (text aria : string) (d : string) (s : Stack) : Stack :=
  {| stackId := stackId s; stackTool := stackTool s; stackClasses := stackClasses s;
     stackToolName := stackToolName s; stackDisplay := d;
     stackAriaLabel := stackAriaLabel s; labelClasses := labelClasses s;
     labelText := labelText s; badgeText := text;
     badgeAriaLabel := aria; items := items s |}.

Definition set_children (l : list PoolChild) (p : Pool) : Pool :=
  {| poolId := poolId p; poolClasses := poolClasses p; children := l |}.

Definition set_zoneItems (l : list CheckoutItem) (z : DropZone) : DropZone :=
  {| zoneCrew := zoneCrew z; zoneItems := l |}.

Definition with_pools (d : Doc) (ps : list Pool) : Doc :=
  {| pools := ps; crewsContainer := crewsContainer d;
     liveRegion := liveRegion d; updateTime := updateTime d;
     nextId := nextId d; hasRequire := hasRequire d;
     cssOther := cssOther d; cssOtherZone := cssOtherZone d |}.

Definition with_crews (d : Doc) (c : option (list DropZone)) : Doc :=
  {| pools := pools d; crewsContainer := c;
     liveRegion := liveRegion d; updateTime := updateTime d;
     nextId := nextId d; hasRequire := hasRequire d;
     cssOther := cssOther d; cssOtherZone := cssOtherZone d |}.

Definition with_liveRegion (d : Doc) (l : option (list string)) : Doc :=
  {| pools := pools d; crewsContainer := crewsContainer d;
     liveRegion := l; updateTime := updateTime d;
     nextId := nextId d; hasRequire := hasRequire d;
     cssOther := cssOther d; cssOtherZone := cssOtherZone d |}.

Definition with_updateTime (d : Doc) (t : option string) : Doc :=
  {| pools := pools d; crewsContainer := crewsContainer d;
     liveRegion := liveRegion d; updateTime := t;
     nextId := nextId d; hasRequire := hasRequire d;
     cssOther := cssOther d; cssOtherZone := cssOtherZone d |}.

Definition with_nextId (d : Doc) (n : nat) : Doc :=
  {| pools := pools d; crewsContainer := crewsContainer d;
     liveRegion := liveRegion d; updateTime := updateTime d;
     nextId := n; hasRequire := hasRequire d;
     cssOther := cssOther d; cssOtherZone := cssOtherZone d |}.

(** *** Class lists *)

Definition contains (c : string) (l : list string) : bool :=
  bool_decide (c ∈ l).

Definition classList_add (c : string) (l : list string) : list string :=
  if contains c l then l else l ++ [c].

Definition classList_remove (c : string) (l : list string) : list string :=
  filter (fun x => x ≠ c) l.

(** [className = text]: the tokens of [text], each once. *)
Definition is_space (a : ascii) : bool :=
  let n := Ascii.nat_of_ascii a in
  (n =? 32) || (n =? 9) || (n =? 10) || (n =? 12) || (n =? 13).

Fixpoint split_tokens (cur : string) (s : string) : list string :=
  match s with
  | "" => if truthy_string cur then [cur] else []
  | String a s' =>
      if is_space a
      then (if truthy_string cur then [cur] else []) ++ split_tokens "" s'
      else split_tokens (cur +:+ String a "") s'
  end.

Definition tokens (className : string) : list string :=
  fold_left (fun acc c => classList_add c acc) (split_tokens "" className) [].

(** *** Walking the pools *)

Definition child_elements (c : PoolChild) : list Element :=
  match c with
  | PTool e => [e]
  | PStack s => items s
  end.

Definition pool_elements (p : Pool) : list Element :=
  concat (child_elements <$> children p).

(** The tool elements in document order. *)
Definition elements (d : Doc) : list Element :=
  concat (pool_elements <$> pools d).

Definition child_stacks (c : PoolChild) : list Stack :=
  match c with
  | PTool _ => []
  | PStack s => [s]
  end.

Definition stacks (d : Doc) : list Stack :=
  concat ((fun p => concat (child_stacks <$> children p)) <$> pools d).

Definition map_child (f : Element → Element) (g : Stack → Stack)
    (c : PoolChild) : PoolChild :=
  match c with
  | PTool e => PTool (f e)
  | PStack s => PStack (g (set_items (f <$> items s) s))
  end.

Definition map_doc (f : Element → Element) (g : Stack → Stack) (d : Doc)
  : Doc :=
  with_pools d
    ((fun p => set_children (map_child f g <$> children p) p) <$> pools d).

(** Change through a reference: the node with that identity. *)
Definition updateElement (target : nat) (f : Element → Element) : M unit :=
  fun d =>
    (Returns tt,
     map_doc (fun e => if Nat.eqb (eid e) target then f e else e) id d).

Definition updateStack (target : nat) (g : Stack → Stack) : M unit :=
  fun d =>
    (Returns tt,
     map_doc id (fun s => if Nat.eqb (stackId s) target then g s else s) d).

Definition findElement (target : nat) (d : Doc) : option Element :=
  find (fun e => Nat.eqb (eid e) target) (elements d).

(** [element.closest('.tool-stack')]: the stack the element is an item of. *)
Definition closestStack (target : nat) (d : Doc) : option Stack :=
  find (fun s => existsb (fun e => Nat.eqb (eid e) target) (items s))
       (stacks d).

(** [document.getElementById] for a pool: the first with that id. *)
Definition getPool (id : string) (d : Doc) : option Pool :=
  find (fun p => bool_decide (poolId p = id)) (pools d).

(** Take the node out of its parent. *)
Definition remove_from_child (target : nat) (c : PoolChild)
  : list PoolChild :=
  match c with
  | PTool e => if Nat.eqb (eid e) target then [] else [c]
  | PStack s =>
      [PStack (set_items
                 (filter (fun e => Nat.eqb (eid e) target = false) (items s))
                 s)]
  end.

Definition detach (target : nat) (d : Doc) : Doc :=
  with_pools d
    ((fun p =>
        set_children (concat (remove_from_child target <$> children p)) p)
       <$> pools d).

(** [pool.appendChild(node)] on the first pool with the id: the node leaves
    its parent and becomes the last child. *)
Fixpoint append_to_first (id : string) (e : Element) (ps : list Pool)
  : list Pool :=
  match ps with
  | [] => []
  | p :: rest =>
      if bool_decide (poolId p = id)
      then set_children (children p ++ [PTool e]) p :: rest
      else p :: append_to_first id e rest
  end.

(** [pool.appendChild(node)] on the pool at a position. *)
Definition append_at (i : nat) (e : Element) (ps : list Pool) : list Pool :=
  match ps !! i with
  | Some p => <[i := set_children (children p ++ [PTool e]) p]> ps
  | None => ps
  end.

Definition appendChild_byId (id : string) (target : nat) : M unit :=
  fun d =>
    match findElement target d with
    | Some e =>
        let d' := detach target d in
        (Returns tt, with_pools d' (append_to_first id e (pools d')))
    | None => (Returns tt, d)
    end.

Definition appendChild_at (i : nat) (target : nat) : M unit :=
  fun d =>
    match findElement target d with
    | Some e =>
        let d' := detach target d in
        (Returns tt, with_pools d' (append_at i e (pools d')))
    | None => (Returns tt, d)
    end.

(** *** Views of the document used to state its properties *)

(** Node identities are not shared: no two tool elements and no two
    stacks are the same node. *)
Definition distinct_nodes (d : Doc) : Prop :=
  NoDup (eid <$> elements d) ∧ NoDup (stackId <$> stacks d).

(** A crew or a checkout time is recorded only on an element marked as
    checked out. *)
Definition recorded_only_if_out (e : Element) : Prop :=
  contains "checked-out" (classList e) = false →
  ds_crew e = None ∧ ds_checkoutTime e = None.

(** A property of every tool element. *)
Definition all (Q : Element → Prop) (d : Doc) : Prop :=
  Forall Q (elements d).

Definition tidy (d : Doc) : Prop := all recorded_only_if_out d.

(** *** dom.js *)

Definition announceToScreenReader (message : string) : M unit :=
  fun d =>
    (Returns tt,
     match liveRegion d with
     | Some said => with_liveRegion d (Some (said ++ [message]))
     | None => d
     end).

Definition createAriaLiveRegion : M unit :=
  fun d =>
    (Returns tt,
     match liveRegion d with
     | Some _ => d
     | None => with_liveRegion d (Some [])
     end).

(** A new node identity. *)
Definition fresh_id : M nat :=
  fun d => (Returns (nextId d), with_nextId d (S (nextId d))).

(** *** Selectors written by interpolation

    [`.draggable[data-tool-name="${name}"][data-tool-number="${number}"]`]
    selects the tool elements with that name and number when neither text
    closes the quotes, starts an escape or breaks the line.  Any other text
    is left to the browser. *)
Definition dquote : string := String (Ascii.ascii_of_nat 34) "".

Definition selector_safe_char (a : ascii) : bool :=
  let n := Ascii.nat_of_ascii a in
  negb ((n =? 34) || (n =? 92) || (n =? 10) || (n =? 12) || (n =? 13)).

Fixpoint selector_safe (s : string) : bool :=
  match s with
  | "" => true
  | String a s' => selector_safe_char a && selector_safe s'
  end.

Definition tool_selector (toolName toolNumber : string) : string :=
  ".draggable[data-tool-name=" +:+ dquote +:+ toolName +:+ dquote
  +:+ "][data-tool-number=" +:+ dquote +:+ toolNumber +:+ dquote +:+ "]".

Definition crew_selector (crew : string) : string :=
  ".drop-zone[data-crew=" +:+ dquote +:+ crew +:+ dquote +:+ "]".

Definition matches_tool (toolName toolNumber : string) (e : Element) : bool :=
  contains "draggable" (classList e)
  && bool_decide (ds_toolName e = toolName)
  && bool_decide (ds_toolNumber e = toolNumber).

(** [document.querySelector] on the tool selector: the first match in
    document order, as a reference. *)
Definition querySelector_tool (toolName toolNumber : string)
  : M (option nat) :=
  fun d =>
    if selector_safe toolName && selector_safe toolNumber
    then (Returns (eid <$> find (matches_tool toolName toolNumber)
                             (elements d)), d)
    else (cssOther d (tool_selector toolName toolNumber) (elements d), d).

End Dom.

(* ===================================================================== *)
(** ** js/tools.js and js/crews.js on the document                        *)
(* ===================================================================== *)

Module Tools.
Import Js Config Dom.

(** [validateTool]: the error messages, in the order they are pushed. *)
Definition validateTool (name : string) (quantity : Quantity)
  : bool * list string :=
  let nameErrors :=
    if negb (truthy_string name)
       || Nat.ltb (String.length (trim name)) VALIDATION.MIN_TOOL_NAME_LENGTH
    then ["Tool name is required"]
    else if Nat.ltb VALIDATION.MAX_TOOL_NAME_LENGTH (String.length name)
    then ["Tool name must be less than "
          +:+ pretty VALIDATION.MAX_TOOL_NAME_LENGTH +:+ " characters"]
    else [] in
  let quantityErrors :=
    match parseInt quantity with
    | None => ["Quantity must be a number"]
    | Some qty =>
        if (qty <? VALIDATION.MIN_QUANTITY)%Z
        then ["Quantity must be at least " +:+ pretty VALIDATION.MIN_QUANTITY]
        else if (VALIDATION.MAX_QUANTITY <? qty)%Z
        then ["Quantity cannot exceed " +:+ pretty VALIDATION.MAX_QUANTITY]
        else []
    end in
  let errors := nameErrors ++ quantityErrors in
  (Nat.eqb (length errors) 0, errors).

(** [for (let i = 1; i <= tool.qty; i++)]: the numbers 1 .. qty. *)
Definition numbers (qty : Z) : list nat := seq 1 (Z.to_nat qty).

Definition createToolElement (tool : Tool) (toolNumber : nat) : M Element :=
  let! id := fresh_id in
  ret {| eid := id;
         classList := tokens ("draggable " +:+ class tool);
         ds_toolName := name tool;
         ds_toolNumber := pretty toolNumber;
         ds_toolClass := class tool;
         ds_checkoutTime := None;
         ds_crew := None;
         display := "";
         ariaLabel := name tool +:+ " number " +:+ pretty toolNumber
                      +:+ ", draggable tool";
         ariaGrabbed := Some "false";
         textContent := name tool +:+ " #" +:+ pretty toolNumber |}.

Fixpoint createItems (tool : Tool) (ns : list nat) : M (list Element) :=
  match ns with
  | [] => ret []
  | i :: rest =>
      let! toolDiv := createToolElement tool i in
      let toolDiv :=
        set_classList (classList_add "tool-item" (classList toolDiv)) toolDiv in
      let! others := createItems tool rest in
      ret (toolDiv :: others)
  end.

Fixpoint append_child_to_first (id : string) (c : PoolChild)
    (ps : list Pool) : list Pool :=
  match ps with
  | [] => []
  | p :: rest =>
      if bool_decide (poolId p = id)
      then set_children (children p ++ [c]) p :: rest
      else p :: append_child_to_first id c rest
  end.

Definition pool_appendChild (id : string) (c : PoolChild) : M unit :=
  fun d => (Returns tt, with_pools d (append_child_to_first id c (pools d))).

Definition createToolStack (tool : Tool) (poolId : string) : M unit :=
  let! d := get_state in
  match getPool poolId d with
  | None => ret tt
  | Some _ =>
      if (qty tool =? 1)%Z then
        let! toolDiv := createToolElement tool 1 in
        pool_appendChild poolId (PTool toolDiv)
      else
        let! id := fresh_id in
        let! toolDivs := createItems tool (numbers (qty tool)) in
        pool_appendChild poolId
          (PStack
             {| stackId := id;
                stackTool := tool;
                stackClasses := tokens "tool-stack";
                stackToolName := name tool;
                stackDisplay := "";
                stackAriaLabel :=
                  name tool +:+ " stack, " +:+ pretty (qty tool)
                  +:+ " tools available. Press Enter to expand.";
                labelClasses :=
                  tokens ("draggable " +:+ class tool +:+ " stack-label");
                labelText := name tool;
                badgeText := pretty (qty tool);
                badgeAriaLabel := pretty (qty tool) +:+ " available";
                items := toolDivs |})
  end.

(** [.tool-item:not(.checked-out)] among the descendants of a stack. *)
Definition available_class (l : list string) : bool :=
  contains "tool-item" l && negb (contains "checked-out" l).

Definition availableCount (s : Stack) : nat :=
  (if available_class (labelClasses s) then 1 else 0)
  + length (filter (fun e => available_class (classList e) = true) (items s)).

Definition updateStackCount (stackDiv : nat) : M unit :=
  let! d := get_state in
  match find (fun s => Nat.eqb (stackId s) stackDiv) (stacks d) with
  | None => ret tt
  | Some s =>
      let availableCount := availableCount s in
      if Nat.eqb availableCount 0 then
        do! updateStack stackDiv
              (set_badge (pretty availableCount)
                 (pretty availableCount +:+ " available") "none") in
        announceToScreenReader
          ("All tools from " +:+ stackToolName s
           +:+ " have been checked out")
      else
        updateStack stackDiv
          (set_badge (pretty availableCount)
             (pretty availableCount +:+ " available") "")
  end.

(** The click handler [toggleStack] of a stack, for a click that is not on
    one of its items; its call of [appState.toggleStack] is added where the
    application state is at hand. *)
Definition toggleStackView (stackDiv : nat) : M unit :=
  let! d := get_state in
  match find (fun s => Nat.eqb (stackId s) stackDiv) (stacks d) with
  | None => ret tt
  | Some s =>
      let tool := stackTool s in
      let isExpanded := negb (contains "expanded" (stackClasses s)) in
      do! updateStack stackDiv
            (fun s => set_stackAriaLabel
               (if isExpanded
                then name tool +:+ " stack expanded, " +:+ pretty (qty tool)
                     +:+ " tools shown. Press Enter to collapse."
                else name tool +:+ " stack collapsed, " +:+ pretty (qty tool)
                     +:+ " tools available. Press Enter to expand.")
               (set_stackClasses
                  (if isExpanded
                   then classList_add "expanded" (stackClasses s)
                   else classList_remove "expanded" (stackClasses s)) s)) in
      do! updateStackCount stackDiv in
      announceToScreenReader
        (if isExpanded then name tool +:+ " stack expanded"
         else name tool +:+ " stack collapsed")
  end.

(** [returnTool(toolElement)] reads the name and the number off its
    argument and looks the tool up again; [None] is a null argument. *)
Definition returned (e : Element) : Element :=
  set_crew None
    (set_checkoutTime None
       (set_ariaGrabbed None
          (set_display ""
             (set_classList (classList_remove "checked-out" (classList e))
                e)))).

Definition returnTool (toolElement : option (string * string)) : M bool :=
  match toolElement with
  | None => ret false
  | Some (toolName, toolNumber) =>
      let! originalTool := querySelector_tool toolName toolNumber in
      match originalTool with
      | Some t =>
          do! updateElement t returned in
          let! d := get_state in
          do! match closestStack t d with
              | Some stack => updateStackCount (stackId stack)
              | None => ret tt
              end in
          do! announceToScreenReader
                (toolName +:+ " #" +:+ toolNumber +:+ " returned") in
          ret true
      | None => ret false
      end
  end.

(** [querySelectorAll('.draggable.checked-out')]: the name and the number
    each match carries, in document order.  A stack label has no number. *)
Definition checked_out_class (l : list string) : bool :=
  contains "draggable" l && contains "checked-out" l.

Definition child_checked_out (c : PoolChild) : list (string * string) :=
  match c with
  | PTool e =>
      if checked_out_class (classList e)
      then [(ds_toolName e, ds_toolNumber e)] else []
  | PStack s =>
      (if checked_out_class (labelClasses s)
       then [(stackToolName s, "undefined")] else [])
      ++ ((fun e => (ds_toolName e, ds_toolNumber e)) <$>
            filter (fun e => checked_out_class (classList e) = true) (items s))
  end.

Definition checkedOutTools (d : Doc) : list (string * string) :=
  concat ((fun p => concat (child_checked_out <$> children p)) <$> pools d).

Fixpoint returnEach (tools : list (string * string)) (count : nat) : M nat :=
  match tools with
  | [] => ret count
  | tool :: rest =>
      let! ok := returnTool (Some tool) in
      returnEach rest (if ok : bool then S count else count)
  end.

Definition clearZones : M unit :=
  fun d =>
    (Returns tt,
     with_crews d
       ((fun zs : list DropZone => set_zoneItems [] <$> zs)
          <$> crewsContainer d)).

Definition returnAllTools : M nat :=
  let! d := get_state in
  let! count := returnEach (checkedOutTools d) 0 in
  do! clearZones in
  do! announceToScreenReader
        ("Returned " +:+ pretty count +:+ " tools to inventory") in
  ret count.

(** The name and the number a tool element carries. *)
Definition tool_key (e : Element) : string * string :=
  (ds_toolName e, ds_toolNumber e).



(** [getCheckoutData] and [getBrokenToolsData]: what a snapshot records. *)
Record CheckedOut : Type := mkCheckedOut {
  co_tool : string;
  co_number : string;
  co_crew : string;
  co_time : string
}.

Definition zones (d : Doc) : list DropZone := default [] (crewsContainer d).

Definition getCheckoutData (d : Doc) : list (string * list CheckedOut) :=
  omap (fun z =>
          match zoneItems z with
          | [] => None
          | its =>
              Some (zoneCrew z,
                    (fun i => {| co_tool := ci_originalTool i;
                                 co_number := ci_toolNumber i;
                                 co_crew := zoneCrew z;
                                 co_time := ci_checkoutTime i |}) <$> its)
          end) (zones d).

Definition child_draggables (c : PoolChild) : list (string * string) :=
  match c with
  | PTool e =>
      if contains "draggable" (classList e)
      then [(ds_toolName e, ds_toolNumber e)] else []
  | PStack s =>
      (if contains "draggable" (labelClasses s)
       then [(stackToolName s, "undefined")] else [])
      ++ ((fun e => (ds_toolName e, ds_toolNumber e)) <$>
            filter (fun e => contains "draggable" (classList e) = true)
              (items s))
  end.

Definition getBrokenToolsData (d : Doc) : list (string * string) :=
  match getPool "brokenPool" d with
  | None => []
  | Some brokenPool => concat (child_draggables <$> children brokenPool)
  end.

End Tools.

Module Crews.
Import Js Config Dom Tools.

Definition createCrewCard (crewNumber : nat) : DropZone :=
  {| zoneCrew := pretty crewNumber; zoneItems := [] |}.

Definition createCrewCards : M unit :=
  let! d := get_state in
  match crewsContainer d with
  | None => ret tt
  | Some _ =>
      do! (fun d => (Returns tt,
                     with_crews d (Some (createCrewCard <$>
                                           seq 1 CREW_COUNT)))) in
      announceToScreenReader
        (pretty CREW_COUNT +:+ " crew checkout areas ready")
  end.

Definition createCheckoutItem (tool toolNumber time crewNumber : string)
  : CheckoutItem :=
  {| ci_originalTool := tool;
     ci_toolNumber := toolNumber;
     ci_checkoutTime := time;
     ci_crew := crewNumber;
     ci_ariaLabel := tool +:+ " number " +:+ toolNumber
                     +:+ " checked out at " +:+ time |}.

Definition zone_append (z : nat) (item : CheckoutItem) : M unit :=
  fun d =>
    (Returns tt,
     with_crews d
       ((fun zs : list DropZone =>
           match zs !! z with
           | Some zone =>
               <[z := set_zoneItems (zoneItems zone ++ [item]) zone]> zs
           | None => zs
           end) <$> crewsContainer d)).

Definition zone_remove (z i : nat) : M unit :=
  fun d =>
    (Returns tt,
     with_crews d
       ((fun zs : list DropZone =>
           match zs !! z with
           | Some zone =>
               <[z := set_zoneItems (delete i (zoneItems zone)) zone]> zs
           | None => zs
           end) <$> crewsContainer d)).

(** The click on the Return button of row [i] of zone [z]. *)
Definition handleReturnTool (z i : nat) : M unit :=
  let! d := get_state in
  match zones d !! z ≫= fun zone => zoneItems zone !! i with
  | None => ret tt
  | Some checkoutItem =>
      let! originalTool :=
        querySelector_tool (ci_originalTool checkoutItem)
          (ci_toolNumber checkoutItem) in
      let! d := get_state in
      let! ok :=
        returnTool
          (originalTool ≫= fun t =>
             (fun e => (ds_toolName e, ds_toolNumber e)) <$> findElement t d) in
      if ok : bool then zone_remove z i else ret tt
  end.

(** What an element can be dropped on. *)
Inductive ZoneRef : Type :=
  | CrewZone (z : nat)
  | PoolZone (p : nat).

(** [dropZone.dataset.crew]: a pool has none. *)
Definition zone_crew (dropZone : ZoneRef) (d : Doc) : option string :=
  match dropZone with
  | CrewZone z => zoneCrew <$> zones d !! z
  | PoolZone _ => None
  end.

Definition checked_out (time crewNumber : string) (e : Element) : Element :=
  set_ariaGrabbed (Some "true")
    (set_crew (Some crewNumber)
       (set_checkoutTime (Some time)
          (set_display "none"
             (set_classList (classList_add "checked-out" (classList e)) e)))).

Definition checkoutTool (now : Date) (toolElement : nat) (dropZone : ZoneRef)
  : M bool :=
  let! d := get_state in
  match zone_crew dropZone d, findElement toolElement d with
  | Some crewNumber, Some e =>
      if truthy_string crewNumber then
        let time := toLocaleTimeString now in
        let checkoutItem :=
          createCheckoutItem (ds_toolName e) (ds_toolNumber e) time
            crewNumber in
        do! updateElement toolElement (checked_out time crewNumber) in
        do! match dropZone with
            | CrewZone z => zone_append z checkoutItem
            | PoolZone _ => ret tt
            end in
        do! announceToScreenReader
              (ds_toolName e +:+ " number " +:+ ds_toolNumber e
               +:+ " checked out to Crew " +:+ crewNumber) in
        ret true
      else ret false
  | _, _ => ret false
  end.

Definition markToolBroken (toolElement : nat) : M bool :=
  let! d := get_state in
  match getPool "brokenPool" d, findElement toolElement d with
  | Some _, Some e =>
      do! updateElement toolElement
            (fun e =>
               set_ariaLabel
                 (ds_toolName e +:+ " number " +:+ ds_toolNumber e
                  +:+ ", marked as broken")
                 (set_classList (classList_add "broken" (classList e)) e)) in
      do! appendChild_byId "brokenPool" toolElement in
      do! announceToScreenReader
            (ds_toolName e +:+ " number " +:+ ds_toolNumber e
             +:+ " marked as broken") in
      ret true
  | _, _ => ret false
  end.

Definition unmarkToolBroken (toolElement : nat) : M bool :=
  let! d := get_state in
  match findElement toolElement d with
  | Some e =>
      do! updateElement toolElement
            (fun e =>
               set_ariaLabel
                 (ds_toolName e +:+ " number " +:+ ds_toolNumber e
                  +:+ ", draggable tool")
                 (set_classList (classList_remove "broken" (classList e))
                    e)) in
      do! announceToScreenReader
            (ds_toolName e +:+ " number " +:+ ds_toolNumber e
             +:+ " returned to inventory") in
      ret true
  | None => ret false
  end.

(** [document.querySelector(`.drop-zone[data-crew="${crew}"]`)]. *)
Definition querySelector_zone (crew : string) : M (option nat) :=
  fun d =>
    if selector_safe crew
    then (Returns (fst <$> list_find (fun z => zoneCrew z = crew) (zones d)),
          d)
    else (cssOtherZone d (crew_selector crew), d).

Definition or_default (s fallback : string) : string :=
  if truthy_string s then s else fallback.

Definition loadCheckout (crew : string) (dropZone : nat) (saved : CheckedOut)
    (loadedCount : nat) : M nat :=
  let! originalTool :=
    querySelector_tool (co_tool saved) (co_number saved) in
  match originalTool with
  | Some t =>
      let checkoutItem :=
        createCheckoutItem (co_tool saved) (co_number saved)
          (or_default (co_time saved) "N/A") crew in
      do! updateElement t
            (fun e =>
               set_crew (Some crew)
                 (set_checkoutTime (Some (or_default (co_time saved) ""))
                    (set_display "none"
                       (set_classList
                          (classList_add "checked-out" (classList e)) e)))) in
      do! zone_append dropZone checkoutItem in
      let! d := get_state in
      do! match closestStack t d with
          | Some stack =>
              if hasRequire d then updateStackCount (stackId stack)
              else throw ReferenceError
          | None => ret tt
          end in
      ret (S loadedCount)
  | None => ret loadedCount
  end.

Fixpoint loadCrew (crew : string) (dropZone : nat) (tools : list CheckedOut)
    (loadedCount : nat) : M nat :=
  match tools with
  | [] => ret loadedCount
  | saved :: rest =>
      let! n := loadCheckout crew dropZone saved loadedCount in
      loadCrew crew dropZone rest n
  end.

Fixpoint loadCrews (checkoutsData : list (string * list CheckedOut))
    (loadedCount : nat) : M nat :=
  match checkoutsData with
  | [] => ret loadedCount
  | (crew, tools) :: rest =>
      let! dropZone := querySelector_zone crew in
      let! n :=
        match dropZone with
        | Some z => loadCrew crew z tools loadedCount
        | None => ret loadedCount
        end in
      loadCrews rest n
  end.

Definition loadCheckouts (checkoutsData : list (string * list CheckedOut))
  : M unit :=
  let! loadedCount := loadCrews checkoutsData 0 in
  if Nat.ltb 0 loadedCount then
    announceToScreenReader
      ("Loaded " +:+ pretty loadedCount
       +:+ " tool checkouts from saved data")
  else ret tt.

Definition clearAllCheckouts : M unit := clearZones.

(** *** Checkout followed by return

    [checkoutTool(i, zone)] and then [returnTool(i)], which reads the name
    and the number off the element it is handed. *)
Definition roundTrip (now : Date) (i : nat) (dropZone : ZoneRef) : M bool :=
  let! checkedOut := checkoutTool now i dropZone in
  let! d := get_state in
  returnTool ((fun e => (ds_toolName e, ds_toolNumber e)) <$> findElement i d).

(** An element in the available state: neither checked out nor broken. *)
Definition available (e : Element) : bool :=
  negb (contains "checked-out" (classList e))
  && negb (contains "broken" (classList e)).

(** C2 read to the letter: whatever available stack item and crew, the
    round trip leaves the item available with no crew and no checkout time
    and the badge of its stack as it was. *)
Definition round_trip_restores : Prop :=
  ∀ (d : Doc) (now : Date) (i z : nat) (e : Element) (s : Stack)
    (crew : string),
    findElement i d = Some e → available e = true →
    closestStack i d = Some s →
    zone_crew (CrewZone z) d = Some crew → truthy_string crew = true →
    ∃ e' s',
      findElement i (roundTrip now i (CrewZone z) d).2 = Some e'
      ∧ available e' = true
      ∧ ds_crew e' = None ∧ ds_checkoutTime e' = None
      ∧ closestStack i (roundTrip now i (CrewZone z) d).2 = Some s'
      ∧ badgeText s' = badgeText s.

End Crews.

(* ===================================================================== *)
(** ** The page: document, application state and store together           *)
(* ===================================================================== *)

Module Page.
Import Js Config Dom Tools Crews.

(** [touchItem] is the module variable of the drag module. *)
Record World : Type := mkWorld {
  doc : Doc;
  app : AppState.App;
  storage : Storage.Storage;
  touchItem : option nat
}.

Abbreviation M := (Js.M World).

Definition on_doc {A} (m : Dom.M A) : M A :=
  fun w =>
    let '(r, d) := m (doc w) in
    (r, {| doc := d; app := app w; storage := storage w;
           touchItem := touchItem w |}).

Definition on_app {A} (m : AppState.M A) : M A :=
  fun w =>
    let '(r, a) := m (app w) in
    (r, {| doc := doc w; app := a; storage := storage w;
           touchItem := touchItem w |}).

Definition on_storage {A} (m : Storage.M A) : M A :=
  fun w =>
    let '(r, st) := m (storage w) in
    (r, {| doc := doc w; app := app w; storage := st;
           touchItem := touchItem w |}).

Definition set_touchItem (t : option nat) : M unit :=
  fun w =>
    (Returns tt, {| doc := doc w; app := app w; storage := storage w;
                    touchItem := t |}).

(** *** ui.js *)

Definition updateLastModifiedTime (now : Date) : M unit :=
  let timeString := toLocaleString now in
  do! on_doc (fun d =>
        (Returns tt,
         match updateTime d with
         | Some _ => with_updateTime d (Some ("Last Updated: " +:+ timeString))
         | None => d
         end)) in
  do! on_storage (Storage.saveUpdateTime timeString) in
  on_app (AppState.setLastUpdateTime (Some timeString)).

(** *** tools.js, the functions that use the application state *)

(** [Object.values(CONFIG.POOL_IDS)]. *)
Definition poolIds : list string :=
  ["hammersPool"; "driversPool"; "measuringPool"; "cuttingPool";
   "pliersPool"; "batteriesPool"; "powerPool"; "safetyPool"; "miscPool";
   "brokenPool"].

Fixpoint clear_first (id : string) (ps : list Pool) : list Pool :=
  match ps with
  | [] => []
  | p :: rest =>
      if bool_decide (poolId p = id) then set_children [] p :: rest
      else p :: clear_first id rest
  end.

Definition clearPool (id : string) : Dom.M unit :=
  fun d => (Returns tt, with_pools d (clear_first id (pools d))).

Definition initializeInventory : M unit :=
  let! r := on_app AppState.getInventory in
  let! inventory := on_app (AppState.readInventory r) in
  do! on_doc (for_each poolIds (fun poolId =>
        if bool_decide (poolId ≠ "brokenPool") then clearPool poolId
        else ret tt)) in
  do! on_doc (for_each inventory (fun '(category, tools) =>
        match POOL_IDS category with
        | None => ret tt
        | Some poolId =>
            for_each tools (fun tool => createToolStack tool poolId)
        end)) in
  on_doc (announceToScreenReader "Tool inventory loaded").

(** The result object of [addTool].  For a category named like a member
    of [Object.prototype], [CATEGORY_CLASSES[category]] is a function: the
    state's [addTool] then throws unless the inventory has that category,
    and the tool it stores otherwise has no class, since [deepClone] drops
    a function; an absent class prints as [undefined] wherever the code
    reads it. *)
Inductive AddResult : Type :=
  | Rejected (errors : list string)
  | Added (tool : Tool).

Definition addTool (name category : string) (quantity : Quantity)
  : M AddResult :=
  let validation := validateTool name quantity in
  if negb validation.1 then ret (Rejected validation.2)
  else
    let qty := default 0%Z (parseInt quantity) in
    let toolClass :=
      if inherited_member category then "undefined"
      else default "misc" (CATEGORY_CLASSES category) in
    let newTool := {| Config.name := trim name; qty := qty;
                      class := toolClass |} in
    do! on_app (AppState.addTool category newTool) in
    do! match POOL_IDS category with
        | Some poolId => on_doc (createToolStack newTool poolId)
        | None => ret tt
        end in
    do! on_doc (announceToScreenReader
                  ("Added " +:+ pretty qty +:+ " " +:+ name
                   +:+ " to inventory")) in
    ret (Added newTool).

(** A click on a stack, outside its items. *)
Definition toggleStack (stackDiv : nat) : M unit :=
  let! w := get_state in
  match find (fun s => Nat.eqb (stackId s) stackDiv) (stacks (doc w)) with
  | None => ret tt
  | Some s =>
      do! on_app (AppState.toggleStack (name (stackTool s))) in
      on_doc (toggleStackView stackDiv)
  end.

Definition toggleExpandAll : M unit :=
  let! w := get_state in
  let all := stacks (doc w) in
  let shouldExpand :=
    negb (existsb (fun s => contains "expanded" (stackClasses s)) all) in
  let allToolNames := stackToolName <$> all in
  if shouldExpand then
    do! on_doc (fun d =>
          (Returns tt,
           map_doc id (fun s =>
             set_stackClasses (classList_add "expanded" (stackClasses s)) s)
             d)) in
    do! on_app (AppState.expandAllStacks allToolNames) in
    on_doc (announceToScreenReader "All tool stacks expanded")
  else
    do! on_doc (fun d =>
          (Returns tt,
           map_doc id (fun s =>
             set_stackClasses (classList_remove "expanded" (stackClasses s))
               s) d)) in
    do! on_app AppState.collapseAllStacks in
    on_doc (announceToScreenReader "All tool stacks collapsed").

(** *** drag.js *)

Definition grab (e : Element) : Element :=
  set_ariaGrabbed (Some "true")
    (set_classList (classList_add "dragging" (classList e)) e).

Definition release (e : Element) : Element :=
  set_ariaGrabbed (Some "false")
    (set_classList (classList_remove "dragging" (classList e)) e).

(** [handleDragStart] returns whether it called [preventDefault], which
    cancels the drag. *)
Definition handleDragStart (target : nat) : M bool :=
  let! w := get_state in
  match findElement target (doc w) with
  | None => ret true
  | Some e =>
      if negb (contains "draggable" (classList e))
         || contains "stack-label" (classList e)
      then ret true
      else if contains "checked-out" (classList e) then ret true
      else
        do! on_app (AppState.setDraggedElement (Some target)) in
        do! on_doc (updateElement target grab) in
        ret false
  end.

Definition handleDragEnd (target : nat) : M unit :=
  let! w := get_state in
  do! match findElement target (doc w) with
      | Some e =>
          if contains "draggable" (classList e)
          then on_doc (updateElement target release)
          else ret tt
      | None => ret tt
      end in
  on_app AppState.clearDraggedElement.

Definition updateStackOf (target : nat) : Dom.M unit :=
  let! d := get_state in
  match closestStack target d with
  | Some stack => updateStackCount (stackId stack)
  | None => ret tt
  end.

Definition handleDrop (now : Date) (draggedElement : nat)
    (dropZone : ZoneRef) : M unit :=
  let! w := get_state in
  let crew := zone_crew dropZone (doc w) in
  if truthy_string (default "" crew) then
    let! success := on_doc (checkoutTool now draggedElement dropZone) in
    if success : bool then
      do! on_doc (updateStackOf draggedElement) in
      updateLastModifiedTime now
    else ret tt
  else
    match dropZone with
    | CrewZone _ => ret tt
    | PoolZone p =>
        match pools (doc w) !! p with
        | None => ret tt
        | Some pool =>
            if bool_decide (poolId pool = "brokenPool") then
              do! on_doc (markToolBroken draggedElement) in
              updateLastModifiedTime now
            else if contains "resource-items" (poolClasses pool) then
              do! match findElement draggedElement (doc w) with
                  | Some e =>
                      if contains "broken" (classList e)
                      then do! on_doc (unmarkToolBroken draggedElement) in
                           ret tt
                      else ret tt
                  | None => ret tt
                  end in
              do! on_doc (appendChild_at p draggedElement) in
              do! on_doc (updateStackOf draggedElement) in
              updateLastModifiedTime now
            else ret tt
        end
    end.

(** The [drop] listener of the document, once the target is resolved to
    the nearest drop zone or pool, if any. *)
Definition dropEvent (now : Date) (dropZone : option ZoneRef) : M unit :=
  let! draggedElement := on_app AppState.getDraggedElement in
  match dropZone, draggedElement with
  | Some zone, Some dragged => handleDrop now dragged zone
  | _, _ => ret tt
  end.

Definition handleTouchStart (target : nat) : M unit :=
  let! w := get_state in
  match findElement target (doc w) with
  | None => ret tt
  | Some e =>
      if negb (contains "draggable" (classList e))
         || contains "stack-label" (classList e)
         || contains "checked-out" (classList e)
      then ret tt
      else
        do! set_touchItem (Some target) in
        do! on_app (AppState.setDraggedElement (Some target)) in
        on_doc (updateElement target grab)
  end.

Definition handleTouchEnd (now : Date) (dropZone : option ZoneRef)
  : M unit :=
  let! w := get_state in
  match touchItem w with
  | None => ret tt
  | Some item =>
      let! draggedElement := on_app AppState.getDraggedElement in
      do! match dropZone, draggedElement with
          | Some zone, Some dragged => handleDrop now dragged zone
          | _, _ => ret tt
          end in
      do! on_doc (updateElement item release) in
      do! set_touchItem None in
      on_app AppState.clearDraggedElement
  end.

(** *** main.js *)

(** A snapshot as [saveSchedule] builds it; a field is [None] when the
    stored object lacks it. *)
Record Snapshot : Type := mkSnapshot {
  s_inventory : option Inventory;
  s_checkouts : option (list (string * list CheckedOut));
  s_broken : option (list (string * string))
}.

Definition takeSnapshot : M Snapshot :=
  let! r := on_app AppState.getInventory in
  let! inventory := on_app (AppState.readInventory r) in
  let! w := get_state in
  ret {| s_inventory := Some inventory;
         s_checkouts := Some (getCheckoutData (doc w));
         s_broken := Some (getBrokenToolsData (doc w)) |}.

Definition loadBrokenTools (brokenData : list (string * string))
  : Dom.M unit :=
  let! d := get_state in
  match getPool "brokenPool" d with
  | None => ret tt
  | Some _ =>
      for_each brokenData (fun '(name, number) =>
        let! toolElement := querySelector_tool name number in
        match toolElement with
        | Some t =>
            do! updateElement t (fun e =>
                  set_classList (classList_add "broken" (classList e)) e) in
            appendChild_byId "brokenPool" t
        | None => ret tt
        end)
  end.

Definition loadHistoryData (historyData : Snapshot) : M unit :=
  do! match s_inventory historyData with
      | Some inventory =>
          do! on_app (AppState.setInventory inventory) in
          initializeInventory
      | None => ret tt
      end in
  do! on_doc createCrewCards in
  do! match s_checkouts historyData with
      | Some checkouts => on_doc (loadCheckouts checkouts)
      | None => ret tt
      end in
  do! match s_broken historyData with
      | Some broken => on_doc (loadBrokenTools broken)
      | None => ret tt
      end in
  on_doc (announceToScreenReader "Historical schedule loaded successfully").

(** The Clear button, confirmed. *)
Definition clearAll (now : Date) : M unit :=
  do! on_doc clearAllCheckouts in
  do! on_doc returnAllTools in
  do! initializeInventory in
  do! on_doc createCrewCards in
  do! updateLastModifiedTime now in
  on_doc (announceToScreenReader "All checkouts cleared and reset complete").

(** The Return All button, confirmed. *)
Definition returnAll (now : Date) : M unit :=
  do! on_doc returnAllTools in
  updateLastModifiedTime now.

(** [init], up to the load of a saved schedule. *)
Definition init : M unit :=
  do! on_doc createAriaLiveRegion in
  do! initializeInventory in
  on_doc createCrewCards.

(** *** What the user can do

    A handler runs to its end or to a throw; the page then stays as the
    handler left it.  A pointer drag is the event [dragstart] on an element
    and, unless the handler cancelled it, [drop] on what lies under the
    pointer and [dragend]; a touch drag is [touchstart] and [touchend].

    [pointerDrag] and [touchDrag] are the drags of an element that carries
    the handlers.  [setupDragEvents] puts them on the elements of class
    draggable that exist when it runs, which is at the end of [init], of a
    history load, of Clear and of a successful add; an element made since,
    or by a handler that threw before it got there, has none, and a drag of
    it runs no handler and leaves the page as it is.  The actions below
    therefore allow every drag the page allows, and some it does not. *)
Definition after {A} (m : M A) (w : World) : World := (m w).2.

Definition pointerDrag (target : nat) (now : Date)
    (dropZone : option ZoneRef) (w : World) : World :=
  match handleDragStart target w with
  | (Returns false, w1) =>
      after (handleDragEnd target) (after (dropEvent now dropZone) w1)
  | (_, w1) => w1
  end.

Definition touchDrag (target : nat) (now : Date)
    (dropZone : option ZoneRef) (w : World) : World :=
  after (handleTouchEnd now dropZone) (after (handleTouchStart target) w).

Inductive Action : Type :=
  | Drag (target : nat) (now : Date) (dropZone : option ZoneRef)
  | Touch (target : nat) (now : Date) (dropZone : option ZoneRef)
  | ClickReturn (zone row : nat)
  | ClickReturnAll (now : Date)
  | ClickClear (now : Date)
  | ClickStack (stackDiv : nat)
  | ClickExpandAll
  | AddTool (name category : string) (quantity : Quantity) (now : Date)
  | LoadSnapshot (snapshot : Snapshot).

(** [handleAddNewTool] of ui.js, after it has read the form. *)
Definition handleAddNewTool (name category : string) (quantity : Quantity)
    (now : Date) : M unit :=
  let! result := addTool name category quantity in
  match result with
  | Added _ => updateLastModifiedTime now
  | Rejected errors =>
      on_doc (announceToScreenReader (join_with ", " errors))
  end.

Definition step (w : World) (a : Action) : World :=
  match a with
  | Drag target now dropZone => pointerDrag target now dropZone w
  | Touch target now dropZone => touchDrag target now dropZone w
  | ClickReturn zone row => after (on_doc (handleReturnTool zone row)) w
  | ClickReturnAll now => after (returnAll now) w
  | ClickClear now => after (clearAll now) w
  | ClickStack stackDiv => after (toggleStack stackDiv) w
  | ClickExpandAll => after toggleExpandAll w
  | AddTool name category quantity now =>
      after (handleAddNewTool name category quantity now) w
  | LoadSnapshot snapshot => after (loadHistoryData snapshot) w
  end.

Definition run (actions : list Action) (w : World) : World :=
  fold_left step actions w.

(** *** Views and examples *)

(** What reads of the state observe: its contents and, behind the
    reference to the dragged element, the element. *)
Definition observe (w : World) : option (AppState.StateView * option Element) :=
  (fun v => (v, AppState.v_draggedElement v ≫= fun e => findElement e (doc w)))
    <$> AppState.contents (app w).

(** The reading of C8 for [getDraggedElement]: a change made to the
    element it returned is not seen by later reads. *)
Definition dragged_element_is_a_copy : Prop :=
  ∀ (w : World) (e : nat) (f : Element → Element),
    (on_app AppState.getDraggedElement w).1 = Returns (Some e) →
    observe (on_doc (updateElement e f) w).2 = observe w.

(** What holds of the page whatever was done on it: the state object is in
    place, and a crew or a checkout time is recorded only on elements marked
    as checked out. *)
Definition sound (w : World) : Prop :=
  AppState.wf (app w) ∧ tidy (doc w).

(** A property of the document alone. *)
Definition on_page (P : Doc → Prop) (w : World) : Prop := P (doc w).




(** The tool element [target], which was [e], is the last child of the
    pool at position [p]; it is the same tool instance, not tagged broken,
    and an item of no stack. *)
Definition moved_to_pool (p target : nat) (e : Element) (d : Doc) : Prop :=
  ∃ q e',
    pools d !! p = Some q
    ∧ last (children q) = Some (PTool e')
    ∧ findElement target d = Some e'
    ∧ ds_toolName e' = ds_toolName e
    ∧ ds_toolNumber e' = ds_toolNumber e
    ∧ contains "broken" (classList e') = false
    ∧ contains "checked-out" (classList e')
      = contains "checked-out" (classList e)
    ∧ closestStack target d = None.

(** The broken pool still lists the tools of [l], first and in that order,
    and no crew's zone holds a row. *)
Definition cleared_keeping (l : list (string * string)) (d : Doc) : Prop :=
  l `prefix_of` getBrokenToolsData d
  ∧ Forall (fun zone => zoneItems zone = []) (zones d).

(** The inventory the state holds. *)
Definition inventory (w : World) : option Inventory :=
  AppState.v_toolInventory <$> AppState.contents (app w).

(** A page with the ten pools, the crew container and the line for the
    update time, in a browser without [require].  This example fixes one
    answer, a [SyntaxError], for every selector text outside the fragment
    [selector_safe] describes.  That is what a browser answers when a name
    leaves the selector malformed, not when the name holds an escape that
    keeps it well formed, where [querySelector] answers with an element or
    with null; the examples built on this page use no such name, and what
    is proved of every document is proved for every answer. *)
Definition page : Doc :=
  {| pools := (fun id => {| poolId := id;
                            poolClasses := ["resource-items"];
                            children := [] |}) <$> poolIds;
     crewsContainer := Some [];
     liveRegion := None;
     updateTime := Some "Last Updated: Never";
     nextId := 0;
     hasRequire := false;
     cssOther := fun _ _ => Throws SyntaxError;
     cssOtherZone := fun _ => Throws SyntaxError |}.

Definition loaded : World :=
  {| doc := page; app := AppState.new_AppState; storage := Storage.fresh;
     touchItem := None |}.

(** The page once [init] has run. *)
Definition opened : World := (init loaded).2.

(** A small page: the crews and one stack of two drills, the first of them
    checked out to crew 1. *)
Definition two_drills : Doc :=
  (createToolStack {| name := "Drill"; qty := 2; class := "power-tool" |}
     "powerPool" (createCrewCards page).2).2.


(** The opened page once a second Claw Hammer, quantity 2, has been added
    through the form; and that page once the first item of the new stack,
    element 329, has been dragged onto the drop zone of crew 1 and the row
    it got in the crew card has been returned. *)
Definition second_claw_hammer : World :=
  run [AddTool "Claw Hammer" "hammers" (QText "2") Storage.nov_1] opened.

Definition namesake_returned : World :=
  run [Drag 329 Storage.nov_1 (Some (CrewZone 0)); ClickReturn 0 0]
    second_claw_hammer.


End Page.

(* ===================================================================== *)
(** * Properties                                                          *)
(* ===================================================================== *)

Module MonadFacts.
Import Js.

Section Preserves.
Context {S : Type} (P : S → Prop).

Lemma preserves_ret {A} (a : A) : preserves P (ret a).
Proof. by intros st. Qed.

Lemma preserves_throw {A} e : preserves P (throw (A := A) e).
Proof. by intros st. Qed.

Lemma preserves_get_state : preserves P get_state.
Proof. by intros st. Qed.

Lemma preserves_bind {A B} (m : M S A) (k : A → M S B) :
  preserves P m → (∀ a, preserves P (k a)) → preserves P (bind m k).
Proof.
  intros Hm Hk st HP. unfold bind. specialize (Hm st HP).
  destruct (m st) as [[a|e] st']; [by apply Hk|done].
Qed.

Lemma preserves_read {A} (k : S → M S A) :
  (∀ st, preserves P (k st)) → preserves P (bind get_state k).
Proof. intros Hk. apply preserves_bind; [apply preserves_get_state|done]. Qed.

Lemma preserves_try_catch {A} (m : M S A) (h : JSError → M S A) :
  preserves P m → (∀ e, preserves P (h e)) → preserves P (try_catch m h).
Proof.
  intros Hm Hh st HP. unfold try_catch. specialize (Hm st HP).
  destruct (m st) as [[a|e] st']; [done|by apply Hh].
Qed.

Lemma preserves_for_each {A} (l : list A) (body : A → M S unit) :
  (∀ x, preserves P (body x)) → preserves P (for_each l body).
Proof.
  intros Hb. induction l as [|x l IH]; cbn [for_each].
  - apply preserves_ret.
  - apply preserves_bind; [apply Hb|by intros _].
Qed.

End Preserves.

End MonadFacts.

Module DateFacts.
Import Js.

(** **** [toDateString] tells calendar days apart *)

Lemma append_inj_length (s1 s2 t1 t2 : string) :
  String.length s1 = String.length s2 →
  s1 +:+ t1 = s2 +:+ t2 → s1 = s2 ∧ t1 = t2.
Proof.
  revert s2. induction s1 as [|a s1 IH]; intros [|b s2] Hl H; try done.
  cbn in Hl, H. injection H as -> H. injection Hl as Hl.
  by destruct (IH s2 Hl H) as (-> & ->).
Qed.

Lemma day_name_length n : String.length (day_name n) = 3.
Proof. by do 7 (destruct n as [|n]; [done|]). Qed.

Lemma month_name_length n : String.length (month_name n) = 3.
Proof. by do 12 (destruct n as [|n]; [done|]). Qed.

Lemma month_name_inj n m :
  n < 12 → m < 12 → month_name n = month_name m → n = m.
Proof.
  intros Hn Hm.
  do 12 (destruct n as [|n];
         [do 12 (destruct m as [|m]; [by intros|]); lia|]).
  lia.
Qed.

Lemma pad2_length n : n ≤ 31 → String.length (pad2 n) = 2.
Proof.
  intros Hn. do 32 (destruct n as [|n]; [by vm_compute|]). lia.
Qed.

Lemma pad2_inj n m : n ≤ 31 → m ≤ 31 → pad2 n = pad2 m → n = m.
Proof.
  intros Hn Hm.
  do 32 (destruct n as [|n];
         [do 32 (destruct m as [|m];
                 [vm_compute; first [by intros|intros; discriminate]|]);
          lia|]).
  lia.
Qed.

Lemma pretty_N_go_length x s :
  String.length s ≤ String.length (pretty_N_go x s).
Proof.
  revert s. induction (N.lt_wf_0 x) as [x _ IH]; intros s.
  destruct (decide (x = 0%N)) as [->|Hx]; [by rewrite pretty_N_go_0|].
  rewrite pretty_N_go_step by lia.
  etrans; [|apply IH; apply N.div_lt; lia]. cbn. lia.
Qed.

Lemma pretty_length_4 y : 1000 ≤ y → 4 ≤ String.length (pretty y).
Proof.
  intros Hy. unfold pretty, pretty_nat, pretty, pretty_N.
  rewrite decide_False by lia.
  assert (1000 ≤ N.of_nat y)%N as H by lia. revert H.
  generalize (N.of_nat y). intros x Hx.
  assert (100 ≤ N.div x 10)%N by (apply N.div_le_lower_bound; lia).
  assert (10 ≤ N.div (N.div x 10) 10)%N
    by (apply N.div_le_lower_bound; lia).
  assert (1 ≤ N.div (N.div (N.div x 10) 10) 10)%N
    by (apply N.div_le_lower_bound; lia).
  do 4 rewrite pretty_N_go_step by lia.
  etrans; [|apply pretty_N_go_length]. cbn. lia.
Qed.

Lemma pad4_pretty y : 1000 ≤ y → pad4 y = pretty y.
Proof.
  intros Hy. pose proof (pretty_length_4 y Hy) as H. unfold pad4.
  destruct (String.length (pretty y)) as [|[|[|[|n]]]]; try lia. done.
Qed.

Lemma toDateString_inj d1 d2 :
  valid_date d1 → valid_date d2 →
  toDateString d1 = toDateString d2 → same_day d1 d2.
Proof.
  intros (Hy1 & Hm1 & _ & Hd1) (Hy2 & Hm2 & _ & Hd2). unfold toDateString.
  intros H.
  apply (append_inj_length (day_name _) (day_name _)) in H as (_ & H);
    [|by rewrite !day_name_length].
  apply (append_inj_length " " " ") in H as (_ & H); [|done].
  apply (append_inj_length (month_name _) (month_name _)) in H as (Hm & H);
    [|by rewrite !month_name_length].
  apply (append_inj_length " " " ") in H as (_ & H); [|done].
  apply (append_inj_length (pad2 _) (pad2 _)) in H as (Hd & H);
    [|by rewrite !pad2_length].
  apply (append_inj_length " " " ") in H as (_ & H); [|done].
  rewrite !pad4_pretty in H by done.
  split; [by apply (inj pretty)|].
  split; [by apply month_name_inj|by apply pad2_inj].
Qed.

End DateFacts.

Module AppStateFacts.
Import Js Config AppState.

(** **** Reading and allocating *)

Lemma readState_at r s app :
  heap app !! r = Some (CState s) → readState r app = (Returns s, app).
Proof. intros H. unfold readState. by rewrite H. Qed.

Lemma readInventory_at r inv app :
  heap app !! r = Some (CInventory inv) →
  readInventory r app = (Returns inv, app).
Proof. intros H. unfold readInventory. by rewrite H. Qed.

Lemma readSet_at r ex app :
  heap app !! r = Some (CSet ex) → readSet r app = (Returns ex, app).
Proof. intros H. unfold readSet. by rewrite H. Qed.

Lemma lookup_grown (h k : list Cell) r c :
  h !! r = Some c → (h ++ k) !! r = Some c.
Proof. apply lookup_app_l_Some. Qed.

Lemma lookup_new (h k : list Cell) i :
  (h ++ k) !! (length h + i) = k !! i.
Proof. by rewrite lookup_app_r, Nat.add_comm, Nat.add_sub by lia. Qed.

Lemma lookup_new0 (h k : list Cell) c : (h ++ c :: k) !! length h = Some c.
Proof. rewrite lookup_app_r by lia. by rewrite Nat.sub_diag. Qed.

(** **** Sets *)

Lemma new_Set_from acc l :
  NoDup (acc ++ l) → fold_left (fun a x => set_add x a) l acc = acc ++ l.
Proof.
  revert acc. induction l as [|x l IH]; intros acc H; simpl.
  - by rewrite app_nil_r.
  - assert (Hx : x ∉ acc).
    { apply NoDup_app in H as (_ & H & _). intros Hin.
      apply (H x Hin). by left. }
    unfold set_add at 2. rewrite bool_decide_eq_false_2 by done.
    rewrite IH; rewrite <- app_assoc; done.
Qed.

Lemma new_Set_id l : NoDup l → new_Set l = l.
Proof. intros H. unfold new_Set. by rewrite new_Set_from. Qed.

Lemma set_add_NoDup x l : NoDup l → NoDup (set_add x l).
Proof.
  intros H. unfold set_add. case_bool_decide as Hx; [done|].
  apply NoDup_app. repeat split; [done| |apply NoDup_singleton].
  intros y Hy ->%list_elem_of_singleton. done.
Qed.

Lemma new_Set_NoDup l : NoDup (new_Set l).
Proof.
  unfold new_Set. generalize (NoDup_nil_2 (A := string)).
  generalize (@nil string) as acc.
  induction l as [|x l IH]; intros acc H; simpl; [done|].
  apply IH. by apply set_add_NoDup.
Qed.

Lemma set_delete_NoDup x l : NoDup l → NoDup (set_delete x l).
Proof. intros H. unfold set_delete. by apply NoDup_filter. Qed.

(** **** getState *)

Lemma getState_spec app s inv ex :
  heap app !! state app = Some (CState s) →
  heap app !! toolInventory s = Some (CInventory inv) →
  heap app !! expandedStacks s = Some (CSet ex) →
  getState app
  = (Returns (length (heap app) + 2),
     with_heap app (heap app ++ copy_cells s inv ex (length (heap app)))).
Proof.
  intros Hs Hi He. unfold getState, bind, this_state.
  rewrite (readState_at _ s), (readInventory_at _ inv) by done.
  unfold deepClone, alloc. cbn [heap with_heap].
  rewrite (readSet_at _ ex) by (by apply lookup_grown).
  cbn [heap with_heap]. unfold with_heap, copy_cells. cbn [state listeners log].
  rewrite !length_app. cbn [length].
  rewrite <- !app_assoc. cbn [List.app].
  by replace (length (heap app) + 1 + 1) with (length (heap app) + 2) by lia.
Qed.

Lemma view_spec r app s inv ex :
  heap app !! r = Some (CState s) →
  heap app !! toolInventory s = Some (CInventory inv) →
  heap app !! expandedStacks s = Some (CSet ex) →
  view r app
  = (Returns {| v_toolInventory := inv; v_expandedStacks := ex;
                v_draggedElement := draggedElement s;
                v_lastUpdateTime := lastUpdateTime s |}, app).
Proof.
  intros Hs Hi He. unfold view, bind.
  by rewrite (readState_at _ s), (readInventory_at _ inv),
    (readSet_at _ ex) by done.
Qed.

Lemma contents_spec app s inv ex :
  heap app !! state app = Some (CState s) →
  heap app !! toolInventory s = Some (CInventory inv) →
  heap app !! expandedStacks s = Some (CSet ex) →
  contents app
  = Some {| v_toolInventory := inv; v_expandedStacks := ex;
            v_draggedElement := draggedElement s;
            v_lastUpdateTime := lastUpdateTime s |}.
Proof. intros. unfold contents. by rewrite (view_spec _ _ s inv ex). Qed.

Lemma wf_contents app : wf app → is_Some (contents app).
Proof.
  intros (s & inv & ex & Hs & Hi & He & _).
  rewrite (contents_spec app s inv ex) by done. by eexists.
Qed.

(** **** notifyListeners *)

(** One listener: it gets a copy of the state, and a throw is printed. *)
Lemma notify_one (l : Listener) app s inv ex :
  heap app !! state app = Some (CState s) →
  heap app !! toolInventory s = Some (CInventory inv) →
  heap app !! expandedStacks s = Some (CSet ex) →
  NoDup ex →
  let v := {| v_toolInventory := inv; v_expandedStacks := ex;
              v_draggedElement := draggedElement s;
              v_lastUpdateTime := lastUpdateTime s |} in
  try_catch
    (let! copy := getState in
     let! v := view copy in
     do! emit (Called (listener_id l) v) in
     fun app' => (listener_run l v, app'))
    (fun error => emit (ConsoleError "Error in state listener:" error)) app
  = (Returns tt,
     with_log
       (with_heap app (heap app ++ copy_cells s inv ex (length (heap app))))
       (log app ++ notified v [l])).
Proof.
  intros Hs Hi He Hnd v. unfold try_catch, bind.
  rewrite (getState_spec app s inv ex) by done.
  set (app1 := with_heap app _).
  rewrite (view_spec _ app1
             {| toolInventory := length (heap app);
                expandedStacks := length (heap app) + 1;
                draggedElement := draggedElement s;
                lastUpdateTime := lastUpdateTime s |} inv (new_Set ex)).
  - rewrite new_Set_id by done.
    cbn [draggedElement lastUpdateTime]. fold v. unfold emit, notified.
    cbn [fmap list_fmap concat]. rewrite app_nil_r.
    destruct (listener_run l v) as [[]|e]; unfold with_log; cbn.
    + done.
    + by rewrite <- app_assoc.
  - unfold app1, copy_cells. cbn [heap with_heap].
    by rewrite (lookup_new _ _ 2).
  - unfold app1, copy_cells. cbn [heap with_heap toolInventory].
    apply lookup_new0.
  - unfold app1, copy_cells. cbn [heap with_heap expandedStacks].
    by rewrite lookup_new.
Qed.

Lemma notified_cons v l ls : notified v (l :: ls) = notified v [l] ++ notified v ls.
Proof. unfold notified. cbn [fmap list_fmap concat]. by rewrite app_nil_r. Qed.

Lemma for_each_listeners ls app s inv ex :
  heap app !! state app = Some (CState s) →
  heap app !! toolInventory s = Some (CInventory inv) →
  heap app !! expandedStacks s = Some (CSet ex) →
  NoDup ex →
  let v := {| v_toolInventory := inv; v_expandedStacks := ex;
              v_draggedElement := draggedElement s;
              v_lastUpdateTime := lastUpdateTime s |} in
  ∃ k,
    for_each ls (fun listener =>
      try_catch
        (let! copy := getState in
         let! v := view copy in
         do! emit (Called (listener_id listener) v) in
         fun app' => (listener_run listener v, app'))
        (fun error => emit (ConsoleError "Error in state listener:" error)))
      app
    = (Returns tt,
       with_log (with_heap app (heap app ++ k)) (log app ++ notified v ls)).
Proof.
  intros Hs Hi He Hnd v. revert app Hs Hi He.
  induction ls as [|l ls IH]; intros app Hs Hi He.
  - exists []. cbn [for_each]. unfold ret, notified. cbn.
    rewrite !app_nil_r. by destruct app.
  - cbn [for_each]. unfold bind at 1.
    rewrite (notify_one l app s inv ex) by done. fold v.
    set (app1 := with_log _ _).
    destruct (IH app1) as (k & ->); [by apply lookup_grown..|].
    exists (copy_cells s inv ex (length (heap app)) ++ k).
    rewrite (notified_cons v l ls).
    unfold app1, with_log, with_heap. cbn [heap state listeners log].
    by rewrite <- !app_assoc.
Qed.

Lemma notifyListeners_spec app s inv ex :
  heap app !! state app = Some (CState s) →
  heap app !! toolInventory s = Some (CInventory inv) →
  heap app !! expandedStacks s = Some (CSet ex) →
  NoDup ex →
  let v := {| v_toolInventory := inv; v_expandedStacks := ex;
              v_draggedElement := draggedElement s;
              v_lastUpdateTime := lastUpdateTime s |} in
  ∃ k,
    notifyListeners app
    = (Returns tt,
       with_log (with_heap app (heap app ++ k))
         (log app ++ notified v (listeners app))).
Proof.
  intros. unfold notifyListeners, bind, get_state.
  by apply (for_each_listeners (listeners app) app s inv ex).
Qed.

(** A state object put at the end of a grown heap, then the notification. *)
Lemma install_spec app (s' : StateObj) inv ex (h' : list Cell) :
  heap app `prefix_of` h' →
  h' !! toolInventory s' = Some (CInventory inv) →
  h' !! expandedStacks s' = Some (CSet ex) →
  NoDup ex →
  let app1 := with_state (with_heap app (h' ++ [CState s'])) (length h') in
  ∃ app', notifyListeners app1 = (Returns tt, app')
    ∧ written app app'
        {| v_toolInventory := inv; v_expandedStacks := ex;
           v_draggedElement := draggedElement s';
           v_lastUpdateTime := lastUpdateTime s' |}.
Proof.
  intros Hpre Hi He Hnd app1.
  assert (Hs1 : heap app1 !! state app1 = Some (CState s')).
  { unfold app1. cbn [heap state with_state with_heap]. apply lookup_new0. }
  assert (Hi1 : heap app1 !! toolInventory s' = Some (CInventory inv)).
  { unfold app1. cbn [heap state with_state with_heap]. by apply lookup_grown. }
  assert (He1 : heap app1 !! expandedStacks s' = Some (CSet ex)).
  { unfold app1. cbn [heap state with_state with_heap]. by apply lookup_grown. }
  destruct (notifyListeners_spec app1 s' inv ex) as (k & ->); [done..|].
  eexists; split; [done|].
  unfold written. cbn [heap state listeners log with_log with_heap].
  split; [|split; [|split; [|split]]].
  - exists s', inv, ex. cbn [heap state with_log with_heap].
    repeat split; [by apply lookup_grown..|done].
  - apply (contents_spec _ s' inv ex);
      cbn [heap state with_log with_heap]; by apply lookup_grown.
  - done.
  - done.
  - unfold app1. cbn [heap with_state with_heap].
    etrans; [exact Hpre|]. rewrite <- app_assoc. by apply prefix_app_r.
Qed.

Lemma setState_spec app s u inv ex :
  heap app !! state app = Some (CState s) →
  heap app !! toolInventory (merge s u) = Some (CInventory inv) →
  heap app !! expandedStacks (merge s u) = Some (CSet ex) →
  NoDup ex →
  ∃ app', setState u app = (Returns tt, app')
    ∧ written app app'
        {| v_toolInventory := inv; v_expandedStacks := ex;
           v_draggedElement := draggedElement (merge s u);
           v_lastUpdateTime := lastUpdateTime (merge s u) |}.
Proof.
  intros Hs Hi He Hnd. unfold setState, bind, this_state.
  rewrite (readState_at _ s) by done. unfold alloc.
  by apply (install_spec app (merge s u) inv ex (heap app)).
Qed.

(** A write that first allocates: seen from the heap before. *)
Lemma written_grown app k app' v :
  written (with_heap app (heap app ++ k)) app' v → written app app' v.
Proof.
  intros (? & ? & ? & ? & Hp). repeat split; try done.
  etrans; [|exact Hp]. by apply prefix_app_r.
Qed.

Lemma insert_last (h : list Cell) c c' :
  <[length h := c']> (h ++ [c]) = h ++ [c'].
Proof.
  rewrite insert_app_r_alt by lia. by rewrite Nat.sub_diag.
Qed.

Lemma wf_view app v :
  wf app → contents app = Some v →
  ∃ s, heap app !! state app = Some (CState s)
       ∧ heap app !! toolInventory s = Some (CInventory (v_toolInventory v))
       ∧ heap app !! expandedStacks s = Some (CSet (v_expandedStacks v))
       ∧ NoDup (v_expandedStacks v)
       ∧ draggedElement s = v_draggedElement v
       ∧ lastUpdateTime s = v_lastUpdateTime v.
Proof.
  intros (s & inv & ex & Hs & Hi & He & Hnd) Hc.
  rewrite (contents_spec app s inv ex) in Hc by done.
  injection Hc as <-. by exists s.
Qed.

(** **** Pushing a tool *)

Lemma push_tool_returns category tool inv :
  is_Some (tools_of category inv) ∨ inherited_member category = false →
  ∃ grown, push_tool category tool inv = Returns grown.
Proof.
  induction inv as [|[c tools] rest IH]; cbn [push_tool tools_of].
  - intros [[? [=]]| ->]. by eexists.
  - case_bool_decide; [by eexists|]. intros Hc.
    destruct (IH Hc) as (grown & ->). by eexists.
Qed.

Lemma push_tool_throws category tool inv :
  tools_of category inv = None → inherited_member category = true →
  push_tool category tool inv = Throws TypeError.
Proof.
  intros Hn Hi. induction inv as [|[c tools] rest IH];
    cbn [push_tool tools_of] in *; [by rewrite Hi|].
  case_bool_decide; [done|]. by rewrite IH.
Qed.


Lemma perform_spec w app v :
  wf app → contents app = Some v → valid w app →
  ∃ app', perform w app = (Returns tt, app')
          ∧ written app app' (effect w app v).
Proof.
  intros Hwf Hc Hv.
  destruct (wf_view app v Hwf Hc) as (s & Hs & Hi & He & Hnd & Hd & Hl).
  destruct w; cbn [perform effect].
  - (* setState *)
    destruct Hv as (Hvi & Hve).
    assert (∃ inv, heap app !! toolInventory (merge s updates)
                   = Some (CInventory inv)
                   ∧ match u_toolInventory updates ≫= fun r => heap app !! r
                     with
                     | Some (CInventory inv) => inv
                     | _ => v_toolInventory v
                     end = inv) as (inv & Hi' & ->).
    { unfold merge. cbn [toolInventory].
      destruct (u_toolInventory updates) as [r|]; cbn.
      - destruct (Hvi r eq_refl) as (inv & Hr). exists inv. by rewrite Hr.
      - by exists (v_toolInventory v). }
    assert (∃ ex, heap app !! expandedStacks (merge s updates)
                  = Some (CSet ex) ∧ NoDup ex
                  ∧ match u_expandedStacks updates ≫= fun r => heap app !! r
                    with
                    | Some (CSet ex) => ex
                    | _ => v_expandedStacks v
                    end = ex) as (ex & He' & Hnd' & ->).
    { unfold merge. cbn [expandedStacks].
      destruct (u_expandedStacks updates) as [r|]; cbn.
      - destruct (Hve r eq_refl) as (ex & Hr & ?). exists ex. by rewrite Hr.
      - by exists (v_expandedStacks v). }
    destruct (setState_spec app s updates inv ex) as (app' & E & Hw);
      [done..|].
    exists app'. split; [exact E|].
    unfold merge in Hw. cbn [draggedElement lastUpdateTime] in Hw.
    by rewrite Hd, Hl in Hw.
  - (* setInventory *)
    unfold setInventory, bind, deepClone, alloc.
    set (app1 := with_heap app _).
    destruct (setState_spec app1 s
                {| u_toolInventory := Some (length (heap app));
                   u_expandedStacks := None; u_draggedElement := None;
                   u_lastUpdateTime := None |} inventory (v_expandedStacks v))
      as (app' & E & Hw).
    + by apply lookup_grown.
    + apply lookup_new0.
    + by apply lookup_grown.
    + done.
    + exists app'. split; [exact E|]. cbn in Hw. rewrite Hd, Hl in Hw.
      by apply written_grown in Hw.
  - (* addTool *)
    destruct (push_tool_returns category tool (v_toolInventory v))
      as (grown & Hg); [by apply (Hv s)|].
    unfold addTool, bind, this_state.
    rewrite (readState_at _ s), (readInventory_at _ (v_toolInventory v))
      by done.
    unfold deepClone, alloc. rewrite Hg. unfold write. cbn [heap with_heap].
    rewrite insert_last.
    rewrite (readInventory_at _ grown) by apply lookup_new0.
    unfold setInventory, bind, deepClone, alloc. cbn [heap with_heap].
    set (h1 := heap app ++ [CInventory grown]).
    set (app1 := with_heap _ (h1 ++ _)).
    destruct (setState_spec app1 s
                {| u_toolInventory := Some (length h1);
                   u_expandedStacks := None; u_draggedElement := None;
                   u_lastUpdateTime := None |}
                grown (v_expandedStacks v))
      as (app' & E & Hw).
    + unfold app1, h1. cbn [heap state with_heap]. by do 2 apply lookup_grown.
    + apply lookup_new0.
    + unfold app1, h1. cbn [heap state with_heap]. by do 2 apply lookup_grown.
    + done.
    + exists app'. split; [exact E|]. cbn in Hw. rewrite Hd, Hl in Hw.
      unfold app1, h1 in Hw. cbn [heap with_heap] in Hw.
      rewrite <- app_assoc in Hw.
      change (with_heap (with_heap (with_heap app ?a) ?b) ?c)
        with (with_heap app c) in Hw.
      by apply written_grown in Hw.
  - (* toggleStack *)
    unfold toggleStack, bind, this_state.
    rewrite (readState_at _ s), (readSet_at _ (v_expandedStacks v)) by done.
    unfold alloc, write. cbn [heap with_heap]. rewrite insert_last.
    rewrite new_Set_id by done.
    set (ex' := if bool_decide _ then _ else _).
    set (app1 := with_heap _ _).
    destruct (setState_spec app1 s
                {| u_toolInventory := None;
                   u_expandedStacks := Some (length (heap app));
                   u_draggedElement := None; u_lastUpdateTime := None |}
                (v_toolInventory v) ex')
      as (app' & E & Hw).
    + by apply lookup_grown.
    + by apply lookup_grown.
    + apply lookup_new0.
    + unfold ex'. case_bool_decide;
        [by apply set_delete_NoDup|by apply set_add_NoDup].
    + exists app'. split; [exact E|]. cbn in Hw. rewrite Hd, Hl in Hw.
      unfold app1 in Hw.
      change (with_heap (with_heap ?a ?b) ?c) with (with_heap a c) in Hw.
      by apply written_grown in Hw.
  - (* expandAllStacks *)
    unfold expandAllStacks, bind, alloc.
    set (app1 := with_heap app _).
    destruct (setState_spec app1 s
                {| u_toolInventory := None;
                   u_expandedStacks := Some (length (heap app));
                   u_draggedElement := None; u_lastUpdateTime := None |}
                (v_toolInventory v) (new_Set toolNames))
      as (app' & E & Hw).
    + by apply lookup_grown.
    + by apply lookup_grown.
    + apply lookup_new0.
    + apply new_Set_NoDup.
    + exists app'. split; [exact E|]. cbn in Hw. rewrite Hd, Hl in Hw.
      by apply written_grown in Hw.
  - (* collapseAllStacks *)
    unfold collapseAllStacks, bind, alloc.
    set (app1 := with_heap app _).
    destruct (setState_spec app1 s
                {| u_toolInventory := None;
                   u_expandedStacks := Some (length (heap app));
                   u_draggedElement := None; u_lastUpdateTime := None |}
                (v_toolInventory v) [])
      as (app' & E & Hw).
    + by apply lookup_grown.
    + by apply lookup_grown.
    + apply lookup_new0.
    + constructor.
    + exists app'. split; [exact E|]. cbn in Hw. rewrite Hd, Hl in Hw.
      by apply written_grown in Hw.
  - (* setDraggedElement *)
    destruct (setState_spec app s
                {| u_toolInventory := None; u_expandedStacks := None;
                   u_draggedElement := Some element;
                   u_lastUpdateTime := None |}
                (v_toolInventory v) (v_expandedStacks v))
      as (app' & E & Hw); [done..|].
    exists app'. split; [done|]. cbn in Hw. by rewrite Hl in Hw.
  - (* clearDraggedElement *)
    destruct (setState_spec app s
                {| u_toolInventory := None; u_expandedStacks := None;
                   u_draggedElement := Some None;
                   u_lastUpdateTime := None |}
                (v_toolInventory v) (v_expandedStacks v))
      as (app' & E & Hw); [done..|].
    exists app'. split; [done|]. cbn in Hw. by rewrite Hl in Hw.
  - (* setLastUpdateTime *)
    destruct (setState_spec app s
                {| u_toolInventory := None; u_expandedStacks := None;
                   u_draggedElement := None;
                   u_lastUpdateTime := Some time |}
                (v_toolInventory v) (v_expandedStacks v))
      as (app' & E & Hw); [done..|].
    exists app'. split; [done|]. cbn in Hw. by rewrite Hd in Hw.
  - (* reset *)
    unfold reset, bind, deepClone, alloc. cbn [heap with_heap].
    set (h2 := (heap app ++ _) ++ _).
    destruct (install_spec app
                {| toolInventory := length (heap app);
                   expandedStacks := length (heap app ++
                                        [CInventory DEFAULT_TOOL_INVENTORY]);
                   draggedElement := None; lastUpdateTime := None |}
                DEFAULT_TOOL_INVENTORY [] h2)
      as (app' & E & Hw).
    + unfold h2. rewrite <- app_assoc. by apply prefix_app_r.
    + unfold h2. cbn [toolInventory]. apply lookup_grown, lookup_new0.
    + unfold h2. cbn [expandedStacks]. apply lookup_new0.
    + constructor.
    + exists app'. split; [exact E|exact Hw].
Qed.

(** **** Copies *)

Lemma mutate_new changes app k :
  only_new app changes →
  ∃ k', length k' = length k
        ∧ mutate changes (with_heap app (heap app ++ k))
          = with_heap app (heap app ++ k').
Proof.
  revert k. induction changes as [|[r c] changes IH]; intros k Hnew.
  - by exists k.
  - cbn [mutate fold_left]. unfold write at 2. cbn [fst snd heap with_heap].
    rewrite insert_app_r_alt by (apply (Hnew (r, c)); by left).
    change (with_heap (with_heap app ?a) ?b) with (with_heap app b).
    destruct (IH (<[r - length (heap app) := c]> k)) as (k' & Hlen & E).
    { intros rc Hrc. apply Hnew. by right. }
    exists k'. split; [by rewrite Hlen, length_insert|exact E].
Qed.

Lemma contents_grown app k v :
  wf app → contents app = Some v →
  contents (with_heap app (heap app ++ k)) = Some v.
Proof.
  intros Hwf Hc.
  destruct (wf_view app v Hwf Hc) as (s & Hs & Hi & He & Hnd & Hd & Hl).
  rewrite (contents_spec _ s (v_toolInventory v) (v_expandedStacks v));
    cbn [heap state with_heap]; try by apply lookup_grown.
  rewrite Hd, Hl. by destruct v.
Qed.

Lemma contents_mutate_new changes app k v :
  wf app → contents app = Some v → only_new app changes →
  contents (mutate changes (with_heap app (heap app ++ k))) = Some v.
Proof.
  intros Hwf Hc Hnew.
  destruct (mutate_new changes app k Hnew) as (k' & _ & ->).
  by apply contents_grown.
Qed.

(** **** Notification *)

(** **** A tool that cannot be added *)

Lemma addTool_throws category tool app v :
  wf app → contents app = Some v →
  tools_of category (v_toolInventory v) = None →
  inherited_member category = true →
  ∃ app', addTool category tool app = (Throws TypeError, app')
          ∧ wf app' ∧ contents app' = Some v
          ∧ listeners app' = listeners app ∧ log app' = log app
          ∧ state app' = state app
          ∧ heap app `prefix_of` heap app'.
Proof.
  intros Hwf Hc Hn Hi.
  destruct (wf_view app v Hwf Hc) as (s & Hs & Hinv & He & Hnd & Hd & Hl).
  unfold addTool, bind, this_state.
  rewrite (readState_at _ s), (readInventory_at _ (v_toolInventory v))
    by done.
  unfold deepClone, alloc. rewrite (push_tool_throws _ _ _ Hn Hi).
  eexists. split; [reflexivity|]. split.
  { exists s, (v_toolInventory v), (v_expandedStacks v).
    cbn [heap state with_heap]. repeat split; try done;
      by apply lookup_grown. }
  split; [by apply contents_grown|]. repeat split; try done.
  by apply prefix_app_r.
Qed.

Lemma valid_addTool category tool app v :
  wf app → contents app = Some v →
  is_Some (tools_of category (v_toolInventory v))
  ∨ inherited_member category = false →
  valid (WAddTool category tool) app.
Proof.
  intros Hwf Hc H s inv Hs Hinv.
  destruct (wf_view app v Hwf Hc) as (s' & Hs' & Hinv' & _).
  rewrite Hs in Hs'. injection Hs' as <-.
  rewrite Hinv in Hinv'. by injection Hinv' as ->.
Qed.

Lemma wf_addTool category tool : preserves wf (addTool category tool).
Proof.
  intros app Hwf. destruct (wf_contents app Hwf) as (v & Hc).
  destruct (tools_of category (v_toolInventory v)) as [tools|] eqn:Ht;
    [|destruct (inherited_member category) eqn:Hi].
  - destruct (perform_spec (WAddTool category tool) app v Hwf Hc)
      as (app' & E & Hwf' & _).
    { apply (valid_addTool _ _ _ v); try done. left. by rewrite Ht. }
    cbn [perform] in E. by rewrite E.
  - destruct (addTool_throws category tool app v Hwf Hc Ht Hi)
      as (app' & -> & Hwf' & _). exact Hwf'.
  - destruct (perform_spec (WAddTool category tool) app v Hwf Hc)
      as (app' & E & Hwf' & _).
    { apply (valid_addTool _ _ _ v); try done. by right. }
    cbn [perform] in E. by rewrite E.
Qed.

Lemma called_notified v ls : called (notified v ls) = listener_id <$> ls.
Proof.
  induction ls as [|l ls IH]; [done|].
  rewrite notified_cons. unfold called in *. rewrite omap_app, IH.
  unfold notified. cbn [fmap list_fmap concat]. rewrite app_nil_r.
  by destruct (listener_run l v).
Qed.

Lemma thrown_notified v ls l e :
  l ∈ ls → listener_run l v = Throws e →
  ConsoleError "Error in state listener:" e ∈ notified v ls.
Proof.
  intros Hin Hrun. induction ls as [|l' ls IH].
  - by apply elem_of_nil in Hin.
  - rewrite notified_cons. apply elem_of_app.
    apply elem_of_cons in Hin as [<-|Hin].
    + left. unfold notified. cbn [fmap list_fmap concat].
      rewrite Hrun. cbn. right. by left.
    + right. by apply IH.
Qed.

Lemma wf_observed : wf observed.
Proof.
  exists {| toolInventory := 0; expandedStacks := 1;
            draggedElement := None; lastUpdateTime := None |},
    DEFAULT_TOOL_INVENTORY, []. repeat split. constructor.
Qed.

(** C9.  Every write of the state that the code carries out (setState
    with an update object whose references are in the heap, and each
    operation built on it; for addTool, a category the inventory has or
    whose name is not inherited from [Object.prototype]) returns normally,
    and before it returns every registered listener has been called once
    with the new state, in the order of registration: the calls are the
    only thing the write adds to the log besides the errors it prints.  A
    listener that throws has its exception printed with console.error, and
    the listeners after it are called all the same.  subscribe puts a new
    listener last and leaves a known one in place.  The one call that
    writes nothing is addTool for a category the inventory lacks and whose
    name every object inherits (constructor, toString, ...): it throws a
    TypeError before setInventory, the state holds what it held and no
    listener is called. *)
Theorem writes_notify_in_order (w : Write) (app : App) (v : StateView) :
  wf app → contents app = Some v →
  (valid w app →
   ∃ app', perform w app = (Returns tt, app')
     ∧ contents app' = Some (effect w app v)
     ∧ listeners app' = listeners app
     ∧ log app' = log app ++ notified (effect w app v) (listeners app)
     ∧ called (notified (effect w app v) (listeners app))
       = listener_id <$> listeners app
     ∧ (∀ l e, l ∈ listeners app →
          listener_run l (effect w app v) = Throws e →
          ConsoleError "Error in state listener:" e
          ∈ notified (effect w app v) (listeners app))
     ∧ (∀ l, listeners (subscribe l app).2
             = if existsb (fun l' => Nat.eqb (listener_id l') (listener_id l))
                    (listeners app)
               then listeners app else listeners app ++ [l]))
  ∧ (∀ category tool,
       w = WAddTool category tool →
       tools_of category (v_toolInventory v) = None →
       inherited_member category = true →
       ∃ app', perform w app = (Throws TypeError, app')
         ∧ contents app' = Some v
         ∧ listeners app' = listeners app
         ∧ log app' = log app)
  ∧ ((∀ u, w ≠ WSetState u) →
     valid w app
     ∨ ∃ category tool,
         w = WAddTool category tool
         ∧ tools_of category (v_toolInventory v) = None
         ∧ inherited_member category = true).
Proof.
  intros Hwf Hc. split; [|split].
  - intros Hv.
    destruct (perform_spec w app v Hwf Hc Hv)
      as (app' & E & _ & Hc' & Hl' & Hlog & _).
    exists app'. repeat split; try done.
    + apply called_notified.
    + intros l e. apply thrown_notified.
    + intros l. unfold subscribe. cbn [snd]. by destruct (existsb _ _).
  - intros category tool -> Hn Hi. cbn [perform].
    destruct (addTool_throws category tool app v Hwf Hc Hn Hi)
      as (app' & E & _ & Hc' & Hl' & Hlog & _).
    by exists app'.
  - intros Hset. destruct w; try (by left); [by destruct (Hset updates)|].
    destruct (tools_of category (v_toolInventory v)) as [tools|] eqn:Ht;
      [|destruct (inherited_member category) eqn:Hi].
    + left. apply (valid_addTool _ _ _ v); try done. left. by rewrite Ht.
    + right. by exists category, tool.
    + left. apply (valid_addTool _ _ _ v); try done. by right.
Qed.

Lemma writes_notify_in_order_witness :
  ∃ app', setLastUpdateTime (Some "07:30") observed = (Returns tt, app')
    ∧ called (skipn (length (log observed)) (log app')) = [1; 2; 3]
    ∧ ConsoleError "Error in state listener:" (UserError "render failed")
      ∈ log app'.
Proof.
  destruct (proj1 (writes_notify_in_order
                     (WSetLastUpdateTime (Some "07:30")) observed
                     {| v_toolInventory := DEFAULT_TOOL_INVENTORY;
                        v_expandedStacks := [];
                        v_draggedElement := None;
                        v_lastUpdateTime := None |} wf_observed eq_refl) I)
    as (app' & E & _ & _ & Hlog & Hcalled & Hthrown & _).
  exists app'. split; [exact E|]. rewrite Hlog. split.
  - exact Hcalled.
  - apply elem_of_app. right. apply (Hthrown (faulty 2)).
    + right. left.
    + reflexivity.
Defined.

(** C8, as the code has it.  getInventory and getExpandedStacks return a
    new object with the contents of the one in the state, and getState a
    new state object with a new inventory and a new set: whatever is done
    to the objects a read created, the state holds what it held.
    getDraggedElement creates nothing: it returns the reference the state
    holds, and the object getState returns carries that same reference. *)
Theorem reads_copy_all_but_the_dragged_element (app : App) (v : StateView) :
  wf app → contents app = Some v →
  (∃ r app1, getInventory app = (Returns r, app1)
     ∧ heap app1 !! r = Some (CInventory (v_toolInventory v))
     ∧ heap app !! r = None
     ∧ ∀ changes, only_new app changes →
         contents (mutate changes app1) = Some v)
  ∧ (∃ r app1, getExpandedStacks app = (Returns r, app1)
       ∧ heap app1 !! r = Some (CSet (v_expandedStacks v))
       ∧ heap app !! r = None
       ∧ ∀ changes, only_new app changes →
           contents (mutate changes app1) = Some v)
  ∧ (∃ r app1 copy, getState app = (Returns r, app1)
       ∧ heap app1 !! r = Some (CState copy)
       ∧ heap app1 !! toolInventory copy
         = Some (CInventory (v_toolInventory v))
       ∧ heap app1 !! expandedStacks copy
         = Some (CSet (v_expandedStacks v))
       ∧ heap app !! r = None
       ∧ heap app !! toolInventory copy = None
       ∧ heap app !! expandedStacks copy = None
       ∧ draggedElement copy = v_draggedElement v
       ∧ lastUpdateTime copy = v_lastUpdateTime v
       ∧ ∀ changes, only_new app changes →
           contents (mutate changes app1) = Some v)
  ∧ getDraggedElement app = (Returns (v_draggedElement v), app)
  ∧ getLastUpdateTime app = (Returns (v_lastUpdateTime v), app).
Proof.
  intros Hwf Hc.
  destruct (wf_view app v Hwf Hc) as (s & Hs & Hi & He & Hnd & Hd & Hl).
  assert (Hout : ∀ n, heap app !! (length (heap app) + n) = None).
  { intros n. apply lookup_ge_None. lia. }
  split; [|split; [|split; [|split]]].
  - exists (length (heap app)),
      (with_heap app (heap app ++ [CInventory (v_toolInventory v)])).
    split; [|split; [|split]].
    + unfold getInventory, bind, this_state.
      by rewrite (readState_at _ s), (readInventory_at _ (v_toolInventory v)).
    + apply lookup_new0.
    + specialize (Hout 0). by rewrite Nat.add_0_r in Hout.
    + intros changes Hnew. by apply contents_mutate_new.
  - exists (length (heap app)),
      (with_heap app (heap app ++ [CSet (v_expandedStacks v)])).
    split; [|split; [|split]].
    + unfold getExpandedStacks, bind, this_state.
      rewrite (readState_at _ s), (readSet_at _ (v_expandedStacks v)) by done.
      by rewrite new_Set_id.
    + apply lookup_new0.
    + specialize (Hout 0). by rewrite Nat.add_0_r in Hout.
    + intros changes Hnew. by apply contents_mutate_new.
  - eexists (length (heap app) + 2), _,
      {| toolInventory := length (heap app);
         expandedStacks := length (heap app) + 1;
         draggedElement := draggedElement s;
         lastUpdateTime := lastUpdateTime s |}.
    split; [by apply (getState_spec app s (v_toolInventory v)
                        (v_expandedStacks v))|].
    unfold copy_cells. cbn [heap with_heap toolInventory expandedStacks
                              draggedElement lastUpdateTime].
    rewrite new_Set_id by done.
    repeat split; try done.
    + by rewrite (lookup_new _ _ 2).
    + apply lookup_new0.
    + by rewrite (lookup_new _ _ 1).
    + specialize (Hout 0). by rewrite Nat.add_0_r in Hout.
    + intros changes Hnew. by apply contents_mutate_new.
  - unfold getDraggedElement, bind, this_state.
    by rewrite (readState_at _ s), Hd.
  - unfold getLastUpdateTime, bind, this_state.
    by rewrite (readState_at _ s), Hl.
Qed.

Lemma reads_copy_all_but_the_dragged_element_witness :
  ∃ r app1, getInventory observed = (Returns r, app1)
    ∧ heap app1 !! r = Some (CInventory DEFAULT_TOOL_INVENTORY)
    ∧ heap observed !! r = None
    ∧ ∀ changes, only_new observed changes →
        contents (mutate changes app1)
        = Some {| v_toolInventory := DEFAULT_TOOL_INVENTORY;
                  v_expandedStacks := [];
                  v_draggedElement := None;
                  v_lastUpdateTime := None |}.
Proof.
  exact (proj1 (reads_copy_all_but_the_dragged_element observed
                  {| v_toolInventory := DEFAULT_TOOL_INVENTORY;
                     v_expandedStacks := [];
                     v_draggedElement := None;
                     v_lastUpdateTime := None |} wf_observed eq_refl)).
Defined.

End AppStateFacts.

Module DomFacts.
Import Js Config Dom MonadFacts.

(** **** The elements of a changed document *)

Lemma elements_pools d d' : pools d' = pools d → elements d' = elements d.
Proof. unfold elements. by intros ->. Qed.

Lemma child_elements_map f g c :
  (∀ s, items (g s) = items s) →
  child_elements (map_child f g c) = f <$> child_elements c.
Proof. intros Hg. destruct c as [e|s]; cbn; [done|]. by rewrite Hg. Qed.

Lemma concat_fmap_fmap {A B C} (h : A → list B) (k : A → list C)
    (f : B → C) (l : list A) :
  (∀ x, k x = f <$> h x) → concat (k <$> l) = f <$> concat (h <$> l).
Proof.
  intros H. induction l as [|x l IH]; cbn; [done|].
  by rewrite fmap_app, H, IH.
Qed.

Lemma elements_map_doc f g d :
  (∀ s, items (g s) = items s) →
  elements (map_doc f g d) = f <$> elements d.
Proof.
  intros Hg. unfold elements, map_doc. cbn [pools with_pools].
  rewrite <- list_fmap_compose.
  apply concat_fmap_fmap. intros p. unfold pool_elements, compose.
  cbn [children set_children]. rewrite <- list_fmap_compose.
  apply concat_fmap_fmap. intros c. by apply child_elements_map.
Qed.

Lemma concat_fmap_filter {A B} (h k : A → list B) (Q : B → Prop)
    `{!∀ x, Decision (Q x)} (l : list A) :
  (∀ x, k x = filter Q (h x)) →
  concat (k <$> l) = filter Q (concat (h <$> l)).
Proof.
  intros Hk. induction l as [|x l IH]; cbn; [done|].
  by rewrite filter_app, Hk, IH.
Qed.

Lemma elements_detach t d :
  elements (detach t d)
  = filter (fun e => Nat.eqb (eid e) t = false) (elements d).
Proof.
  unfold elements, detach. cbn [pools with_pools].
  rewrite <- list_fmap_compose.
  apply concat_fmap_filter. intros p. unfold pool_elements, compose.
  cbn [children set_children].
  induction (children p) as [|c cs IH]; cbn; [done|].
  rewrite filter_app, <- IH. rewrite fmap_app, concat_app. f_equal.
  destruct c as [e|s]; cbn.
  - destruct (Nat.eqb (eid e) t) eqn:E; cbn.
    + by rewrite decide_False.
    + by rewrite decide_True.
  - by rewrite app_nil_r.
Qed.

Lemma pool_elements_snoc q c :
  pool_elements (set_children (children q ++ [c]) q)
  = pool_elements q ++ child_elements c.
Proof.
  unfold pool_elements. cbn [children set_children].
  rewrite fmap_app, concat_app. cbn. by rewrite app_nil_r.
Qed.

Lemma elements_append_to_first id e ps :
  (∃ p, p ∈ ps ∧ poolId p = id) →
  concat (pool_elements <$> append_to_first id e ps)
  ≡ₚ concat (pool_elements <$> ps) ++ [e].
Proof.
  intros (p & Hin & Hid). induction ps as [|q ps IH].
  - by apply elem_of_nil in Hin.
  - cbn [append_to_first]. case_bool_decide as Hq.
    + cbn [fmap list_fmap concat]. rewrite pool_elements_snoc.
      cbn [child_elements]. rewrite <- !app_assoc.
      apply Permutation_app_head. apply Permutation_app_comm.
    + cbn [fmap list_fmap concat]. rewrite <- app_assoc.
      apply Permutation_app_head. apply IH.
      apply elem_of_cons in Hin as [->|Hin]; [done|exact Hin].
Qed.

Lemma elements_append_to_first_none id e ps :
  (∀ p, p ∈ ps → poolId p ≠ id) → append_to_first id e ps = ps.
Proof.
  induction ps as [|q ps IH]; intros H; cbn; [done|].
  rewrite bool_decide_eq_false_2 by (apply H; by left).
  f_equal. apply IH. intros p Hp. apply H. by right.
Qed.

Lemma elements_append_at i e ps :
  i < length ps →
  concat (pool_elements <$> append_at i e ps)
  ≡ₚ concat (pool_elements <$> ps) ++ [e].
Proof.
  revert i. induction ps as [|q ps IH]; intros i Hi; [cbn in Hi; lia|].
  unfold append_at. destruct i as [|i].
  - cbn [lookup list_lookup insert list_insert fmap list_fmap concat].
    rewrite pool_elements_snoc.
    cbn [child_elements]. rewrite <- !app_assoc.
    apply Permutation_app_head. apply Permutation_app_comm.
  - cbn in Hi. specialize (IH i ltac:(lia)). unfold append_at in IH.
    cbn [lookup list_lookup].
    destruct (ps !! i) as [p|] eqn:E.
    + cbn [insert list_insert fmap list_fmap concat].
      rewrite <- app_assoc. by apply Permutation_app_head.
    + apply lookup_ge_None in E. lia.
Qed.

Lemma getPool_Some id d p :
  getPool id d = Some p → p ∈ pools d ∧ poolId p = id.
Proof.
  unfold getPool. intros H. apply find_some in H as (Hin & Hid).
  split; [by apply list_elem_of_In|]. by apply bool_decide_eq_true in Hid.
Qed.

Lemma getPool_None id d :
  getPool id d = None → ∀ p, p ∈ pools d → poolId p ≠ id.
Proof.
  unfold getPool. intros H p Hin Hid.
  apply list_elem_of_In in Hin.
  pose proof (find_none _ _ H p Hin) as Hf. cbn in Hf.
  by rewrite bool_decide_eq_true_2 in Hf.
Qed.

(** **** Properties of every element *)

Section Forall_elements.
Context (Q : Element → Prop).

Local Abbreviation all := (all Q).

Lemma all_pools d d' : pools d' = pools d → all d → all d'.
Proof. unfold Dom.all. intros H. by rewrite (elements_pools d d'). Qed.

Lemma all_updateElement t f :
  (∀ e, Q e → Q (f e)) → preserves all (updateElement t f).
Proof.
  intros Hf d Hd. unfold Dom.all, updateElement in *. cbn [snd].
  rewrite elements_map_doc by done.
  apply Forall_fmap. eapply Forall_impl; [exact Hd|].
  intros e He. cbn. by destruct (Nat.eqb (eid e) t); [apply Hf|].
Qed.

Lemma all_updateStack t g :
  (∀ s, items (g s) = items s) → preserves all (updateStack t g).
Proof.
  intros Hg d Hd. unfold Dom.all, updateStack in *. cbn [snd].
  rewrite elements_map_doc.
  - by rewrite list_fmap_id.
  - intros s. by destruct (Nat.eqb (stackId s) t).
Qed.

Lemma all_detach t d : all d → all (detach t d).
Proof.
  unfold Dom.all. rewrite elements_detach, !Forall_forall.
  intros Hd e (_ & He)%list_elem_of_filter. by apply Hd.
Qed.

Lemma all_append_to_first id e d :
  Q e → all d → all (with_pools d (append_to_first id e (pools d))).
Proof.
  intros He Hd. unfold Dom.all, elements in *. cbn [pools with_pools].
  destruct (getPool id d) as [p|] eqn:E.
  - rewrite elements_append_to_first
      by (exists p; by apply getPool_Some).
    apply Forall_app. split; [done|by constructor].
  - by rewrite elements_append_to_first_none by (by apply getPool_None).
Qed.

Lemma all_append_at i e d :
  Q e → all d → all (with_pools d (append_at i e (pools d))).
Proof.
  intros He Hd. unfold Dom.all, elements in *. cbn [pools with_pools].
  destruct (decide (i < length (pools d))) as [Hi|Hi].
  - rewrite elements_append_at by done.
    apply Forall_app. split; [done|by constructor].
  - unfold append_at. rewrite (proj2 (lookup_ge_None _ _)) by lia. done.
Qed.

Lemma all_findElement t d e : all d → findElement t d = Some e → Q e.
Proof.
  unfold Dom.all, findElement. intros Hd H.
  apply find_some in H as (Hin & _).
  rewrite Forall_forall in Hd. by apply Hd, list_elem_of_In.
Qed.

Lemma all_appendChild_byId id t : preserves all (appendChild_byId id t).
Proof.
  intros d Hd. unfold appendChild_byId.
  destruct (findElement t d) as [e|] eqn:E; [|done]. cbn [snd].
  apply (all_append_to_first id e (detach t d)).
  - by apply (all_findElement t d).
  - by apply all_detach.
Qed.

Lemma all_appendChild_at i t : preserves all (appendChild_at i t).
Proof.
  intros d Hd. unfold appendChild_at.
  destruct (findElement t d) as [e|] eqn:E; [|done]. cbn [snd].
  apply (all_append_at i e (detach t d)).
  - by apply (all_findElement t d).
  - by apply all_detach.
Qed.

Lemma all_announce message : preserves all (announceToScreenReader message).
Proof.
  intros d Hd. unfold announceToScreenReader. cbn [snd].
  by destruct (liveRegion d); [apply (all_pools d)|].
Qed.

Lemma all_createAriaLiveRegion : preserves all createAriaLiveRegion.
Proof.
  intros d Hd. unfold createAriaLiveRegion. cbn [snd].
  by destruct (liveRegion d); [|apply (all_pools d)].
Qed.

Lemma all_querySelector_tool name number :
  preserves all (querySelector_tool name number).
Proof.
  intros d Hd. unfold querySelector_tool. by destruct (_ && _).
Qed.

End Forall_elements.

(** **** Class lists *)

Lemma contains_add c c' l :
  contains c (classList_add c' l) = contains c l || bool_decide (c = c').
Proof.
  unfold classList_add, contains.
  destruct (bool_decide (c' ∈ l)) eqn:E.
  - apply bool_decide_eq_true in E.
    destruct (decide (c = c')) as [->|Hne].
    + rewrite !bool_decide_eq_true_2 by done. done.
    + rewrite (bool_decide_eq_false_2 (c = c')) by done.
      by rewrite orb_false_r.
  - destruct (decide (c = c')) as [->|Hne].
    + rewrite (bool_decide_eq_true_2 (c' = c')) by done.
      rewrite orb_true_r. apply bool_decide_eq_true.
      apply elem_of_app. right. by left.
    + rewrite (bool_decide_eq_false_2 (c = c')) by done.
      rewrite orb_false_r. apply bool_decide_ext.
      rewrite elem_of_app, list_elem_of_singleton. intuition congruence.
Qed.

Lemma contains_remove c c' l :
  contains c (classList_remove c' l) = contains c l && bool_decide (c ≠ c').
Proof.
  unfold classList_remove, contains.
  destruct (decide (c = c')) as [->|Hne].
  - rewrite (bool_decide_eq_false_2 (c' ≠ c')) by (by intros ?).
    rewrite andb_false_r. apply bool_decide_eq_false_2.
    by intros (? & _)%list_elem_of_filter.
  - rewrite (bool_decide_eq_true_2 (c ≠ c')) by done.
    rewrite andb_true_r. apply bool_decide_ext.
    rewrite list_elem_of_filter. intuition congruence.
Qed.

Lemma remove_add c l :
  contains c l = false → classList_remove c (classList_add c l) = l.
Proof.
  intros H. unfold classList_add. rewrite H. unfold classList_remove.
  rewrite filter_app.
  assert (filter (fun x => x ≠ c) l = l) as ->.
  { apply bool_decide_eq_false in H. clear -H.
    induction l as [|x l IH]; [done|].
    rewrite filter_cons, decide_True.
    - f_equal. apply IH. intros Hin. apply H. by right.
    - intros ->. apply H. by left. }
  rewrite filter_cons, decide_False, filter_nil by (by intros ?).
  by rewrite app_nil_r.
Qed.

(** **** What is recorded on an element *)

Lemma roi_class e (cl : list string) :
  contains "checked-out" cl = contains "checked-out" (classList e) →
  recorded_only_if_out e → recorded_only_if_out (set_classList cl e).
Proof. unfold recorded_only_if_out. cbn. by intros ->. Qed.

Lemma roi_add c e :
  c ≠ "checked-out" → recorded_only_if_out e →
  recorded_only_if_out (set_classList (classList_add c (classList e)) e).
Proof.
  intros Hc. apply roi_class. rewrite contains_add.
  rewrite (bool_decide_eq_false_2 ("checked-out" = c)) by (by intros <-).
  by rewrite orb_false_r.
Qed.

Lemma roi_remove c e :
  c ≠ "checked-out" → recorded_only_if_out e →
  recorded_only_if_out (set_classList (classList_remove c (classList e)) e).
Proof.
  intros Hc. apply roi_class. rewrite contains_remove.
  rewrite (bool_decide_eq_true_2 ("checked-out" ≠ c)) by (by intros <-).
  by rewrite andb_true_r.
Qed.

Lemma roi_ariaLabel a e :
  recorded_only_if_out e → recorded_only_if_out (set_ariaLabel a e).
Proof. done. Qed.

Lemma roi_ariaGrabbed a e :
  recorded_only_if_out e → recorded_only_if_out (set_ariaGrabbed a e).
Proof. done. Qed.

Lemma roi_out e (cl : list string) t c d g :
  contains "checked-out" cl = true →
  recorded_only_if_out
    (set_ariaGrabbed g
       (set_crew c (set_checkoutTime t (set_display d (set_classList cl e))))).
Proof. unfold recorded_only_if_out. cbn. by intros ->. Qed.

Lemma roi_cleared e (cl : list string) d g :
  recorded_only_if_out
    (set_crew None
       (set_checkoutTime None
          (set_ariaGrabbed g (set_display d (set_classList cl e))))).
Proof. by unfold recorded_only_if_out. Qed.

End DomFacts.

Module ToolsFacts.
Import Js Config Dom Tools Crews Page.

(** **** Rendering never throws *)



(** **** Validation *)

Lemma validateTool_blank name quantity :
  trim name = "" →
  (validateTool name quantity).1 = false
  ∧ "Tool name is required" ∈ (validateTool name quantity).2.
Proof.
  intros Hb. unfold validateTool. rewrite Hb. cbn [String.length].
  replace (Nat.ltb 0 VALIDATION.MIN_TOOL_NAME_LENGTH) with true by done.
  rewrite orb_true_r. cbn [app fst snd length Nat.eqb]. split; [done|].
  by left.
Qed.

Lemma validateTool_quantity_low name quantity qty :
  parseInt quantity = Some qty → (qty < 1)%Z →
  (validateTool name quantity).1 = false
  ∧ "Quantity must be at least 1" ∈ (validateTool name quantity).2.
Proof.
  intros Hq Hlt. unfold validateTool. rewrite Hq.
  replace (qty <? VALIDATION.MIN_QUANTITY)%Z with true
    by (symmetry; apply Z.ltb_lt; unfold VALIDATION.MIN_QUANTITY; lia).
  cbn [fst snd]. split.
  - rewrite length_app. cbn [length]. by rewrite Nat.add_comm.
  - apply elem_of_app. right. by left.
Qed.

Lemma validateTool_quantity_high name quantity qty :
  parseInt quantity = Some qty → (999 < qty)%Z →
  (validateTool name quantity).1 = false
  ∧ "Quantity cannot exceed 999" ∈ (validateTool name quantity).2.
Proof.
  intros Hq Hlt. unfold validateTool. rewrite Hq.
  replace (qty <? VALIDATION.MIN_QUANTITY)%Z with false
    by (symmetry; apply Z.ltb_ge; unfold VALIDATION.MIN_QUANTITY; lia).
  replace (VALIDATION.MAX_QUANTITY <? qty)%Z with true
    by (symmetry; apply Z.ltb_lt; unfold VALIDATION.MAX_QUANTITY; lia).
  cbn [fst snd]. split.
  - rewrite length_app. cbn [length]. by rewrite Nat.add_comm.
  - apply elem_of_app. right. by left.
Qed.

Lemma validateTool_ok name quantity qty :
  trim name ≠ "" → String.length name ≤ 100 →
  parseInt quantity = Some qty → (1 ≤ qty ≤ 999)%Z →
  validateTool name quantity = (true, []).
Proof.
  intros Hn Hlen Hq Hr. unfold validateTool. rewrite Hq.
  assert (truthy_string name = true) as ->.
  { destruct name; [|done]. by destruct Hn. }
  assert (Nat.ltb (String.length (trim name))
            VALIDATION.MIN_TOOL_NAME_LENGTH = false) as ->.
  { apply Nat.ltb_ge. unfold VALIDATION.MIN_TOOL_NAME_LENGTH.
    destruct (trim name); [done|]. cbn. lia. }
  assert (Nat.ltb VALIDATION.MAX_TOOL_NAME_LENGTH (String.length name)
          = false) as ->.
  { apply Nat.ltb_ge. by unfold VALIDATION.MAX_TOOL_NAME_LENGTH. }
  replace (qty <? VALIDATION.MIN_QUANTITY)%Z with false
    by (symmetry; apply Z.ltb_ge; unfold VALIDATION.MIN_QUANTITY; lia).
  replace (VALIDATION.MAX_QUANTITY <? qty)%Z with false
    by (symmetry; apply Z.ltb_ge; unfold VALIDATION.MAX_QUANTITY; lia).
  done.
Qed.




Lemma wf_new_AppState : AppState.wf AppState.new_AppState.
Proof.
  exists {| AppState.toolInventory := 0; AppState.expandedStacks := 1;
            AppState.draggedElement := None;
            AppState.lastUpdateTime := None |},
    DEFAULT_TOOL_INVENTORY, []. repeat split. constructor.
Qed.





End ToolsFacts.

Module PageFacts.
Import Js Config Dom Tools Crews Page MonadFacts DomFacts.

(** **** The state object stays in place *)

Lemma wf_perform w :
  (∀ app, AppState.valid w app) → preserves AppState.wf (AppState.perform w).
Proof.
  intros Hv app Hwf. destruct (AppStateFacts.wf_contents app Hwf) as (v & Hc).
  destruct (AppStateFacts.perform_spec w app v Hwf Hc (Hv app))
    as (app' & -> & Hwf' & _).
  exact Hwf'.
Qed.

Lemma wf_grown app k :
  AppState.wf app →
  AppState.wf (AppState.with_heap app (AppState.heap app ++ k)).
Proof.
  intros (s & inv & ex & Hs & Hi & He & Hnd). exists s, inv, ex.
  cbn. repeat split; try done; by apply AppStateFacts.lookup_grown.
Qed.

Lemma wf_getInventory : preserves AppState.wf AppState.getInventory.
Proof.
  intros app Hwf. pose proof Hwf as (s & inv & ex & Hs & Hi & He & Hnd).
  unfold AppState.getInventory, bind, AppState.this_state.
  rewrite (AppStateFacts.readState_at _ s),
    (AppStateFacts.readInventory_at _ inv) by done.
  by apply wf_grown.
Qed.

Lemma wf_readInventory r : preserves AppState.wf (AppState.readInventory r).
Proof.
  intros app Hwf. unfold AppState.readInventory.
  by destruct (AppState.heap app !! r) as [[| |]|].
Qed.

Lemma wf_getDraggedElement :
  preserves AppState.wf AppState.getDraggedElement.
Proof.
  intros app Hwf. pose proof Hwf as (s & inv & ex & Hs & _).
  unfold AppState.getDraggedElement, bind, AppState.this_state,
    AppState.readState.
  by rewrite Hs.
Qed.

(** **** Looking nodes up in a changed document *)

Lemma find_app_none {A} (P : A → bool) l k :
  Forall (fun x => P x = false) l → find P (l ++ k) = find P k.
Proof.
  induction 1 as [|x l Hx _ IH]; [done|]. cbn [List.app find].
  by rewrite Hx.
Qed.

Lemma find_upd t f (l : list Element) e :
  (∀ x, eid (f x) = eid x) →
  find (fun x => Nat.eqb (eid x) t) l = Some e →
  find (fun x => Nat.eqb (eid x) t)
    ((fun x => if Nat.eqb (eid x) t then f x else x) <$> l) = Some (f e).
Proof.
  intros Hf. induction l as [|x l IH]; [done|].
  cbn [find fmap list_fmap]. destruct (Nat.eqb (eid x) t) eqn:E.
  - intros [= ->]. by rewrite Hf, E.
  - by rewrite E.
Qed.

Lemma findElement_updateElement t f d e :
  (∀ x, eid (f x) = eid x) → findElement t d = Some e →
  findElement t (updateElement t f d).2 = Some (f e).
Proof.
  intros Hf H. unfold findElement, updateElement. cbn [snd].
  rewrite elements_map_doc by done. by apply find_upd.
Qed.

Lemma findElement_eid t d e : findElement t d = Some e → eid e = t.
Proof. intros H. apply find_some in H as [_ H]. by apply Nat.eqb_eq. Qed.

Lemma getPool_pools id d d' : pools d' = pools d → getPool id d' = getPool id d.
Proof. unfold getPool. by intros ->. Qed.

Lemma findElement_pools t d d' :
  pools d' = pools d → findElement t d' = findElement t d.
Proof. unfold findElement. intros H. by rewrite (elements_pools d d'). Qed.

Lemma find_pool_fmap id (h : Pool → Pool) ps :
  (∀ p, poolId (h p) = poolId p) →
  find (fun p => bool_decide (poolId p = id)) (h <$> ps)
  = h <$> find (fun p => bool_decide (poolId p = id)) ps.
Proof.
  intros Hh. induction ps as [|p ps IH]; [done|].
  cbn [find fmap list_fmap]. rewrite Hh.
  by destruct (bool_decide (poolId p = id)).
Qed.

Lemma getPool_map_doc id f g d :
  getPool id (map_doc f g d)
  = (fun p => set_children (map_child f g <$> children p) p) <$> getPool id d.
Proof. unfold getPool, map_doc. cbn [pools with_pools]. by apply find_pool_fmap. Qed.




(** **** Stacks of a changed document *)

Lemma find_fmap_inv {A} (P : A → bool) (h : A → A) l :
  (∀ x, P (h x) = P x) → find P (h <$> l) = h <$> find P l.
Proof.
  intros Hh. induction l as [|x l IH]; [done|].
  cbn [find fmap list_fmap]. rewrite Hh. by destruct (P x).
Qed.

Lemma find_unique {A} (f : A → nat) l x :
  NoDup (f <$> l) → x ∈ l → find (fun y => Nat.eqb (f y) (f x)) l = Some x.
Proof.
  induction l as [|y l IH]; intros Hnd Hin; [by apply elem_of_nil in Hin|].
  rewrite fmap_cons in Hnd. apply NoDup_cons in Hnd as (Hy & Hnd).
  cbn [find]. apply elem_of_cons in Hin as [->|Hin].
  - by rewrite Nat.eqb_refl.
  - destruct (Nat.eqb (f y) (f x)) eqn:E; [|by apply IH].
    apply Nat.eqb_eq in E. destruct Hy. rewrite E.
    by apply list_elem_of_fmap_2.
Qed.

Lemma NoDup_fmap_eq {A} (f : A → nat) l x y :
  NoDup (f <$> l) → x ∈ l → y ∈ l → f x = f y → x = y.
Proof.
  intros Hnd Hx Hy Hf. pose proof (find_unique f l x Hnd Hx) as H1.
  pose proof (find_unique f l y Hnd Hy) as H2.
  rewrite Hf in H1. rewrite H1 in H2. by injection H2.
Qed.

Lemma child_stacks_map f g c :
  child_stacks (map_child f g c)
  = (fun s => g (set_items (f <$> items s) s)) <$> child_stacks c.
Proof. by destruct c. Qed.

Lemma stacks_map_doc f g d :
  stacks (map_doc f g d)
  = (fun s => g (set_items (f <$> items s) s)) <$> stacks d.
Proof.
  unfold stacks, map_doc. cbn [pools with_pools].
  rewrite <- list_fmap_compose.
  apply concat_fmap_fmap. intros p. unfold compose.
  cbn [children set_children]. rewrite <- list_fmap_compose.
  apply concat_fmap_fmap. intros c. apply child_stacks_map.
Qed.

Lemma stacks_pools d d' : pools d' = pools d → stacks d' = stacks d.
Proof. unfold stacks. by intros ->. Qed.

Lemma existsb_fmap_eid i f (l : list Element) :
  (∀ x, eid (f x) = eid x) →
  existsb (fun e => Nat.eqb (eid e) i) (f <$> l)
  = existsb (fun e => Nat.eqb (eid e) i) l.
Proof.
  intros Hf. induction l as [|x l IH]; [done|].
  cbn [existsb fmap list_fmap]. by rewrite Hf, IH.
Qed.

Lemma closestStack_map_doc i f g d :
  (∀ x, eid (f x) = eid x) → (∀ s, items (g s) = items s) →
  closestStack i (map_doc f g d)
  = (fun s => g (set_items (f <$> items s) s)) <$> closestStack i d.
Proof.
  intros Hf Hg. unfold closestStack. rewrite stacks_map_doc.
  apply find_fmap_inv. intros s. rewrite Hg. cbn [items set_items].
  by apply existsb_fmap_eid.
Qed.

Lemma elem_of_concat {A} (x : A) (ls : list (list A)) :
  x ∈ concat ls ↔ ∃ l, x ∈ l ∧ l ∈ ls.
Proof.
  rewrite list_elem_of_In, in_concat. split.
  - intros (l & Hl & Hx). exists l. by rewrite !list_elem_of_In.
  - intros (l & Hx & Hl). exists l. by rewrite <- !list_elem_of_In.
Qed.

Lemma stack_items_elements d s x :
  s ∈ stacks d → x ∈ items s → x ∈ elements d.
Proof.
  unfold stacks, elements. intros Hs Hx.
  apply elem_of_concat in Hs as (ss & Hs & Hss).
  apply list_elem_of_fmap in Hss as (p & -> & Hp).
  apply elem_of_concat in Hs as (cs & Hs & Hcs).
  apply list_elem_of_fmap in Hcs as (c & -> & Hc).
  destruct c as [e|s']; [by apply elem_of_nil in Hs|].
  apply list_elem_of_singleton in Hs as ->.
  apply elem_of_concat. exists (pool_elements p). split.
  - unfold pool_elements. apply elem_of_concat. exists (items s').
    split; [done|]. by apply (list_elem_of_fmap_2 child_elements _ (PStack s')).
  - by apply list_elem_of_fmap_2.
Qed.

Lemma closestStack_in i d s :
  closestStack i d = Some s →
  s ∈ stacks d ∧ ∃ x, x ∈ items s ∧ eid x = i.
Proof.
  unfold closestStack. intros H. apply find_some in H as (Hin & Hex).
  split; [by apply list_elem_of_In|].
  apply existsb_exists in Hex as (x & Hx & He).
  exists x. split; [by apply list_elem_of_In|by apply Nat.eqb_eq].
Qed.

(** **** Rendering and the tool and crew modules keep the document tidy *)

Lemma createItems_tidy tool ns d :
  ∃ l d', createItems tool ns d = (Returns l, d')
          ∧ Forall recorded_only_if_out l ∧ pools d' = pools d.
Proof.
  revert d. induction ns as [|n ns IH]; intros d; cbn [createItems].
  - eexists _, _. by repeat split.
  - unfold bind, createToolElement, fresh_id, ret. cbn.
    destruct (IH (with_nextId d (S (nextId d)))) as (l & d' & -> & Hl & Hp).
    eexists _, _. split; [done|]. split; [|done].
    constructor; [|done]. by unfold recorded_only_if_out.
Qed.

Lemma pool_appendChild_all Q id c d :
  Forall Q (child_elements c) → all Q d →
  all Q (pool_appendChild id c d).2.
Proof.
  intros Hc Hd. unfold pool_appendChild, all, elements in *.
  cbn [snd pools with_pools].
  induction (pools d) as [|q ps IH]; [done|].
  rewrite fmap_cons, concat_cons in Hd. apply Forall_app in Hd as (Hq & Hps).
  cbn [append_child_to_first].
  case_bool_decide; rewrite fmap_cons, concat_cons, Forall_app.
  - by rewrite pool_elements_snoc, Forall_app.
  - split; [done|by apply IH].
Qed.

Lemma tidy_createToolStack tool poolId :
  preserves tidy (createToolStack tool poolId).
Proof.
  intros d Hd. unfold createToolStack, bind, get_state.
  destruct (getPool poolId d); [|done].
  destruct (qty tool =? 1)%Z.
  - unfold createToolElement, bind, fresh_id, ret. cbn [fst snd].
    apply pool_appendChild_all.
    + constructor; [by unfold recorded_only_if_out|constructor].
    + by apply (all_pools _ d).
  - unfold fresh_id. cbn [fst snd].
    destruct (createItems_tidy tool (numbers (qty tool))
                (with_nextId d (S (nextId d)))) as (l & d' & -> & Hl & Hp).
    apply pool_appendChild_all; [done|].
    by apply (all_pools _ d).
Qed.

Lemma tidy_updateStackCount stackDiv : preserves tidy (updateStackCount stackDiv).
Proof.
  unfold updateStackCount. apply preserves_read. intros d.
  destruct (find _ _); [|apply preserves_ret].
  destruct (Nat.eqb _ 0).
  - apply preserves_bind; [by apply all_updateStack|].
    intros _. apply all_announce.
  - by apply all_updateStack.
Qed.

Lemma tidy_toggleStackView stackDiv : preserves tidy (toggleStackView stackDiv).
Proof.
  unfold toggleStackView. apply preserves_read. intros d.
  destruct (find _ _); [|apply preserves_ret].
  apply preserves_bind; [by apply all_updateStack|]. intros _.
  apply preserves_bind; [apply tidy_updateStackCount|]. intros _.
  apply all_announce.
Qed.

Lemma tidy_updateStackOf target : preserves tidy (updateStackOf target).
Proof.
  unfold updateStackOf. apply preserves_read. intros d.
  destruct (closestStack _ _);
    [apply tidy_updateStackCount|apply preserves_ret].
Qed.

Lemma tidy_returnTool toolElement : preserves tidy (returnTool toolElement).
Proof.
  unfold returnTool. destruct toolElement as [[toolName toolNumber]|];
    [|apply preserves_ret].
  apply preserves_bind; [apply all_querySelector_tool|].
  intros [t|]; [|apply preserves_ret].
  apply preserves_bind.
  { apply all_updateElement. intros e _. apply roi_cleared. }
  intros _. apply preserves_read. intros d.
  apply preserves_bind.
  { destruct (closestStack _ _);
      [apply tidy_updateStackCount|apply preserves_ret]. }
  intros _. apply preserves_bind; [apply all_announce|].
  intros _. apply preserves_ret.
Qed.

Lemma tidy_returnEach tools count : preserves tidy (returnEach tools count).
Proof.
  revert count. induction tools as [|tool tools IH]; intros count;
    cbn [returnEach]; [apply preserves_ret|].
  apply preserves_bind; [apply tidy_returnTool|]. intros ok. apply IH.
Qed.

Lemma tidy_crews (f : Doc → option (list DropZone)) :
  preserves tidy (fun d => (Returns tt, with_crews d (f d))).
Proof. intros d Hd. by apply (all_pools _ d). Qed.

Lemma tidy_returnAllTools : preserves tidy returnAllTools.
Proof.
  unfold returnAllTools. apply preserves_read. intros d.
  apply preserves_bind; [apply tidy_returnEach|]. intros count.
  apply preserves_bind; [apply tidy_crews|]. intros _.
  apply preserves_bind; [apply all_announce|]. intros _.
  apply preserves_ret.
Qed.

Lemma tidy_createCrewCards : preserves tidy createCrewCards.
Proof.
  unfold createCrewCards. apply preserves_read. intros d.
  destruct (crewsContainer d); [|apply preserves_ret].
  apply preserves_bind; [apply tidy_crews|]. intros _. apply all_announce.
Qed.

Lemma tidy_handleReturnTool z i : preserves tidy (handleReturnTool z i).
Proof.
  unfold handleReturnTool. apply preserves_read. intros d.
  destruct (_ ≫= _); [|apply preserves_ret].
  apply preserves_bind; [apply all_querySelector_tool|]. intros t.
  apply preserves_read. intros d'.
  apply preserves_bind; [apply tidy_returnTool|]. intros [|].
  - apply tidy_crews.
  - apply preserves_ret.
Qed.

Lemma tidy_checkoutTool now toolElement dropZone :
  preserves tidy (checkoutTool now toolElement dropZone).
Proof.
  unfold checkoutTool. apply preserves_read. intros d.
  destruct (zone_crew _ _) as [crewNumber|]; [|apply preserves_ret].
  destruct (findElement _ _) as [e|]; [|apply preserves_ret].
  destruct (truthy_string _); [|apply preserves_ret].
  apply preserves_bind.
  { apply all_updateElement. intros e' _. apply roi_out.
    rewrite contains_add. apply orb_true_r. }
  intros _. apply preserves_bind.
  { destruct dropZone; [apply tidy_crews|apply preserves_ret]. }
  intros _. apply preserves_bind; [apply all_announce|].
  intros _. apply preserves_ret.
Qed.

Lemma tidy_markToolBroken toolElement :
  preserves tidy (markToolBroken toolElement).
Proof.
  unfold markToolBroken. apply preserves_read. intros d.
  destruct (getPool _ _); [|apply preserves_ret].
  destruct (findElement _ _) as [e|]; [|apply preserves_ret].
  apply preserves_bind.
  { apply all_updateElement. intros e' He'.
    apply roi_ariaLabel. by apply roi_add. }
  intros _. apply preserves_bind; [apply all_appendChild_byId|].
  intros _. apply preserves_bind; [apply all_announce|].
  intros _. apply preserves_ret.
Qed.

Lemma tidy_unmarkToolBroken toolElement :
  preserves tidy (unmarkToolBroken toolElement).
Proof.
  unfold unmarkToolBroken. apply preserves_read. intros d.
  destruct (findElement _ _) as [e|]; [|apply preserves_ret].
  apply preserves_bind.
  { apply all_updateElement. intros e' He'.
    apply roi_ariaLabel. by apply roi_remove. }
  intros _. apply preserves_bind; [apply all_announce|].
  intros _. apply preserves_ret.
Qed.

Lemma tidy_loadCheckout crew dropZone saved n :
  preserves tidy (loadCheckout crew dropZone saved n).
Proof.
  unfold loadCheckout.
  apply preserves_bind; [apply all_querySelector_tool|].
  intros [t|]; [|apply preserves_ret].
  apply preserves_bind.
  { apply all_updateElement. intros e _.
    unfold recorded_only_if_out. cbn.
    rewrite contains_add, orb_true_r. done. }
  intros _. apply preserves_bind; [apply tidy_crews|].
  intros _. apply preserves_read. intros d.
  apply preserves_bind.
  { destruct (closestStack _ _); [|apply preserves_ret].
    destruct (hasRequire d);
      [apply tidy_updateStackCount|apply preserves_throw]. }
  intros _. apply preserves_ret.
Qed.

Lemma tidy_loadCrew crew dropZone tools n :
  preserves tidy (loadCrew crew dropZone tools n).
Proof.
  revert n. induction tools as [|saved tools IH]; intros n; cbn [loadCrew];
    [apply preserves_ret|].
  apply preserves_bind; [apply tidy_loadCheckout|]. intros m. apply IH.
Qed.

Lemma tidy_loadCrews checkoutsData n :
  preserves tidy (loadCrews checkoutsData n).
Proof.
  revert n.
  induction checkoutsData as [|[crew tools] rest IH]; intros n;
    cbn [loadCrews]; [apply preserves_ret|].
  apply preserves_bind.
  { intros d Hd. unfold querySelector_zone. by destruct (selector_safe _). }
  intros dropZone. apply preserves_bind.
  { destruct dropZone; [apply tidy_loadCrew|apply preserves_ret]. }
  intros m. apply IH.
Qed.

Lemma tidy_loadCheckouts checkoutsData :
  preserves tidy (loadCheckouts checkoutsData).
Proof.
  unfold loadCheckouts. apply preserves_bind; [apply tidy_loadCrews|].
  intros n. destruct (Nat.ltb 0 n); [apply all_announce|apply preserves_ret].
Qed.

Lemma tidy_loadBrokenTools brokenData :
  preserves tidy (loadBrokenTools brokenData).
Proof.
  unfold loadBrokenTools. apply preserves_read. intros d.
  destruct (getPool _ _); [|apply preserves_ret].
  apply preserves_for_each. intros [name number].
  apply preserves_bind; [apply all_querySelector_tool|].
  intros [t|]; [|apply preserves_ret].
  apply preserves_bind; [|intros _; apply all_appendChild_byId].
  apply all_updateElement. intros e He. by apply roi_add.
Qed.

Lemma clear_first_all Q id ps :
  Forall Q (concat (pool_elements <$> ps)) →
  Forall Q (concat (pool_elements <$> clear_first id ps)).
Proof.
  induction ps as [|q ps IH]; [done|].
  rewrite fmap_cons, concat_cons. intros (Hq & Hps)%Forall_app.
  cbn [clear_first].
  case_bool_decide; rewrite fmap_cons, concat_cons, Forall_app.
  - split; [by apply Forall_nil|done].
  - split; [done|by apply IH].
Qed.

Lemma tidy_clearPool id : preserves tidy (clearPool id).
Proof. intros d Hd. by apply clear_first_all. Qed.

(** **** The handlers keep the page sound *)

Lemma sound_on_doc {A} (m : Dom.M A) :
  preserves tidy m → preserves sound (on_doc m).
Proof.
  intros Hm w (Hwf & Ht). unfold on_doc. specialize (Hm (doc w) Ht).
  by destruct (m (doc w)).
Qed.

Lemma sound_on_app {A} (m : AppState.M A) :
  preserves AppState.wf m → preserves sound (on_app m).
Proof.
  intros Hm w (Hwf & Ht). unfold on_app. specialize (Hm (app w) Hwf).
  by destruct (m (app w)).
Qed.

Lemma sound_on_storage {A} (m : Storage.M A) : preserves sound (on_storage m).
Proof. intros w Hw. unfold on_storage. by destruct (m (storage w)). Qed.

Lemma sound_set_touchItem t : preserves sound (set_touchItem t).
Proof. by intros w Hw. Qed.

Lemma sound_write w :
  (∀ app, AppState.valid w app) → preserves sound (on_app (AppState.perform w)).
Proof. intros Hv. by apply sound_on_app, wf_perform. Qed.

Lemma tidy_map_stacks (g : Stack → Stack) :
  (∀ s, items (g s) = items s) →
  preserves tidy (fun d => (Returns tt, map_doc id g d)).
Proof.
  intros Hg d Hd. unfold tidy, all. cbn [snd].
  rewrite elements_map_doc by done. by rewrite list_fmap_id.
Qed.

Lemma tidy_updateTime (f : Doc → Doc) :
  (∀ d, pools (f d) = pools d) →
  preserves tidy (fun d => (Returns tt, f d)).
Proof. intros Hf d Hd. apply (all_pools _ d); [apply Hf|done]. Qed.

Ltac keeps :=
  repeat match goal with
  | |- preserves _ (bind get_state _) => apply preserves_read; intros ?
  | |- preserves _ (bind _ _) => apply preserves_bind; [|intros ?]
  | |- preserves _ (ret _) => apply preserves_ret
  | |- preserves _ (throw _) => apply preserves_throw
  | |- preserves _ (for_each _ _) => apply preserves_for_each; intros ?
  | |- preserves sound (on_doc _) => apply sound_on_doc
  | |- preserves sound (on_storage _) => apply sound_on_storage
  | |- preserves sound (set_touchItem _) => apply sound_set_touchItem
  | |- preserves sound (on_app AppState.getInventory) =>
      apply sound_on_app, wf_getInventory
  | |- preserves sound (on_app (AppState.readInventory _)) =>
      apply sound_on_app, wf_readInventory
  | |- preserves sound (on_app AppState.getDraggedElement) =>
      apply sound_on_app, wf_getDraggedElement
  | |- preserves sound (on_app (AppState.setLastUpdateTime ?t)) =>
      apply (sound_write (AppState.WSetLastUpdateTime t)); done
  | |- preserves sound (on_app (AppState.setDraggedElement ?e)) =>
      apply (sound_write (AppState.WSetDraggedElement e)); done
  | |- preserves sound (on_app AppState.clearDraggedElement) =>
      apply (sound_write AppState.WClearDraggedElement); done
  | |- preserves sound (on_app (AppState.setInventory ?i)) =>
      apply (sound_write (AppState.WSetInventory i)); done
  | |- preserves sound (on_app (AppState.addTool ?c ?t)) =>
      apply sound_on_app, AppStateFacts.wf_addTool
  | |- preserves sound (on_app (AppState.toggleStack ?n)) =>
      apply (sound_write (AppState.WToggleStack n)); done
  | |- preserves sound (on_app (AppState.expandAllStacks ?l)) =>
      apply (sound_write (AppState.WExpandAllStacks l)); done
  | |- preserves sound (on_app AppState.collapseAllStacks) =>
      apply (sound_write AppState.WCollapseAllStacks); done
  | |- preserves tidy (announceToScreenReader _) => apply all_announce
  | |- preserves tidy createAriaLiveRegion => apply all_createAriaLiveRegion
  | |- preserves tidy (createToolStack _ _) => apply tidy_createToolStack
  | |- preserves tidy (clearPool _) => apply tidy_clearPool
  | |- preserves tidy (toggleStackView _) => apply tidy_toggleStackView
  | |- preserves tidy (updateStackOf _) => apply tidy_updateStackOf
  | |- preserves tidy (checkoutTool _ _ _) => apply tidy_checkoutTool
  | |- preserves tidy (markToolBroken _) => apply tidy_markToolBroken
  | |- preserves tidy (unmarkToolBroken _) => apply tidy_unmarkToolBroken
  | |- preserves tidy (appendChild_at _ _) => apply all_appendChild_at
  | |- preserves tidy (handleReturnTool _ _) => apply tidy_handleReturnTool
  | |- preserves tidy returnAllTools => apply tidy_returnAllTools
  | |- preserves tidy clearAllCheckouts => apply tidy_crews
  | |- preserves tidy createCrewCards => apply tidy_createCrewCards
  | |- preserves tidy (loadCheckouts _) => apply tidy_loadCheckouts
  | |- preserves tidy (loadBrokenTools _) => apply tidy_loadBrokenTools
  | |- preserves tidy (fun d => (Returns tt, map_doc id _ d)) =>
      apply tidy_map_stacks; done
  | |- preserves _ (match ?x with _ => _ end) => destruct x
  end.

Lemma sound_updateLastModifiedTime now :
  preserves sound (updateLastModifiedTime now).
Proof.
  unfold updateLastModifiedTime. keeps.
  apply tidy_updateTime. intros d. by destruct (updateTime d).
Qed.

Lemma sound_initializeInventory : preserves sound initializeInventory.
Proof. unfold initializeInventory. keeps. Qed.

Lemma sound_addTool name category quantity :
  preserves sound (addTool name category quantity).
Proof. unfold addTool. keeps. Qed.

Lemma sound_toggleStack stackDiv : preserves sound (toggleStack stackDiv).
Proof. unfold toggleStack. keeps. Qed.

Lemma sound_toggleExpandAll : preserves sound toggleExpandAll.
Proof. unfold toggleExpandAll. keeps. Qed.

Lemma tidy_grab target : preserves tidy (updateElement target grab).
Proof.
  apply all_updateElement. intros e He.
  by apply roi_ariaGrabbed, roi_add.
Qed.

Lemma tidy_release target : preserves tidy (updateElement target release).
Proof.
  apply all_updateElement. intros e He.
  by apply roi_ariaGrabbed, roi_remove.
Qed.

Lemma sound_handleDragStart target : preserves sound (handleDragStart target).
Proof. unfold handleDragStart. keeps. apply tidy_grab. Qed.

Lemma sound_handleDragEnd target : preserves sound (handleDragEnd target).
Proof. unfold handleDragEnd. keeps. apply tidy_release. Qed.

Lemma sound_handleDrop now draggedElement dropZone :
  preserves sound (handleDrop now draggedElement dropZone).
Proof.
  unfold handleDrop. keeps; apply sound_updateLastModifiedTime.
Qed.

Lemma sound_dropEvent now dropZone : preserves sound (dropEvent now dropZone).
Proof. unfold dropEvent. keeps. apply sound_handleDrop. Qed.

Lemma sound_handleTouchStart target :
  preserves sound (handleTouchStart target).
Proof. unfold handleTouchStart. keeps. apply tidy_grab. Qed.

Lemma sound_handleTouchEnd now dropZone :
  preserves sound (handleTouchEnd now dropZone).
Proof.
  unfold handleTouchEnd. keeps;
    first [apply sound_handleDrop | apply tidy_release].
Qed.

Lemma sound_loadHistoryData historyData :
  preserves sound (loadHistoryData historyData).
Proof. unfold loadHistoryData. keeps; apply sound_initializeInventory. Qed.

Lemma sound_clearAll now : preserves sound (clearAll now).
Proof.
  unfold clearAll. keeps;
    first [apply sound_initializeInventory
          |apply sound_updateLastModifiedTime].
Qed.

Lemma sound_returnAll now : preserves sound (returnAll now).
Proof. unfold returnAll. keeps. apply sound_updateLastModifiedTime. Qed.

Lemma sound_init : preserves sound init.
Proof. unfold init. keeps. apply sound_initializeInventory. Qed.

Lemma sound_handleAddNewTool name category quantity now :
  preserves sound (handleAddNewTool name category quantity now).
Proof.
  unfold handleAddNewTool. keeps;
    first [apply sound_addTool | apply sound_updateLastModifiedTime].
Qed.

Lemma sound_pointerDrag target now dropZone w :
  sound w → sound (pointerDrag target now dropZone w).
Proof.
  intros Hw. unfold pointerDrag, after.
  pose proof (sound_handleDragStart target w Hw) as H1.
  destruct (handleDragStart target w) as [[[|]|e] w1]; try exact H1.
  by apply sound_handleDragEnd, sound_dropEvent.
Qed.

Lemma sound_touchDrag target now dropZone w :
  sound w → sound (touchDrag target now dropZone w).
Proof.
  intros Hw. unfold touchDrag, after.
  by apply sound_handleTouchEnd, sound_handleTouchStart.
Qed.

Lemma sound_step w a : sound w → sound (step w a).
Proof.
  intros Hw. destruct a; cbn [step]; unfold after.
  - by apply sound_pointerDrag.
  - by apply sound_touchDrag.
  - by apply sound_on_doc; [apply tidy_handleReturnTool|].
  - by apply sound_returnAll.
  - by apply sound_clearAll.
  - by apply sound_toggleStack.
  - by apply sound_toggleExpandAll.
  - by apply sound_handleAddNewTool.
  - by apply sound_loadHistoryData.
Qed.

Lemma sound_run actions w : sound w → sound (run actions w).
Proof.
  revert w. induction actions as [|a actions IH]; intros w Hw; [done|].
  cbn [run fold_left]. apply IH. by apply sound_step.
Qed.

Lemma sound_loaded : sound loaded.
Proof. split; [apply ToolsFacts.wf_new_AppState|by apply Forall_nil_2]. Qed.

Lemma sound_opened : sound opened.
Proof. apply sound_init, sound_loaded. Qed.

(** **** A drop on the broken pool *)




Lemma page_on_doc {A} P (m : Dom.M A) :
  preserves P m → preserves (on_page P) (on_doc m).
Proof.
  intros Hm w Hw. unfold on_doc, on_page in *. specialize (Hm (doc w) Hw).
  by destruct (m (doc w)).
Qed.

Lemma page_on_app {A} P (m : AppState.M A) : preserves (on_page P) (on_app m).
Proof. intros w Hw. unfold on_app. by destruct (m (app w)). Qed.

Lemma page_on_storage {A} P (m : Storage.M A) :
  preserves (on_page P) (on_storage m).
Proof. intros w Hw. unfold on_storage. by destruct (m (storage w)). Qed.







(** **** Checkout and return *)

Lemma closestStack_pools i d d' :
  pools d' = pools d → closestStack i d' = closestStack i d.
Proof. unfold closestStack. intros H. by rewrite (stacks_pools d d'). Qed.

Lemma stackIds_map_doc f g d :
  (∀ s, stackId (g s) = stackId s) →
  stackId <$> stacks (map_doc f g d) = stackId <$> stacks d.
Proof.
  intros Hg. rewrite stacks_map_doc, <- list_fmap_compose.
  apply list_fmap_ext. intros k s _. cbn. by rewrite Hg.
Qed.

Lemma length_filter_fmap_inv {A} (P : A → bool) (h : A → A) l :
  (∀ x, x ∈ l → P (h x) = P x) →
  length (filter (fun e => P e = true) (h <$> l))
  = length (filter (fun e => P e = true) l).
Proof.
  induction l as [|x l IH]; intros H; [done|].
  rewrite fmap_cons, !filter_cons, (H x) by (by left).
  destruct (decide (P x = true)); cbn [length]; rewrite IH; try done;
    intros y Hy; apply H; by right.
Qed.

(** The rows of the crew cards are left alone by [returnTool]. *)
Lemma crews_announce c message :
  preserves (fun d => crewsContainer d = c) (announceToScreenReader message).
Proof. intros d <-. cbn. by destruct (liveRegion d). Qed.

Lemma crews_updateStackCount c stackDiv :
  preserves (fun d => crewsContainer d = c) (updateStackCount stackDiv).
Proof.
  unfold updateStackCount. apply preserves_read. intros d.
  destruct (find _ _); [|apply preserves_ret].
  destruct (Nat.eqb _ 0).
  - apply preserves_bind; [by intros d' <-|]. intros _. apply crews_announce.
  - by intros d' <-.
Qed.

Lemma crews_returnTool c toolElement :
  preserves (fun d => crewsContainer d = c) (returnTool toolElement).
Proof.
  unfold returnTool. destruct toolElement as [[toolName toolNumber]|];
    [|apply preserves_ret].
  apply preserves_bind.
  { intros d <-. unfold querySelector_tool. by destruct (_ && _). }
  intros [t|]; [|apply preserves_ret].
  apply preserves_bind; [by intros d <-|]. intros _.
  apply preserves_read. intros d. apply preserves_bind.
  { destruct (closestStack _ _);
      [apply crews_updateStackCount|apply preserves_ret]. }
  intros _. apply preserves_bind; [apply crews_announce|].
  intros _. apply preserves_ret.
Qed.

Lemma checkoutTool_spec now i zone d e crew :
  zone_crew zone d = Some crew → truthy_string crew = true →
  findElement i d = Some e →
  ∃ d', checkoutTool now i zone d = (Returns true, d')
        ∧ pools d'
          = pools (updateElement i
                     (checked_out (toLocaleTimeString now) crew) d).2
        ∧ crewsContainer d'
          = crewsContainer
              match zone with
              | CrewZone z =>
                  (zone_append z
                     (createCheckoutItem (ds_toolName e) (ds_toolNumber e)
                        (toLocaleTimeString now) crew) d).2
              | PoolZone _ => d
              end.
Proof.
  intros Hz Ht Hf. unfold checkoutTool, bind, get_state.
  rewrite Hz, Hf, Ht. cbn [updateElement].
  destruct zone; cbn [zone_append ret announceToScreenReader snd];
    (eexists; split; [reflexivity|]); by destruct (liveRegion _).
Qed.

Lemma updateStackCount_spec d s :
  NoDup (stackId <$> stacks d) → s ∈ stacks d →
  ∃ dsp,
    pools (updateStackCount (stackId s) d).2
    = pools (updateStack (stackId s)
               (set_badge (pretty (availableCount s))
                  (pretty (availableCount s) +:+ " available") dsp) d).2.
Proof.
  intros Hnd Hin. unfold updateStackCount, bind, get_state.
  rewrite (find_unique stackId _ s Hnd Hin).
  destruct (Nat.eqb (availableCount s) 0).
  - exists "none". cbn [updateStack announceToScreenReader snd].
    by destruct (liveRegion _).
  - by exists "".
Qed.

Lemma returnTool_spec name num d i :
  selector_safe name = true → selector_safe num = true →
  eid <$> find (matches_tool name num) (elements d) = Some i →
  ∃ d', returnTool (Some (name, num)) d = (Returns true, d')
        ∧ pools d' = pools (updateStackOf i (updateElement i returned d).2).2.
Proof.
  intros Hn Hm Hfind. unfold returnTool, bind, querySelector_tool.
  rewrite Hn, Hm, Hfind. cbn [andb get_state].
  unfold updateStackOf, bind, get_state.
  destruct (updateElement i returned d) as [r d1] eqn:E1.
  assert (r = Returns tt) as -> by (by inversion E1). cbn [snd].
  destruct (closestStack i d1) as [stack|].
  - destruct (updateStackCount (stackId stack) d1) as [[[]|err] d2] eqn:E.
    + cbn [announceToScreenReader ret snd]. eexists. split; [reflexivity|].
      by destruct (liveRegion _).
    + exfalso. revert E. unfold updateStackCount, bind, get_state.
      destruct (find _ (stacks d1)); [|done].
      by case_match.
  - cbn [ret announceToScreenReader snd]. eexists. split; [reflexivity|].
    by destruct (liveRegion _).
Qed.

Lemma findElement_updateStack i t g d :
  (∀ s, items (g s) = items s) →
  findElement i (updateStack t g d).2 = findElement i d.
Proof.
  intros Hg. unfold findElement, updateStack. cbn [snd].
  rewrite elements_map_doc; [by rewrite list_fmap_id|].
  intros s. by destruct (Nat.eqb (stackId s) t).
Qed.

Lemma matches_tool_checked_out name num time crew x :
  matches_tool name num (checked_out time crew x) = matches_tool name num x.
Proof.
  unfold matches_tool. cbn. rewrite contains_add.
  rewrite (bool_decide_eq_false_2 ("draggable" = "checked-out")) by done.
  by rewrite orb_false_r.
Qed.

Lemma classList_round_trip time crew x :
  contains "checked-out" (classList x) = false →
  classList (returned (checked_out time crew x)) = classList x.
Proof. intros H. cbn. by apply remove_add. Qed.

(** What the round trip makes of the items of a stack. *)
Lemma availableCount_round_trip i time crew e (s s' : Stack) :
  (∀ x, x ∈ items s → eid x = i → x = e) →
  contains "checked-out" (classList e) = false →
  labelClasses s' = labelClasses s →
  items s'
  = id <$> ((fun x => if Nat.eqb (eid x) i then returned x else x)
      <$> ((fun x => if Nat.eqb (eid x) i then checked_out time crew x else x)
      <$> items s)) →
  availableCount s' = availableCount s.
Proof.
  intros Huniq Hc Hl Hi. unfold availableCount. rewrite Hl, Hi. f_equal.
  rewrite list_fmap_id, <- list_fmap_compose.
  apply (length_filter_fmap_inv (fun e => available_class (classList e))).
  intros x Hx. unfold compose.
  destruct (Nat.eqb (eid x) i) eqn:E.
  - cbn [eid checked_out set_ariaGrabbed set_crew set_checkoutTime
         set_display set_classList]. rewrite E.
    apply Nat.eqb_eq in E. rewrite (Huniq x Hx E).
    by rewrite classList_round_trip.
  - by rewrite E.
Qed.

(** The round trip where the lookup resolves to the element itself.  Take
    a tool element that is not checked out and that the lookup by name and
    number finds (its name and number hold no quote, backslash or line
    break, and it is the first draggable element that carries them), on a
    page whose nodes are distinct, and a drop zone of a crew.  checkoutTool followed by returnTool returns true and leaves
    the element with the class list it had, display empty, no crew and no
    checkout time; the row checkoutTool added to the drop zone stays, for
    returnTool leaves the crew cards alone.  If the element is an item of a
    stack, the stack has as many available items as before and its badge
    shows that number: the badge is what it was whenever it was up to
    date. *)
Theorem checkout_then_return (d : Doc) (now : Date) (i z : nat)
    (e : Element) (crew : string) :
  distinct_nodes d →
  findElement i d = Some e →
  contains "checked-out" (classList e) = false →
  selector_safe (ds_toolName e) = true →
  selector_safe (ds_toolNumber e) = true →
  find (matches_tool (ds_toolName e) (ds_toolNumber e)) (elements d) = Some e →
  zone_crew (CrewZone z) d = Some crew → truthy_string crew = true →
  ∃ d' e',
    roundTrip now i (CrewZone z) d = (Returns true, d')
    ∧ findElement i d' = Some e'
    ∧ classList e' = classList e ∧ display e' = ""
    ∧ ds_crew e' = None ∧ ds_checkoutTime e' = None
    ∧ crewsContainer d'
      = crewsContainer
          (zone_append z
             (createCheckoutItem (ds_toolName e) (ds_toolNumber e)
                (toLocaleTimeString now) crew) d).2
    ∧ match closestStack i d with
      | None => closestStack i d' = None
      | Some s =>
          ∃ s', closestStack i d' = Some s'
                ∧ availableCount s' = availableCount s
                ∧ badgeText s' = pretty (availableCount s)
                ∧ (badgeText s = pretty (availableCount s) →
                   badgeText s' = badgeText s)
      end.
Proof.
  intros (Hne & Hns) Hf Hc Hsn Hsm Hfind Hz Ht.
  pose proof (findElement_eid _ _ _ Hf) as Hi.
  set (time := toLocaleTimeString now).
  set (upd1 := fun x => if Nat.eqb (eid x) i then checked_out time crew x
                        else x).
  set (upd2 := fun x => if Nat.eqb (eid x) i then returned x else x).
  assert (∀ x, eid (upd1 x) = eid x) as Hupd1.
  { intros x. unfold upd1. by destruct (Nat.eqb (eid x) i). }
  assert (∀ x, eid (upd2 x) = eid x) as Hupd2.
  { intros x. unfold upd2. by destruct (Nat.eqb (eid x) i). }
  destruct (checkoutTool_spec now i (CrewZone z) d e crew Hz Ht Hf)
    as (dA & EA & HpA & HcA).
  change (pools dA = pools (map_doc upd1 id d)) in HpA.
  assert (findElement i dA = Some (checked_out time crew e)) as HfA.
  { rewrite (findElement_pools _ _ _ HpA).
    by apply (findElement_updateElement i (checked_out time crew) d e). }
  assert (eid <$> find (matches_tool (ds_toolName e) (ds_toolNumber e))
                    (elements dA) = Some i) as HfindA.
  { rewrite (elements_pools _ _ HpA), elements_map_doc by done.
    rewrite find_fmap_inv, Hfind.
    - cbn. by rewrite Hupd1, Hi.
    - intros x. unfold upd1. destruct (Nat.eqb (eid x) i); [|done].
      apply matches_tool_checked_out. }
  destruct (returnTool_spec _ _ dA i Hsn Hsm HfindA) as (d' & ER & Hp').
  set (d2 := (updateElement i returned dA).2) in Hp'.
  assert (findElement i d2 = Some (returned (checked_out time crew e)))
    as Hf2.
  { by apply (findElement_updateElement i returned dA). }
  assert (closestStack i d2
          = (fun s => set_items (upd2 <$> items s) s)
              <$> ((fun s => set_items (upd1 <$> items s) s)
              <$> closestStack i d)) as Hcs2.
  { unfold d2, updateElement. cbn [snd].
    rewrite (closestStack_map_doc i upd2 id) by done.
    rewrite (closestStack_pools _ _ _ HpA).
    by rewrite (closestStack_map_doc i upd1 id). }
  assert (stackId <$> stacks d2 = stackId <$> stacks d) as Hids.
  { unfold d2, updateElement. cbn [snd].
    rewrite stackIds_map_doc by done.
    rewrite (stacks_pools _ _ HpA). by rewrite stackIds_map_doc. }
  assert (crewsContainer d' = crewsContainer dA) as Hcrews.
  { pose proof (crews_returnTool (crewsContainer dA)
                  (Some (ds_toolName e, ds_toolNumber e)) dA eq_refl) as H.
    by rewrite ER in H. }
  rewrite HcA in Hcrews.
  exists d', (returned (checked_out time crew e)).
  split.
  { unfold roundTrip, bind. rewrite EA. cbn [get_state]. rewrite HfA.
    exact ER. }
  unfold updateStackOf, bind, get_state in Hp'. rewrite Hcs2 in Hp'.
  destruct (closestStack i d) as [s|] eqn:Hcs.
  - cbn [fmap option_fmap option_map] in Hp', Hcs2.
    set (s2 := set_items (upd2 <$> items (set_items (upd1 <$> items s) s))
                 (set_items (upd1 <$> items s) s)) in *.
    destruct (closestStack_in _ _ _ Hcs2) as (Hin2 & _).
    destruct (updateStackCount_spec d2 s2) as (dsp & Hbadge);
      [by rewrite Hids|done|].
    rewrite Hbadge in Hp'.
    split; [|split; [by apply classList_round_trip|]].
    { rewrite (findElement_pools _ _ _ Hp').
      by rewrite findElement_updateStack. }
    repeat split; try done.
    assert (availableCount s2 = availableCount s) as Hcount.
    { apply (availableCount_round_trip i time crew e); try done.
      - intros x Hx Hxi. destruct (closestStack_in _ _ _ Hcs) as (Hin & _).
        apply (NoDup_fmap_eq eid (elements d)); try done.
        + by apply (stack_items_elements d s).
        + apply find_some in Hf as (Hf & _). by apply list_elem_of_In.
        + by rewrite Hxi.
      - cbn. by rewrite list_fmap_id. }
    eexists. split.
    { rewrite (closestStack_pools _ _ _ Hp'). unfold updateStack.
      cbn [snd]. rewrite (closestStack_map_doc i id) by
        (try done; intros x; by destruct (Nat.eqb (stackId x) _)).
      rewrite Hcs2. cbn [fmap option_fmap option_map].
      rewrite list_fmap_id.
      replace (set_items (items s2) s2) with s2 by (by destruct s2).
      by rewrite Nat.eqb_refl. }
    cbn [badgeText set_badge]. rewrite Hcount. split; [|split; [done|]].
    + unfold availableCount in *. exact Hcount.
    + by intros ->.
  - cbn [fmap option_fmap option_map] in Hp', Hcs2.
    split; [|split; [by apply classList_round_trip|]].
    { by rewrite (findElement_pools _ _ _ Hp'). }
    repeat split; try done.
    by rewrite (closestStack_pools _ _ _ Hp').
Qed.

(** Claw Hammer #2 of the opened page, checked out to crew 1 and
    returned. *)
Lemma checkout_then_return_witness :
  ∃ e, findElement 2 (doc opened) = Some e
  ∧ ∃ d' e',
    roundTrip Storage.nov_1 2 (CrewZone 0) (doc opened) = (Returns true, d')
    ∧ findElement 2 d' = Some e'
    ∧ classList e' = classList e ∧ display e' = ""
    ∧ ds_crew e' = None ∧ ds_checkoutTime e' = None
    ∧ crewsContainer d'
      = crewsContainer
          (zone_append 0
             (createCheckoutItem (ds_toolName e) (ds_toolNumber e)
                (toLocaleTimeString Storage.nov_1) "1") (doc opened)).2
    ∧ match closestStack 2 (doc opened) with
      | None => closestStack 2 d' = None
      | Some s =>
          ∃ s', closestStack 2 d' = Some s'
                ∧ availableCount s' = availableCount s
                ∧ badgeText s' = pretty (availableCount s)
                ∧ (badgeText s = pretty (availableCount s) →
                   badgeText s' = badgeText s)
      end.
Proof.
  eexists. split; [vm_compute; reflexivity|].
  apply (checkout_then_return (doc opened) Storage.nov_1 2 0 _ "1").
  - split; apply (bool_decide_unpack _); vm_compute; exact I.
  - vm_compute; reflexivity.
  - vm_compute; reflexivity.
  - vm_compute; reflexivity.
  - vm_compute; reflexivity.
  - vm_compute; reflexivity.
  - vm_compute; reflexivity.
  - vm_compute; reflexivity.
Defined.

(** C2 fails on the page.  A second Claw Hammer, quantity 2, is added: the
    items of its stack carry the name and the numbers 1 and 2 that items of
    the first stack carry.  The new item number 1 is available and the
    badge of its stack reads 2.  Checked out to crew 1 and handed to
    [returnTool], it stays checked out with the crew and the time, although
    [returnTool] answers true: the element [returnTool] released is the one
    its lookup by name and number finds, Claw Hammer #1 of the first stack.
    On the page, after the drag onto crew 1 and the click on Return, the
    crew card is empty and a snapshot lists no checkout, yet the item is
    still checked out and hidden, the badge of its stack reads 1, and a
    drag of it is refused. *)
Theorem returnTool_releases_a_namesake :
  ¬ round_trip_restores
  ∧ (∃ e s, findElement 329 (doc second_claw_hammer) = Some e
            ∧ ds_toolName e = "Claw Hammer" ∧ ds_toolNumber e = "1"
            ∧ available e = true
            ∧ closestStack 329 (doc second_claw_hammer) = Some s
            ∧ badgeText s = "2")
  ∧ (∃ e0, findElement 1 (doc second_claw_hammer) = Some e0
           ∧ ds_toolName e0 = "Claw Hammer" ∧ ds_toolNumber e0 = "1")
  ∧ (roundTrip Storage.nov_1 329 (CrewZone 0) (doc second_claw_hammer)).1
    = Returns true
  ∧ (∃ e', findElement 329
             (roundTrip Storage.nov_1 329 (CrewZone 0)
                (doc second_claw_hammer)).2 = Some e'
           ∧ available e' = false
           ∧ ds_crew e' = Some "1"
           ∧ ds_checkoutTime e' = Some "07:30 AM")
  ∧ (∃ e' s', findElement 329 (doc namesake_returned) = Some e'
              ∧ contains "checked-out" (classList e') = true
              ∧ display e' = "none"
              ∧ ds_crew e' = Some "1"
              ∧ ds_checkoutTime e' = Some "07:30 AM"
              ∧ closestStack 329 (doc namesake_returned) = Some s'
              ∧ badgeText s' = "1")
  ∧ Forall (fun zone => zoneItems zone = []) (zones (doc namesake_returned))
  ∧ getCheckoutData (doc namesake_returned) = []
  ∧ (handleDragStart 329 namesake_returned).1 = Returns true.
Proof.
  split.
  { intros H.
    edestruct (H (doc second_claw_hammer) Storage.nov_1 329 0)
      as (e' & s' & H1 & H2 & _).
    - vm_compute; reflexivity.
    - vm_compute; reflexivity.
    - vm_compute; reflexivity.
    - vm_compute; reflexivity.
    - vm_compute; reflexivity.
    - vm_compute in H1. injection H1 as <-. vm_compute in H2.
      discriminate H2. }
  split.
  { eexists _, _. split; [vm_compute; reflexivity|].
    do 3 (split; [vm_compute; reflexivity|]).
    split; vm_compute; reflexivity. }
  split.
  { eexists. split; [vm_compute; reflexivity|].
    split; vm_compute; reflexivity. }
  split; [vm_compute; reflexivity|].
  split.
  { eexists. split; [vm_compute; reflexivity|].
    do 2 (split; [vm_compute; reflexivity|]). vm_compute; reflexivity. }
  split.
  { eexists _, _. split; [vm_compute; reflexivity|].
    do 5 (split; [vm_compute; reflexivity|]). vm_compute; reflexivity. }
  split.
  { apply (bool_decide_unpack _). vm_compute. exact I. }
  split; vm_compute; reflexivity.
Qed.

(** C1 fails on the page.  Claw Hammer #3 is dragged to the broken pool and
    from there onto the drop zone of crew 2: the element then carries both
    the class broken and the class checked-out, it is still a child of the
    broken pool, and a snapshot lists the tool among the broken tools and
    among the tools checked out to crew 2. *)
Theorem broken_tool_dropped_on_a_crew :
  let w := run [Drag 3 Storage.nov_1 (Some (PoolZone 9));
                Drag 3 Storage.nov_1 (Some (CrewZone 1))] opened in
  (∃ e, findElement 3 (doc w) = Some e
        ∧ ds_toolName e = "Claw Hammer" ∧ ds_toolNumber e = "3"
        ∧ contains "broken" (classList e) = true
        ∧ contains "checked-out" (classList e) = true
        ∧ ds_crew e = Some "2")
  ∧ getBrokenToolsData (doc w) = [("Claw Hammer", "3")]
  ∧ getCheckoutData (doc w)
    = [("2", [{| co_tool := "Claw Hammer"; co_number := "3";
                 co_crew := "2"; co_time := "07:30 AM" |}])].
Proof.
  split; [|split].
  - eexists. split; [vm_compute; reflexivity|]. by vm_compute.
  - vm_compute; reflexivity.
  - vm_compute; reflexivity.
Qed.

End PageFacts.

Module Aliasing.
Import Js Config Dom Tools Crews Page.

(** C8, as stated, fails for [getDraggedElement]: the page is open, the
    first Claw Hammer is the dragged element, and the class the drag module
    puts on the element it was handed shows in what the state refers to. *)
Lemma getDraggedElement_returns_the_element : ¬ dragged_element_is_a_copy.
Proof.
  intros H.
  specialize (H (on_app (AppState.setDraggedElement (Some 1)) opened).2 1 grab
                eq_refl).
  vm_compute in H. discriminate H.
Qed.

End Aliasing.

Module StorageFacts.
Import Js Storage.

Lemma getItem_read key d st : getItem key d st = (Returns (read st key d), st).
Proof.
  unfold getItem, read, stored, try_catch, bind, ls_getItem, ret.
  destruct (isAvailable st); simpl; [|done].
  destruct (ls_denied (localStorage st)); simpl; [done|].
  destruct (ls_items (localStorage st) !! key) as [[| v |]|]; done.
Qed.

Lemma working_put st key p : working st → working (put st key p).
Proof. intros (?&?&?). by repeat split. Qed.

Lemma working_del st key : working st → working (del st key).
Proof. intros (?&?&?). by repeat split. Qed.

Lemma setItem_working key v st :
  working st → setItem key v st = (Returns true, put st key (JsonText v)).
Proof.
  intros (Ha & Hd & Hq). unfold setItem, try_catch, bind, ls_setItem, ret.
  rewrite Ha; simpl. rewrite Hd, Hq. done.
Qed.

Lemma removeItem_working key st :
  working st → removeItem key st = (Returns true, del st key).
Proof.
  intros (Ha & Hd & Hq). unfold removeItem, try_catch, bind, ls_removeItem, ret.
  rewrite Ha; simpl. rewrite Hd. done.
Qed.

Lemma read_working key d st :
  working st →
  read st key d = match stored st key with Some (JsonText v) => v | _ => d end.
Proof. intros (Ha & Hd & _). unfold read. by rewrite Ha, Hd. Qed.

Lemma stored_put st key p k :
  stored (put st key p) k = if decide (key = k) then Some p else stored st k.
Proof. unfold stored, put; simpl. apply lookup_insert. Qed.

Lemma stored_del st key k :
  stored (del st key) k = if decide (key = k) then None else stored st k.
Proof. unfold stored, del; simpl. apply lookup_delete. Qed.

(** **** Keys *)

Lemma historyKey_inj a b : historyKey a = historyKey b → a = b.
Proof. unfold historyKey. intros H. injection H. intros E. exact E. Qed.

Lemma historyKey_not_index k : historyKey k ≠ "toolHistoryIndex".
Proof. unfold historyKey. intros H. inversion H. Qed.

Lemma historyKey_not_schedule k : historyKey k ≠ Config.STORAGE_KEYS.SCHEDULE.
Proof. unfold historyKey. intros H. inversion H. Qed.

Lemma historyKey_not_date k : historyKey k ≠ Config.STORAGE_KEYS.DATE.
Proof. unfold historyKey. intros H. inversion H. Qed.

(** **** Writes either happen or leave the store alone *)

Lemma setItem_cases key v st :
  setItem key v st = (Returns true, put st key (JsonText v))
  ∨ setItem key v st = (Returns false, st).
Proof.
  unfold setItem, try_catch, bind, ls_setItem, ret, put, JSON_stringify.
  destruct (isAvailable st); simpl; [|by right].
  destruct (ls_denied (localStorage st)); [by right|].
  destruct (ls_accepts _ _ _); [by left|by right].
Qed.

Lemma removeItem_cases key st :
  removeItem key st = (Returns true, del st key)
  ∨ removeItem key st = (Returns false, st).
Proof.
  unfold removeItem, try_catch, bind, ls_removeItem, ret, del.
  destruct (isAvailable st); simpl; [|by right].
  destruct (ls_denied (localStorage st)); [by right|by left].
Qed.

Lemma removeAll_frame keys st :
  ∃ st', removeAll keys st = (Returns tt, st')
    ∧ ∀ k, (∀ x, x ∈ keys → historyKey (to_string x) ≠ k) →
           stored st' k = stored st k.
Proof.
  revert st. induction keys as [|x keys IH]; intros st; simpl.
  - exists st. done.
  - unfold bind.
    destruct (removeItem_cases (historyKey (to_string x)) st) as [-> | ->].
    + destruct (IH (del st (historyKey (to_string x)))) as (st' & -> & Hf).
      exists st'. split; [done|]. intros k Hk.
      rewrite Hf by (intros y Hy; apply Hk; by right).
      rewrite stored_del. case_decide as E; [|done].
      exfalso. eapply Hk; [by left|done].
    + destruct (IH st) as (st' & -> & Hf).
      exists st'. split; [done|]. intros k Hk.
      apply Hf. intros y Hy; apply Hk; by right.
Qed.

(** **** The index *)

Lemma existsb_strict_eq (k : string) (l : list string) :
  existsb (fun x => strict_eq_string x k) (JStr <$> l) = bool_decide (k ∈ l).
Proof.
  induction l as [|a l IH].
  - symmetry. apply bool_decide_eq_false_2. by intros ?%elem_of_nil.
  - cbn [fmap list_fmap existsb strict_eq_string]. rewrite IH. destruct (decide (a = k)) as [->|Hne].
    + rewrite bool_decide_eq_true_2 by done. simpl.
      symmetry. apply bool_decide_eq_true. by left.
    + rewrite (bool_decide_eq_false_2 (a = k)) by done. simpl.
      apply bool_decide_ext. rewrite elem_of_cons. intuition congruence.
Qed.

Lemma index_ok_read st :
  index_ok st →
  ∃ l, read st "toolHistoryIndex" (JArr []) = JArr (JStr <$> l)
       ∧ NoDup l ∧ length l ≤ 90.
Proof.
  unfold index_ok, read. intros H.
  destruct (negb (isAvailable st));
    [exists []; split; [done|split; [constructor|simpl; lia]]|].
  destruct (ls_denied _);
    [exists []; split; [done|split; [constructor|simpl; lia]]|].
  destruct (stored st "toolHistoryIndex") as [[| v |]|];
    try (exists []; split; [done|split; [constructor|simpl; lia]]).
  destruct H as (l & -> & ? & ?). by exists l.
Qed.

Lemma index_ok_put_index st (l : list string) :
  NoDup l → length l ≤ 90 →
  index_ok (put st "toolHistoryIndex" (JsonText (JArr (JStr <$> l)))).
Proof.
  intros. unfold index_ok. rewrite stored_put, decide_True by done.
  by exists l.
Qed.

Lemma index_ok_frame st st' :
  stored st' "toolHistoryIndex" = stored st "toolHistoryIndex" →
  index_ok st → index_ok st'.
Proof. unfold index_ok. by intros ->. Qed.

Lemma NoDup_take {A} (l : list A) n : NoDup l → NoDup (take n l).
Proof.
  intros H. rewrite <- (take_drop n l) in H.
  by apply NoDup_app in H as (? & _ & _).
Qed.

Lemma updateHistoryIndex_ok k st :
  index_ok st → index_ok (updateHistoryIndex k st).2.
Proof.
  intros Hok. unfold updateHistoryIndex, bind. rewrite getItem_read.
  destruct (index_ok_read st Hok) as (l & -> & Hnd & Hlen).
  rewrite existsb_strict_eq.
  destruct (decide (k ∈ l)) as [Hin|Hnin].
  { rewrite bool_decide_eq_true_2 by done. done. }
  rewrite bool_decide_eq_false_2 by done.
  change (negb false) with true. cbv beta iota.
  assert (Hnd' : NoDup (k :: l)) by (by constructor).
  change (JStr k :: (JStr <$> l)) with (JStr <$> (k :: l)).
  destruct (Nat.ltb 90 (length (JStr <$> k :: l))) eqn:Hlt.
  - rewrite <- fmap_drop, <- fmap_take.
    destruct (removeAll_frame (JStr <$> drop 90 (k :: l)) st)
      as (st1 & -> & Hf).
    assert (Hidx : stored st1 "toolHistoryIndex" = stored st "toolHistoryIndex").
    { apply Hf. intros x _. apply historyKey_not_index. }
    destruct (setItem_cases "toolHistoryIndex"
                (JArr (JStr <$> take 90 (k :: l))) st1) as [-> | ->];
      cbv beta iota delta [snd ret].
    + apply index_ok_put_index; [by apply NoDup_take|].
      rewrite length_take. lia.
    + by apply (index_ok_frame st).
  - apply Nat.ltb_ge in Hlt. rewrite length_fmap in Hlt.
    destruct (setItem_cases "toolHistoryIndex" (JArr (JStr <$> k :: l)) st)
      as [-> | ->]; cbv beta iota delta [snd ret].
    + by apply index_ok_put_index.
    + done.
Qed.

Lemma saveToHistory_ok now data dateKey st :
  index_ok st → index_ok (saveToHistory now data dateKey st).2.
Proof.
  intros Hok. unfold saveToHistory, bind.
  set (key := resolveKey now dateKey).
  destruct (setItem_cases (historyKey key) (historyEntry now data key) st)
    as [-> | ->]; [|done].
  set (st1 := put st _ _).
  assert (Hok1 : index_ok st1).
  { apply (index_ok_frame st); [|done]. subst st1.
    rewrite stored_put, decide_False; [done|apply historyKey_not_index]. }
  pose proof (updateHistoryIndex_ok key st1 Hok1) as H.
  by destruct (updateHistoryIndex key st1) as [[[]|e] st2].
Qed.

Lemma save_calls_ok calls st : index_ok st → index_ok (save_calls calls st).
Proof.
  revert st. induction calls as [|c calls IH]; intros st Hok; [done|].
  apply IH. by apply saveToHistory_ok.
Qed.

(** **** A working store: what the calls compute *)

Lemma removeAll_evict (keys : list string) st :
  working st → removeAll (JStr <$> keys) st = (Returns tt, evict keys st).
Proof.
  revert st. induction keys as [|x keys IH]; intros st W; [done|].
  cbn [fmap list_fmap removeAll]. unfold bind.
  rewrite removeItem_working by done.
  apply IH. by apply working_del.
Qed.

Lemma working_evict keys st : working st → working (evict keys st).
Proof.
  revert st. induction keys as [|x keys IH]; intros st W; [done|].
  apply IH. by apply working_del.
Qed.

Lemma stored_evict_other keys st k :
  (∀ x, x ∈ keys → historyKey x ≠ k) →
  stored (evict keys st) k = stored st k.
Proof.
  revert st. induction keys as [|x keys IH]; intros st H; [done|].
  cbn [evict fold_left]. change (fold_left _ keys ?s) with (evict keys s).
  rewrite IH by (intros y Hy; apply H; by right).
  rewrite stored_del, decide_False; [done|]. apply H. by left.
Qed.

Lemma stored_evict_in keys st x :
  x ∈ keys → stored (evict keys st) (historyKey x) = None.
Proof.
  revert st. induction keys as [|y keys IH]; intros st Hin.
  - by apply elem_of_nil in Hin.
  - cbn [evict fold_left]. change (fold_left _ keys ?s) with (evict keys s).
    destruct (decide (x ∈ keys)) as [Hk|Hk]; [by apply IH|].
    apply elem_of_cons in Hin as [->|]; [|done].
    rewrite stored_evict_other.
    + by rewrite stored_del, decide_True.
    + intros z Hz E. apply historyKey_inj in E. by subst.
Qed.

Lemma read_put_other st key p k d :
  key ≠ k → read (put st key p) k d = read st k d.
Proof.
  intros Hne. unfold read. rewrite stored_put, decide_False by done. done.
Qed.

Lemma updateHistoryIndex_working k (l : list string) st :
  working st →
  read st "toolHistoryIndex" (JArr []) = JArr (JStr <$> l) →
  updateHistoryIndex k st
  = (Returns tt,
     if bool_decide (k ∈ l) then st
     else put (evict (drop 90 (k :: l)) st) "toolHistoryIndex"
            (JsonText (JArr (JStr <$> take 90 (k :: l))))).
Proof.
  intros W Hr. unfold updateHistoryIndex, bind. rewrite getItem_read, Hr.
  rewrite existsb_strict_eq.
  destruct (bool_decide (k ∈ l)); [done|].
  change (negb false) with true. cbv beta iota.
  change (JStr k :: (JStr <$> l)) with (JStr <$> (k :: l)).
  rewrite length_fmap.
  destruct (Nat.ltb 90 (length (k :: l))) eqn:Hlt.
  - rewrite <- fmap_drop, <- fmap_take.
    rewrite removeAll_evict by done.
    rewrite setItem_working by (by apply working_evict). done.
  - apply Nat.ltb_ge in Hlt.
    rewrite setItem_working by done.
    rewrite drop_ge, take_ge by done. done.
Qed.

Lemma saveToHistory_working now data dateKey (l : list string) st :
  working st →
  read st "toolHistoryIndex" (JArr []) = JArr (JStr <$> l) →
  let k := resolveKey now dateKey in
  let st1 := put st (historyKey k) (JsonText (historyEntry now data k)) in
  saveToHistory now data dateKey st
  = (Returns true,
     if bool_decide (k ∈ l) then st1
     else put (evict (drop 90 (k :: l)) st1) "toolHistoryIndex"
            (JsonText (JArr (JStr <$> take 90 (k :: l))))).
Proof.
  intros W Hr k st1. unfold saveToHistory, bind. fold k.
  rewrite setItem_working by done. fold st1.
  rewrite (updateHistoryIndex_working k l).
  - done.
  - by apply working_put.
  - subst st1. rewrite read_put_other; [done|apply historyKey_not_index].
Qed.

Lemma indexed_by_read st l :
  working st → indexed_by st l →
  read st "toolHistoryIndex" (JArr []) = JArr (JStr <$> l).
Proof. intros W H. rewrite read_working by done. by rewrite H. Qed.

Lemma saveToHistory_effect now data dateKey st :
  working st → index_ok st →
  let k := resolveKey now dateKey in
  ∃ st', saveToHistory now data dateKey st = (Returns true, st')
    ∧ working st'
    ∧ stored st' (historyKey k) = Some (JsonText (historyEntry now data k))
    ∧ ∀ k', k' ≠ "toolHistoryIndex" → (∀ x, k' ≠ historyKey x) →
            stored st' k' = stored st k'.
Proof.
  intros W Hok k.
  destruct (index_ok_read st Hok) as (l & Hr & Hnd & Hlen).
  rewrite (saveToHistory_working now data dateKey l) by done. fold k.
  set (st1 := put st (historyKey k) (JsonText (historyEntry now data k))).
  assert (W1 : working st1) by (by apply working_put).
  destruct (decide (k ∈ l)) as [Hin|Hnin].
  - rewrite bool_decide_eq_true_2 by done.
    eexists; split; [done|]. split; [done|]. split.
    + subst st1. by rewrite stored_put, decide_True.
    + intros k' _ Hk'. subst st1. rewrite stored_put, decide_False; [done|].
      intros E. by apply (Hk' k).
  - rewrite bool_decide_eq_false_2 by done.
    eexists; split; [done|]. split; [|split].
    + by apply working_put, working_evict.
    + rewrite stored_put, decide_False
        by (intros E; symmetry in E; by apply historyKey_not_index in E).
      rewrite stored_evict_other.
      * subst st1. by rewrite stored_put, decide_True.
      * intros x Hx E. apply historyKey_inj in E. subst x.
        change (drop 90 (k :: l)) with (drop 89 l) in Hx.
        apply Hnin. eapply (subseteq_drop 89 l), Hx.
    + intros k' Hidx Hk'.
      rewrite stored_put, decide_False by done.
      rewrite stored_evict_other by (intros x _ E; by apply (Hk' x)).
      subst st1. rewrite stored_put, decide_False; [done|].
      intros E. by apply (Hk' k).
Qed.

(** **** What the store guarantees *)

(** C7.  [getItem] never raises and leaves the store as it was.  It returns
    the decoded value when the key holds JSON text in a store that can be
    read, and the default when the key is absent, when the text is empty or
    does not parse, and when the store was probed unavailable or is
    blocked. *)
Theorem getItem_never_raises (key : string) (defaultValue : JValue)
    (st : Storage) :
  (∃ v, getItem key defaultValue st = (Returns v, st))
  ∧ (∀ v, isAvailable st = true → ls_denied (localStorage st) = false →
          stored st key = Some (JsonText v) →
          getItem key defaultValue st = (Returns v, st))
  ∧ (stored st key = None →
     getItem key defaultValue st = (Returns defaultValue, st))
  ∧ (stored st key = Some BadText ∨ stored st key = Some EmptyText →
     getItem key defaultValue st = (Returns defaultValue, st))
  ∧ (isAvailable st = false ∨ ls_denied (localStorage st) = true →
     getItem key defaultValue st = (Returns defaultValue, st)).
Proof.
  rewrite getItem_read. unfold read. repeat split.
  - by eexists.
  - intros v -> -> ->. done.
  - intros ->. by repeat case_match.
  - intros [-> | ->]; by repeat case_match.
  - intros [-> | ->]; [done|]. by case_match.
Qed.

Lemma getItem_never_raises_witness :
  getItem "answer" JNull with_answer = (Returns (JNum 42), with_answer).
Proof.
  apply (proj1 (proj2 (getItem_never_raises "answer" JNull with_answer)));
    vm_compute; reflexivity.
Defined.

Lemma index_ok_dates st :
  index_ok st →
  ∃ l, getHistoryDates st = (Returns (JArr (JStr <$> l)), st)
       ∧ NoDup l ∧ length l ≤ 90.
Proof.
  intros (l & Hr & ? & ?)%index_ok_read. exists l.
  unfold getHistoryDates. by rewrite getItem_read, Hr.
Qed.

(** C3.  Along every run of [saveToHistory] calls the index lists at most
    90 dates.  When the index is full and a date it does not list is saved,
    the new date goes to the front, the oldest date leaves the index, its
    record is deleted, and [loadFromHistory] of it returns null. *)
Theorem history_cap :
  (∀ calls st, index_ok st →
     ∃ l, getHistoryDates (save_calls calls st)
          = (Returns (JArr (JStr <$> l)), save_calls calls st)
          ∧ length l ≤ 90)
  ∧ (∀ now data dateKey (l : list string) oldest st,
       working st → indexed_by st l → NoDup l → length l = 90 →
       last l = Some oldest → resolveKey now dateKey ∉ l →
       ∃ st', saveToHistory now data dateKey st = (Returns true, st')
         ∧ indexed_by st' (resolveKey now dateKey :: take 89 l)
         ∧ (oldest ∉ resolveKey now dateKey :: take 89 l)
         ∧ stored st' (historyKey oldest) = None
         ∧ loadFromHistory oldest st' = (Returns JNull, st')).
Proof.
  split.
  - intros calls st Hok.
    destruct (index_ok_dates _ (save_calls_ok calls st Hok)) as (l & ? & ? & ?).
    by exists l.
  - intros now data dateKey l oldest st W Hidx Hnd Hlen Hlast Hnew.
    set (k := resolveKey now dateKey) in *.
    rewrite (saveToHistory_working now data dateKey l)
      by (by try apply indexed_by_read).
    fold k. rewrite bool_decide_eq_false_2 by done.
    apply last_Some in Hlast as (l' & ->).
    rewrite length_app in Hlen; simpl in Hlen.
    assert (Hl' : length l' = 89) by lia.
    change (drop 90 (k :: l' ++ [oldest])) with (drop 89 (l' ++ [oldest])).
    change (take 90 (k :: l' ++ [oldest])) with (k :: take 89 (l' ++ [oldest])).
    rewrite (take_app_length' l') by done.
    rewrite (drop_app_length' l') by done.
    eexists; split; [done|].
    assert (Hgone : stored
              (put (evict [oldest]
                      (put st (historyKey k)
                         (JsonText (historyEntry now data k))))
                 "toolHistoryIndex" (JsonText (JArr (JStr <$> k :: l'))))
              (historyKey oldest) = None).
    { rewrite stored_put, decide_False
        by (intros E; symmetry in E; by apply historyKey_not_index in E).
      apply stored_evict_in. by left. }
    split; [|split; [|split]].
    + unfold indexed_by. by rewrite stored_put, decide_True.
    + apply NoDup_app in Hnd as (_ & Hdisj & _).
      intros [->|Hin]%elem_of_cons.
      * apply Hnew. apply elem_of_app. right. by left.
      * apply (Hdisj _ Hin). by left.
    + done.
    + unfold loadFromHistory. rewrite getItem_read. unfold read.
      rewrite Hgone. by repeat case_match.
Qed.

Lemma history_cap_witness :
  ∃ st', saveToHistory nov_2 (JObj []) None after_ninety_days
         = (Returns true, st')
    ∧ indexed_by st' ("2026-11-02" :: take 89 (rev ninety_days))
    ∧ ("day-0" ∉ "2026-11-02" :: take 89 (rev ninety_days))
    ∧ stored st' (historyKey "day-0") = None
    ∧ loadFromHistory "day-0" st' = (Returns JNull, st').
Proof.
  apply (proj2 history_cap nov_2 (JObj []) None (rev ninety_days) "day-0"
           after_ninety_days).
  - vm_compute. repeat split.
  - vm_compute. reflexivity.
  - apply (bool_decide_unpack _). vm_compute. exact I.
  - vm_compute. reflexivity.
  - vm_compute. reflexivity.
  - apply (bool_decide_unpack _). vm_compute. exact I.
Defined.

(** **** What a history record holds *)

Lemma get_set_field k v fields : get_field k (set_field k v fields) = Some v.
Proof.
  induction fields as [|[k' v'] fields IH]; cbn.
  - by rewrite bool_decide_eq_true_2.
  - destruct (bool_decide (k' = k)) eqn:E; cbn.
    + by rewrite bool_decide_eq_true_2.
    + by rewrite E.
Qed.

Lemma get_set_field_ne k k0 v fields :
  k ≠ k0 → get_field k (set_field k0 v fields) = get_field k fields.
Proof.
  intros Hne. induction fields as [|[k' v'] fields IH]; cbn.
  - by rewrite bool_decide_eq_false_2 by done.
  - destruct (bool_decide (k' = k0)) eqn:E; cbn.
    + apply bool_decide_eq_true_1 in E. subst k'.
      by rewrite !bool_decide_eq_false_2 by done.
    + destruct (bool_decide (k' = k)); [done|apply IH].
Qed.

(** The record [{...scheduleData, savedAt, dateKey}] is an object with the
    key, the time of the save, and every other field of the snapshot. *)
Lemma historyEntry_fields now data key :
  ∃ fields, historyEntry now data key = JObj fields
    ∧ get_field "dateKey" fields = Some (JStr key)
    ∧ get_field "savedAt" fields = Some (JStr (toISOString now))
    ∧ (∀ k, k ≠ "savedAt" → k ≠ "dateKey" →
         get_field k fields = get_field k (spread data))
    ∧ (∀ fs k, data = JObj fs → k ≠ "savedAt" → k ≠ "dateKey" →
         get_field k fields = get_field k fs).
Proof.
  eexists. split; [reflexivity|]. split; [apply get_set_field|].
  assert (∀ k, k ≠ "savedAt" → k ≠ "dateKey" →
            get_field k (set_field "dateKey" (JStr key)
                           (set_field "savedAt" (JStr (toISOString now))
                              (spread data)))
            = get_field k (spread data)) as Hk.
  { intros k H1 H2. by rewrite !get_set_field_ne by done. }
  split; [|split].
  - rewrite get_set_field_ne by done. apply get_set_field.
  - exact Hk.
  - intros fs k -> H1 H2. by apply Hk.
Qed.

(** C10.  The index lists each date once.  Saving again under a date it
    already lists leaves the stored index as it was, same dates in the same
    order, and replaces that date's record: what [loadFromHistory] then
    returns is an object whose [dateKey] is the date, whose [savedAt] is
    the time of this save, and whose other fields are those of the
    snapshot just saved. *)
Theorem history_index_no_duplicates :
  (∀ calls st, index_ok st →
     ∃ l, getHistoryDates (save_calls calls st)
          = (Returns (JArr (JStr <$> l)), save_calls calls st)
          ∧ NoDup l)
  ∧ (∀ now data dateKey (l : list string) st,
       working st → indexed_by st l → resolveKey now dateKey ∈ l →
       ∃ st', saveToHistory now data dateKey st = (Returns true, st')
         ∧ indexed_by st' l
         ∧ getHistoryDates st' = (Returns (JArr (JStr <$> l)), st')
         ∧ ∃ fields,
             loadFromHistory (resolveKey now dateKey) st'
             = (Returns (JObj fields), st')
             ∧ get_field "dateKey" fields
               = Some (JStr (resolveKey now dateKey))
             ∧ get_field "savedAt" fields = Some (JStr (toISOString now))
             ∧ (∀ k, k ≠ "savedAt" → k ≠ "dateKey" →
                  get_field k fields = get_field k (spread data))
             ∧ (∀ fs k, data = JObj fs → k ≠ "savedAt" → k ≠ "dateKey" →
                  get_field k fields = get_field k fs)).
Proof.
  split.
  - intros calls st Hok.
    destruct (index_ok_dates _ (save_calls_ok calls st Hok)) as (l & ? & ? & ?).
    by exists l.
  - intros now data dateKey l st W Hidx Hin.
    set (k := resolveKey now dateKey) in *.
    rewrite (saveToHistory_working now data dateKey l)
      by (by try apply indexed_by_read).
    fold k. rewrite bool_decide_eq_true_2 by done.
    set (st1 := put st (historyKey k) (JsonText (historyEntry now data k))).
    assert (W1 : working st1) by (by apply working_put).
    assert (Hidx1 : indexed_by st1 l).
    { unfold indexed_by, st1.
      rewrite stored_put, decide_False; [done|apply historyKey_not_index]. }
    eexists; split; [done|]. split; [done|]. split.
    + unfold getHistoryDates. rewrite getItem_read.
      by rewrite (indexed_by_read st1 l).
    + destruct (historyEntry_fields now data k) as (fields & E & Hf).
      exists fields. split; [|exact Hf].
      unfold loadFromHistory. rewrite getItem_read, read_working by done.
      unfold st1. rewrite stored_put, decide_True by done. by rewrite E.
Qed.

Lemma history_index_no_duplicates_witness :
  ∃ st', saveToHistory nov_1 (JObj [("broken", JArr [])]) None after_nov_1
         = (Returns true, st')
    ∧ indexed_by st' ["2026-11-01"]
    ∧ getHistoryDates st' = (Returns (JArr (JStr <$> ["2026-11-01"])), st')
    ∧ ∃ fields,
        loadFromHistory "2026-11-01" st' = (Returns (JObj fields), st')
        ∧ get_field "dateKey" fields = Some (JStr "2026-11-01")
        ∧ get_field "savedAt" fields = Some (JStr (toISOString nov_1))
        ∧ get_field "broken" fields = Some (JArr []).
Proof.
  destruct (proj2 history_index_no_duplicates nov_1
              (JObj [("broken", JArr [])]) None ["2026-11-01"] after_nov_1)
    as (st' & E & Hi & Hg & fields & El & Hd & Hs & _ & Hk).
  - vm_compute. repeat split.
  - vm_compute. reflexivity.
  - apply (bool_decide_unpack _). vm_compute. exact I.
  - exists st'. split; [exact E|]. split; [exact Hi|]. split; [exact Hg|].
    exists fields. split; [exact El|]. split; [exact Hd|].
    split; [exact Hs|].
    by rewrite (Hk [("broken", JArr [])] "broken").
Defined.

(** **** Today's slot and the dated history *)

Lemma saveSchedule_working now data st :
  working st →
  saveSchedule now data st
  = (Returns true,
     put (put st Config.STORAGE_KEYS.SCHEDULE (JsonText data))
       Config.STORAGE_KEYS.DATE (JsonText (JStr (toDateString now)))).
Proof.
  intros W. unfold saveSchedule, bind.
  rewrite setItem_working by done.
  rewrite setItem_working by (by apply working_put). done.
Qed.

Lemma loadSchedule_working later st (marker : string) data :
  working st →
  stored st Config.STORAGE_KEYS.DATE = Some (JsonText (JStr marker)) →
  stored st Config.STORAGE_KEYS.SCHEDULE = Some (JsonText data) →
  loadSchedule later st
  = (Returns (if bool_decide (marker = toDateString later)
              then data else JNull), st).
Proof.
  intros W Hd Hs. unfold loadSchedule, isToday, bind.
  rewrite getItem_read, read_working, Hd by done.
  unfold ret, strict_eq_string, getCurrentDateString.
  destruct (bool_decide (marker = toDateString later)); [|done].
  by rewrite getItem_read, read_working, Hs.
Qed.

(** C4.  After the save of day D into today's slot and into the history,
    [loadSchedule] returns the snapshot as long as the clock prints D's
    date, and null once it prints another one, which it does on every other
    day of the calendar; [loadFromHistory] still returns D's record under
    D's key: an object whose [dateKey] is D's key, whose [savedAt] is the
    time of the save, and whose other fields are those of the snapshot. *)
Theorem staleness_guard (now : Date) (data : JValue) (st : Storage) :
  working st → index_ok st →
  ∃ st1 st2,
    saveSchedule now data st = (Returns true, st1)
    ∧ saveToHistory now data None st1 = (Returns true, st2)
    ∧ (∀ later, toDateString later = toDateString now →
         loadSchedule later st2 = (Returns data, st2))
    ∧ (∀ later, toDateString later ≠ toDateString now →
         loadSchedule later st2 = (Returns JNull, st2))
    ∧ (∀ later, valid_date now → valid_date later → ¬ same_day later now →
         loadSchedule later st2 = (Returns JNull, st2))
    ∧ ∃ fields,
        loadFromHistory (getDateKey now) st2 = (Returns (JObj fields), st2)
        ∧ get_field "dateKey" fields = Some (JStr (getDateKey now))
        ∧ get_field "savedAt" fields = Some (JStr (toISOString now))
        ∧ (∀ k, k ≠ "savedAt" → k ≠ "dateKey" →
             get_field k fields = get_field k (spread data))
        ∧ (∀ fs k, data = JObj fs → k ≠ "savedAt" → k ≠ "dateKey" →
             get_field k fields = get_field k fs).
Proof.
  intros W Hok. rewrite saveSchedule_working by done.
  set (st1 := put (put st _ _) _ _).
  assert (W1 : working st1) by (by do 2 apply working_put).
  assert (Hok1 : index_ok st1).
  { apply (index_ok_frame st); [|done]. unfold st1.
    by rewrite !stored_put, !decide_False. }
  destruct (saveToHistory_effect now data None st1 W1 Hok1)
    as (st2 & E & W2 & Hrec & Hframe).
  change (resolveKey now None) with (getDateKey now) in Hrec.
  exists st1, st2. split; [done|]. split; [done|].
  assert (Hd : stored st2 Config.STORAGE_KEYS.DATE
               = Some (JsonText (JStr (toDateString now)))).
  { rewrite Hframe; [|done|].
    - unfold st1. by rewrite stored_put, decide_True.
    - intros x E'. symmetry in E'. by apply historyKey_not_date in E'. }
  assert (Hs : stored st2 Config.STORAGE_KEYS.SCHEDULE = Some (JsonText data)).
  { rewrite Hframe; [|done|].
    - unfold st1. rewrite stored_put, decide_False by done.
      by rewrite stored_put, decide_True.
    - intros x E'. symmetry in E'. by apply historyKey_not_schedule in E'. }
  split; [|split; [|split]].
  - intros later Hl. rewrite (loadSchedule_working later st2 _ data) by done.
    by rewrite bool_decide_eq_true_2.
  - intros later Hl. rewrite (loadSchedule_working later st2 _ data) by done.
    by rewrite bool_decide_eq_false_2.
  - intros later Hv Hv' Hl.
    rewrite (loadSchedule_working later st2 _ data) by done.
    rewrite bool_decide_eq_false_2; [done|].
    intros Eq. apply Hl. by apply DateFacts.toDateString_inj.
  - destruct (historyEntry_fields now data (getDateKey now))
      as (fields & E' & Hf).
    exists fields. split; [|exact Hf].
    unfold loadFromHistory. rewrite getItem_read, read_working by done.
    by rewrite Hrec, E'.
Qed.

Lemma staleness_guard_witness :
  ∃ st1 st2,
    saveSchedule nov_1 (JObj [("broken", JArr [])]) fresh = (Returns true, st1)
    ∧ saveToHistory nov_1 (JObj [("broken", JArr [])]) None st1
      = (Returns true, st2)
    ∧ (∀ later, toDateString later = toDateString nov_1 →
         loadSchedule later st2
         = (Returns (JObj [("broken", JArr [])]), st2))
    ∧ (∀ later, toDateString later ≠ toDateString nov_1 →
         loadSchedule later st2 = (Returns JNull, st2))
    ∧ (∀ later, valid_date nov_1 → valid_date later →
         ¬ same_day later nov_1 →
         loadSchedule later st2 = (Returns JNull, st2))
    ∧ ∃ fields,
        loadFromHistory "2026-11-01" st2 = (Returns (JObj fields), st2)
        ∧ get_field "dateKey" fields = Some (JStr "2026-11-01")
        ∧ get_field "savedAt" fields = Some (JStr (toISOString nov_1))
        ∧ get_field "broken" fields = Some (JArr []).
Proof.
  destruct (staleness_guard nov_1 (JObj [("broken", JArr [])]) fresh)
    as (st1 & st2 & E1 & E2 & H1 & H2 & H3 & fields & El & Hd & Hs & _ & Hk).
  - vm_compute. repeat split.
  - vm_compute. exact I.
  - exists st1, st2. split; [exact E1|]. split; [exact E2|].
    split; [exact H1|]. split; [exact H2|]. split; [exact H3|].
    exists fields. split; [exact El|]. split; [exact Hd|].
    split; [exact Hs|].
    by rewrite (Hk [("broken", JArr [])] "broken").
Defined.

End StorageFacts.

(* ===================================================================== *)
(** * Further properties of the store                                     *)
(* ===================================================================== *)

Module StorageLaws.
Import Js Storage StorageFacts.

Lemma read_unfold st key d :
  isAvailable st = true → ls_denied (localStorage st) = false →
  read st key d = match stored st key with Some (JsonText v) => v | _ => d end.
Proof. intros Ha Hd. unfold read. by rewrite Ha, Hd. Qed.

Lemma setItem_writable key v st :
  writable st key (JsonText v) →
  setItem key v st = (Returns true, put st key (JsonText v)).
Proof.
  intros (Ha & Hd & Hq).
  unfold setItem, try_catch, bind, ls_setItem, ret, JSON_stringify.
  rewrite Ha. cbn [negb]. by rewrite Hd, Hq.
Qed.

Lemma setItem_not_writable key v st :
  ¬ writable st key (JsonText v) → setItem key v st = (Returns false, st).
Proof.
  intros Hn. unfold setItem, try_catch, bind, ls_setItem, ret, JSON_stringify.
  destruct (isAvailable st) eqn:Ha; [|done]. cbn [negb].
  destruct (ls_denied (localStorage st)) eqn:Hd; [done|].
  destruct (ls_accepts _ _ _) eqn:Hq; [|done].
  by destruct Hn.
Qed.

(** X1.  A write the store takes can be read back: [setItem] returns true,
    [getItem] of the key then returns the value written whatever the
    default, and what [getItem] returns for the other keys is what it
    returned before. *)
Theorem setItem_then_getItem (key : string) (v : JValue) (st : Storage) :
  writable st key (JsonText v) →
  ∃ st', setItem key v st = (Returns true, st')
    ∧ (∀ d, getItem key d st' = (Returns v, st'))
    ∧ (∀ k d, k ≠ key → (getItem k d st').1 = (getItem k d st).1).
Proof.
  intros Hw. pose proof Hw as (Ha & Hd & _).
  exists (put st key (JsonText v)). split; [by apply setItem_writable|].
  split.
  - intros d. rewrite getItem_read, read_unfold by done.
    by rewrite stored_put, decide_True.
  - intros k d Hk. rewrite !getItem_read. cbn [fst]. f_equal.
    rewrite !read_unfold by done. by rewrite stored_put, decide_False.
Qed.

Lemma setItem_then_getItem_witness :
  ∃ st', setItem "answer" (JNum 42) fresh = (Returns true, st')
    ∧ (∀ d, getItem "answer" d st' = (Returns (JNum 42), st'))
    ∧ (∀ k d, k ≠ "answer" → (getItem k d st').1 = (getItem k d fresh).1).
Proof.
  apply (setItem_then_getItem "answer" (JNum 42) fresh).
  vm_compute. by repeat split.
Defined.

(** X2.  [setItem] never throws, and it answers false exactly when the
    write cannot be made (the store was probed unavailable, is blocked, or
    has no room for the item): the store is then as it was. *)
Theorem setItem_fails_closed (key : string) (v : JValue) (st : Storage) :
  (∃ b st', setItem key v st = (Returns b, st'))
  ∧ (setItem key v st = (Returns false, st)
     ↔ ¬ writable st key (JsonText v)).
Proof.
  split.
  - destruct (setItem_cases key v st) as [E|E]; rewrite E; by eexists _, _.
  - split; [|apply setItem_not_writable].
    intros E Hw. rewrite (setItem_writable _ _ _ Hw) in E. by inversion E.
Qed.

(** X3.  [removeItem] on a store that is available and not blocked returns
    true, also for a key that holds nothing; [getItem] of the key then
    returns the default, and the other keys read as before.  On a store
    that is unavailable or blocked it returns false and removes nothing. *)
Theorem removeItem_then_getItem (key : string) (st : Storage) :
  (isAvailable st = true → ls_denied (localStorage st) = false →
   ∃ st', removeItem key st = (Returns true, st')
     ∧ (∀ d, getItem key d st' = (Returns d, st'))
     ∧ (∀ k d, k ≠ key → (getItem k d st').1 = (getItem k d st).1))
  ∧ (isAvailable st = false ∨ ls_denied (localStorage st) = true →
     removeItem key st = (Returns false, st)).
Proof.
  split.
  - intros Ha Hd. exists (del st key). split.
    { unfold removeItem, try_catch, bind, ls_removeItem, ret, del.
      rewrite Ha. cbn [negb]. by rewrite Hd. }
    split.
    + intros d. rewrite getItem_read, read_unfold by done.
      by rewrite stored_del, decide_True.
    + intros k d Hk. rewrite !getItem_read. cbn [fst]. f_equal.
      rewrite !read_unfold by done. by rewrite stored_del, decide_False.
  - unfold removeItem, try_catch, bind, ls_removeItem, ret.
    intros [Ha|Hd].
    + by rewrite Ha.
    + destruct (isAvailable st); [|done]. cbn [negb]. by rewrite Hd.
Qed.

Lemma removeItem_then_getItem_witness :
  ∃ st', removeItem "answer" with_answer = (Returns true, st')
    ∧ (∀ d, getItem "answer" d st' = (Returns d, st'))
    ∧ (∀ k d, k ≠ "answer" → (getItem k d st').1 = (getItem k d with_answer).1).
Proof.
  apply (removeItem_then_getItem "answer" with_answer); by vm_compute.
Defined.

(** X4.  [clear] on a store that is available and not blocked returns true
    and leaves nothing behind: every [getItem] returns its default,
    [loadSchedule] returns null and the history index reads as the empty
    list.  On a store that is unavailable or blocked it returns false and
    clears nothing. *)
Theorem clear_leaves_nothing (st : Storage) :
  (isAvailable st = true → ls_denied (localStorage st) = false →
   clear st = (Returns true, emptied st)
   ∧ (∀ k d, getItem k d (emptied st) = (Returns d, emptied st))
   ∧ (∀ now, loadSchedule now (emptied st) = (Returns JNull, emptied st))
   ∧ getHistoryDates (emptied st) = (Returns (JArr []), emptied st))
  ∧ (isAvailable st = false ∨ ls_denied (localStorage st) = true →
     clear st = (Returns false, st)).
Proof.
  split.
  - intros Ha Hd.
    assert (∀ k d, getItem k d (emptied st) = (Returns d, emptied st)) as Hg.
    { intros k d. rewrite getItem_read, read_unfold by done.
      unfold stored, emptied. cbn. by rewrite lookup_empty. }
    split.
    { unfold clear, try_catch, bind, ls_clear, ret, emptied.
      rewrite Ha. cbn [negb]. by rewrite Hd. }
    split; [done|]. split; [|apply Hg].
    intros now. unfold loadSchedule, isToday, bind. by rewrite Hg.
  - unfold clear, try_catch, bind, ls_clear, ret.
    intros [Ha|Hd].
    + by rewrite Ha.
    + destruct (isAvailable st); [|done]. cbn [negb]. by rewrite Hd.
Qed.

Lemma clear_leaves_nothing_witness :
  clear with_answer = (Returns true, emptied with_answer)
  ∧ (∀ k d, getItem k d (emptied with_answer)
            = (Returns d, emptied with_answer))
  ∧ (∀ now, loadSchedule now (emptied with_answer)
            = (Returns JNull, emptied with_answer))
  ∧ getHistoryDates (emptied with_answer)
    = (Returns (JArr []), emptied with_answer).
Proof.
  apply (clear_leaves_nothing with_answer); by vm_compute.
Defined.

(** X5.  [saveSchedule] reports the outcome of its first write alone.  When
    the schedule cannot be written it returns false and writes nothing.  When
    the schedule is written and the date marker is refused it still returns
    true, and unless the marker already held today's date the schedule just
    saved is not loaded back: [loadSchedule] returns null. *)
Theorem saveSchedule_reports_the_first_write (now : Date) (data : JValue)
    (st : Storage) :
  (¬ writable st Config.STORAGE_KEYS.SCHEDULE (JsonText data) →
   saveSchedule now data st = (Returns false, st))
  ∧ (writable st Config.STORAGE_KEYS.SCHEDULE (JsonText data) →
     ls_accepts (localStorage st) Config.STORAGE_KEYS.DATE
       (JsonText (JStr (toDateString now))) = false →
     stored st Config.STORAGE_KEYS.DATE
       ≠ Some (JsonText (JStr (toDateString now))) →
     ∃ st', saveSchedule now data st = (Returns true, st')
       ∧ stored st' Config.STORAGE_KEYS.SCHEDULE = Some (JsonText data)
       ∧ loadSchedule now st' = (Returns JNull, st')).
Proof.
  split.
  - intros Hn. unfold saveSchedule, bind.
    by rewrite (setItem_not_writable _ _ _ Hn).
  - intros Hw Hq Hm. pose proof Hw as (Ha & Hd & _).
    exists (put st Config.STORAGE_KEYS.SCHEDULE (JsonText data)).
    split.
    { unfold saveSchedule, bind. rewrite (setItem_writable _ _ _ Hw).
      rewrite setItem_not_writable; [done|].
      intros (_ & _ & Hq'). cbn in Hq'. unfold getCurrentDateString in Hq'.
      congruence. }
    split; [by rewrite stored_put, decide_True|].
    unfold loadSchedule, isToday, bind. rewrite getItem_read.
    rewrite read_unfold by done. rewrite stored_put, decide_False by done.
    unfold getCurrentDateString, ret.
    destruct (stored st Config.STORAGE_KEYS.DATE) as [[|v|]|] eqn:E;
      try done.
    destruct v as [| | |t| |]; try done.
    cbn [strict_eq_string]. rewrite bool_decide_eq_false_2; [done|].
    intros ->. by destruct Hm.
Qed.

Lemma saveSchedule_reports_the_first_write_witness :
  ∃ st', saveSchedule nov_1 (JObj []) no_room_for_the_date = (Returns true, st')
    ∧ stored st' Config.STORAGE_KEYS.SCHEDULE = Some (JsonText (JObj []))
    ∧ loadSchedule nov_1 st' = (Returns JNull, st').
Proof.
  apply (saveSchedule_reports_the_first_write nov_1 (JObj [])
           no_room_for_the_date); by vm_compute.
Defined.

Lemma filter_strict_eq (k : string) (l : list string) :
  filter (fun x => strict_eq_string x k = false) (JStr <$> l)
  = JStr <$> filter (fun x => x ≠ k) l.
Proof.
  induction l as [|x l IH]; [done|].
  rewrite fmap_cons, !filter_cons. cbn [strict_eq_string].
  destruct (decide (x = k)) as [->|Hx].
  - rewrite bool_decide_eq_true_2 by done.
    rewrite decide_False by done. rewrite decide_False by (by intros ?).
    exact IH.
  - rewrite bool_decide_eq_false_2 by done.
    rewrite decide_True by done. rewrite decide_True by done.
    by rewrite fmap_cons, IH.
Qed.

Lemma deleteHistoryEntry_working dateKey (l : list string) st :
  working st →
  read st "toolHistoryIndex" (JArr []) = JArr (JStr <$> l) →
  deleteHistoryEntry dateKey st
  = (Returns true,
     put (del st (historyKey dateKey)) "toolHistoryIndex"
       (JsonText (JArr (JStr <$> filter (fun k => k ≠ dateKey) l)))).
Proof.
  intros W Hr. unfold deleteHistoryEntry, bind.
  rewrite removeItem_working by done. rewrite getItem_read.
  assert (read (del st (historyKey dateKey)) "toolHistoryIndex" (JArr [])
          = JArr (JStr <$> l)) as ->.
  { rewrite <- Hr. rewrite !read_working by (try apply working_del; done).
    rewrite stored_del, decide_False; [done|apply historyKey_not_index]. }
  rewrite setItem_working by (by apply working_del).
  by rewrite filter_strict_eq.
Qed.

(** X6.  In a store that works, [deleteHistoryEntry] returns true, also for
    a date that was never saved; afterwards [loadFromHistory] of the date
    returns null, the index lists the dates it listed except that one, in
    the same order, and the records of the other dates are untouched. *)
Theorem deleteHistoryEntry_removes (dateKey : string) (l : list string)
    (st : Storage) :
  working st →
  read st "toolHistoryIndex" (JArr []) = JArr (JStr <$> l) →
  ∃ st', deleteHistoryEntry dateKey st = (Returns true, st')
    ∧ getHistoryDates st'
      = (Returns (JArr (JStr <$> filter (fun k => k ≠ dateKey) l)), st')
    ∧ loadFromHistory dateKey st' = (Returns JNull, st')
    ∧ (∀ k, k ≠ dateKey → loadFromHistory k st'
                           = (Returns (read st (historyKey k) JNull), st')).
Proof.
  intros W Hr. rewrite (deleteHistoryEntry_working dateKey l) by done.
  set (st' := put _ _ _).
  assert (working st') as W' by (by apply working_put, working_del).
  exists st'. split; [done|]. split; [|split].
  - unfold getHistoryDates. rewrite getItem_read, read_working by done.
    unfold st'. by rewrite stored_put, decide_True.
  - unfold loadFromHistory. rewrite getItem_read, read_working by done.
    unfold st'. rewrite stored_put, decide_False
      by (intros E; symmetry in E; by apply historyKey_not_index in E).
    by rewrite stored_del, decide_True.
  - intros k Hk. unfold loadFromHistory.
    rewrite getItem_read, !read_working by done.
    unfold st'. rewrite stored_put, decide_False
      by (intros E; symmetry in E; by apply historyKey_not_index in E).
    rewrite stored_del, decide_False; [done|].
    intros E. by apply historyKey_inj in E.
Qed.

Lemma deleteHistoryEntry_removes_witness :
  ∃ st', deleteHistoryEntry "2026-11-01" after_nov_1 = (Returns true, st')
    ∧ getHistoryDates st'
      = (Returns (JArr (JStr <$> filter (fun k => k ≠ "2026-11-01")
                                   ["2026-11-01"])), st')
    ∧ loadFromHistory "2026-11-01" st' = (Returns JNull, st')
    ∧ (∀ k, k ≠ "2026-11-01" →
         loadFromHistory k st'
         = (Returns (read after_nov_1 (historyKey k) JNull), st')).
Proof.
  apply (deleteHistoryEntry_removes "2026-11-01" ["2026-11-01"] after_nov_1).
  - vm_compute. by repeat split.
  - by vm_compute.
Defined.

(** X7.  A stored index that is neither an array nor a string (null, a
    number, a boolean, an object) makes the history calls throw TypeError
    instead of returning false, and they throw after they have touched the
    record: [saveToHistory] has written it, [deleteHistoryEntry] has removed
    it. *)
Theorem malformed_index_throws (v : JValue) (st : Storage) :
  working st →
  stored st "toolHistoryIndex" = Some (JsonText v) →
  (∀ items, v ≠ JArr items) → (∀ s, v ≠ JStr s) →
  (∀ now data dateKey,
     saveToHistory now data dateKey st
     = (Throws TypeError,
        put st (historyKey (resolveKey now dateKey))
          (JsonText (historyEntry now data (resolveKey now dateKey)))))
  ∧ (∀ dateKey,
       deleteHistoryEntry dateKey st
       = (Throws TypeError, del st (historyKey dateKey))).
Proof.
  intros W Hs Ha Hb. split.
  - intros now data dateKey. unfold saveToHistory, bind.
    rewrite setItem_working by done.
    unfold updateHistoryIndex, bind. rewrite getItem_read.
    rewrite read_working by (by apply working_put).
    rewrite stored_put, decide_False by apply historyKey_not_index.
    rewrite Hs. destruct v; try done.
    + by destruct (Hb s).
    + by destruct (Ha items).
  - intros dateKey. unfold deleteHistoryEntry, bind.
    rewrite removeItem_working by done. rewrite getItem_read.
    rewrite read_working by (by apply working_del).
    rewrite stored_del, decide_False by apply historyKey_not_index.
    rewrite Hs. destruct v; try done. by destruct (Ha items).
Qed.

Lemma malformed_index_throws_witness :
  (∀ now data dateKey,
     saveToHistory now data dateKey
       (put fresh "toolHistoryIndex" (JsonText JNull))
     = (Throws TypeError,
        put (put fresh "toolHistoryIndex" (JsonText JNull))
          (historyKey (resolveKey now dateKey))
          (JsonText (historyEntry now data (resolveKey now dateKey)))))
  ∧ (∀ dateKey,
       deleteHistoryEntry dateKey
         (put fresh "toolHistoryIndex" (JsonText JNull))
       = (Throws TypeError,
          del (put fresh "toolHistoryIndex" (JsonText JNull))
            (historyKey dateKey))).
Proof.
  apply (malformed_index_throws JNull
           (put fresh "toolHistoryIndex" (JsonText JNull))).
  - vm_compute. by repeat split.
  - by vm_compute.
  - done.
  - done.
Defined.

(** **** The index and the records stay together *)

Lemma read_index_put st (l : list string) :
  working st →
  read (put st "toolHistoryIndex" (JsonText (JArr (JStr <$> l))))
    "toolHistoryIndex" (JArr [])
  = JArr (JStr <$> l).
Proof.
  intros W. rewrite read_working by (by apply working_put).
  by rewrite stored_put, decide_True.
Qed.

Lemma history_inv_save now data dateKey st l :
  history_inv st l →
  ∃ l', history_inv (saveToHistory now data dateKey st).2 l'.
Proof.
  intros (W & Hr & Hnd & Hlen & Hrec).
  rewrite (saveToHistory_working now data dateKey l) by done. cbn zeta.
  set (k := resolveKey now dateKey).
  set (st1 := put st (historyKey k) _).
  assert (working st1) as W1 by (by apply working_put).
  assert (∀ k', k' ∈ k :: l →
            ∃ fields, stored st1 (historyKey k') = Some (JsonText (JObj fields))
                      ∧ get_field "dateKey" fields = Some (JStr k')) as Hrec1.
  { intros k' Hk'. unfold st1. rewrite stored_put.
    destruct (decide (historyKey k = historyKey k')) as [E|E].
    - apply historyKey_inj in E as <-. eexists. split; [done|].
      apply get_set_field.
    - apply Hrec. apply elem_of_cons in Hk' as [->|Hk']; [done|exact Hk']. }
  case_bool_decide as Hin; cbn [snd].
  - exists l. split; [done|]. split.
    { rewrite <- Hr. rewrite !read_working by done. unfold st1.
      rewrite stored_put, decide_False; [done|apply historyKey_not_index]. }
    split; [done|]. split; [done|].
    intros k' Hk'. apply Hrec1. by right.
  - exists (take 90 (k :: l)).
    assert (NoDup (k :: l)) as Hnd' by (by apply NoDup_cons).
    split; [by apply working_put, working_evict|].
    split; [by apply read_index_put, working_evict|].
    split; [by apply NoDup_take|].
    split; [rewrite length_take; lia|].
    intros k' Hk'. rewrite stored_put, decide_False
      by (intros E; symmetry in E; by apply historyKey_not_index in E).
    rewrite stored_evict_other.
    + apply Hrec1. by apply (subseteq_take 90).
    + intros x Hx E. apply historyKey_inj in E as ->.
      rewrite <- (take_drop 90 (k :: l)) in Hnd'.
      apply NoDup_app in Hnd' as (_ & Hdis & _). by apply (Hdis k').
Qed.

Lemma history_inv_delete dateKey st l :
  history_inv st l →
  ∃ l', history_inv (deleteHistoryEntry dateKey st).2 l'.
Proof.
  intros (W & Hr & Hnd & Hlen & Hrec).
  rewrite (deleteHistoryEntry_working dateKey l) by done. cbn [snd].
  exists (filter (fun k => k ≠ dateKey) l).
  split; [by apply working_put, working_del|].
  split; [by apply read_index_put, working_del|].
  split; [by apply NoDup_filter|].
  split; [pose proof (length_filter (fun k => k ≠ dateKey) l); lia|].
  intros k (Hk & Hin)%list_elem_of_filter.
  rewrite stored_put, decide_False
    by (intros E; symmetry in E; by apply historyKey_not_index in E).
  rewrite stored_del, decide_False; [by apply Hrec|].
  intros E. by apply historyKey_inj in E.
Qed.

Lemma history_inv_calls calls st l :
  history_inv st l → ∃ l', history_inv (history_calls calls st) l'.
Proof.
  revert st l. induction calls as [|c calls IH]; intros st l H.
  - by exists l.
  - cbn [history_calls fold_left].
    destruct c as [now data dateKey|dateKey]; cbn [history_call].
    + destruct (history_inv_save now data dateKey st l H) as (l' & H').
      by apply (IH _ l').
    + destruct (history_inv_delete dateKey st l H) as (l' & H').
      by apply (IH _ l').
Qed.

(** X8.  In a store that works, the index and the records of the dated
    history stay together along every run of [saveToHistory] and
    [deleteHistoryEntry] calls: if every listed date had its record before,
    then afterwards the index lists at most 90 dates, each once, and
    [loadFromHistory] of each listed date returns a record whose [dateKey]
    is that date. *)
Theorem history_stays_consistent (calls : list HistoryCall) (l : list string)
    (st : Storage) :
  working st →
  read st "toolHistoryIndex" (JArr []) = JArr (JStr <$> l) →
  NoDup l → length l ≤ 90 →
  listed_dates_have_records st l →
  ∃ l',
    getHistoryDates (history_calls calls st)
    = (Returns (JArr (JStr <$> l')), history_calls calls st)
    ∧ NoDup l' ∧ length l' ≤ 90
    ∧ ∀ k, k ∈ l' →
        ∃ fields,
          loadFromHistory k (history_calls calls st)
          = (Returns (JObj fields), history_calls calls st)
          ∧ get_field "dateKey" fields = Some (JStr k).
Proof.
  intros W Hr Hnd Hlen Hrec.
  destruct (history_inv_calls calls st l) as (l' & W' & Hr' & Hnd' & Hlen' & Hrec');
    [done|].
  exists l'. split; [|split; [done|split; [done|]]].
  - unfold getHistoryDates. by rewrite getItem_read, Hr'.
  - intros k Hk. destruct (Hrec' k Hk) as (fields & Hs & Hf).
    exists fields. split; [|done].
    unfold loadFromHistory. rewrite getItem_read, read_working by done.
    by rewrite Hs.
Qed.

Lemma history_stays_consistent_witness :
  ∃ l',
    getHistoryDates
      (history_calls [Save nov_1 (JObj []) None; Save nov_2 (JObj []) None;
                      Delete "2026-11-01"] fresh)
    = (Returns (JArr (JStr <$> l')),
       history_calls [Save nov_1 (JObj []) None; Save nov_2 (JObj []) None;
                      Delete "2026-11-01"] fresh)
    ∧ NoDup l' ∧ length l' ≤ 90
    ∧ ∀ k, k ∈ l' →
        ∃ fields,
          loadFromHistory k
            (history_calls [Save nov_1 (JObj []) None;
                            Save nov_2 (JObj []) None;
                            Delete "2026-11-01"] fresh)
          = (Returns (JObj fields),
             history_calls [Save nov_1 (JObj []) None;
                            Save nov_2 (JObj []) None;
                            Delete "2026-11-01"] fresh)
          ∧ get_field "dateKey" fields = Some (JStr k).
Proof.
  apply (history_stays_consistent _ [] fresh).
  - vm_compute. by repeat split.
  - by vm_compute.
  - apply NoDup_nil_2.
  - cbn. lia.
  - intros k Hk. by apply elem_of_nil in Hk.
Defined.

(** **** One record per day *)

Lemma length_append (s t : string) :
  String.length (s +:+ t) = String.length s + String.length t.
Proof.
  induction s as [|a s IH]; [done|].
  change (String a s +:+ t) with (String a (s +:+ t)).
  cbn [String.length]. by rewrite IH.
Qed.

Lemma append_inj_suffix (s1 s2 t1 t2 : string) :
  String.length t1 = String.length t2 →
  s1 +:+ t1 = s2 +:+ t2 → s1 = s2 ∧ t1 = t2.
Proof.
  intros Hl H. apply DateFacts.append_inj_length; [|done].
  apply (f_equal String.length) in H. rewrite !length_append in H. lia.
Qed.

Lemma getDateKey_inj d1 d2 :
  getMonth d1 < 12 → getDate d1 ≤ 31 → getMonth d2 < 12 → getDate d2 ≤ 31 →
  getDateKey d1 = getDateKey d2 → same_day d1 d2.
Proof.
  intros Hm1 Hd1 Hm2 Hd2. unfold getDateKey. intros H.
  apply append_inj_suffix in H as (Hy & H).
  - apply (DateFacts.append_inj_length "-" "-") in H as (_ & H); [|done].
    apply (DateFacts.append_inj_length (pad2 _) (pad2 _)) in H as (Hm & H);
      [|rewrite !DateFacts.pad2_length; lia].
    apply (DateFacts.append_inj_length "-" "-") in H as (_ & H); [|done].
    apply DateFacts.pad2_inj in Hm; [|lia..].
    apply DateFacts.pad2_inj in H; [|lia..].
    split; [by apply (inj pretty)|]. split; [lia|done].
  - rewrite !length_append, !DateFacts.pad2_length; lia.
Qed.

Lemma saveToHistory_room now data dateKey (l : list string) st :
  working st →
  read st "toolHistoryIndex" (JArr []) = JArr (JStr <$> l) →
  length l < 90 →
  let k := resolveKey now dateKey in
  ∃ st' l',
    saveToHistory now data dateKey st = (Returns true, st')
    ∧ working st'
    ∧ read st' "toolHistoryIndex" (JArr []) = JArr (JStr <$> l')
    ∧ length l' ≤ S (length l)
    ∧ stored st' (historyKey k) = Some (JsonText (historyEntry now data k))
    ∧ ∀ k', k' ≠ k → stored st' (historyKey k') = stored st (historyKey k').
Proof.
  intros W Hr Hlen k.
  rewrite (saveToHistory_working now data dateKey l) by done. cbn zeta.
  fold k. set (st1 := put st (historyKey k) _).
  assert (working st1) as W1 by (by apply working_put).
  assert (stored st1 (historyKey k)
          = Some (JsonText (historyEntry now data k))) as Hk.
  { unfold st1. by rewrite stored_put, decide_True. }
  assert (∀ k', k' ≠ k → stored st1 (historyKey k') = stored st (historyKey k'))
    as Hother.
  { intros k' Hk'. unfold st1. rewrite stored_put, decide_False; [done|].
    intros E. by apply historyKey_inj in E. }
  case_bool_decide as Hin.
  - exists st1, l. split; [done|]. split; [done|]. split.
    { rewrite <- Hr. rewrite !read_working by done. unfold st1.
      rewrite stored_put, decide_False; [done|apply historyKey_not_index]. }
    split; [lia|]. by split.
  - rewrite drop_ge, take_ge by (cbn; lia). cbn [evict fold_left].
    eexists _, (k :: l). split; [done|].
    split; [by apply working_put|].
    split; [by apply read_index_put|]. split; [done|].
    assert (∀ x, "toolHistoryIndex" ≠ historyKey x) as Hne.
    { intros x E. symmetry in E. by apply historyKey_not_index in E. }
    split.
    + by rewrite stored_put, decide_False.
    + intros k' Hk'. rewrite stored_put, decide_False by done.
      by apply Hother.
Qed.

(** X9.  The dated history has one slot per calendar day.  Two readings of
    the clock give the same date key exactly when they fall on the same
    day; and in a store that works, with room in the index, a save on
    another day leaves the record of the first day in place: both are
    loaded back under their own keys. *)
Theorem one_record_per_day (d1 d2 : Date) (data1 data2 : JValue)
    (l : list string) (st : Storage) :
  getMonth d1 < 12 → getDate d1 ≤ 31 → getMonth d2 < 12 → getDate d2 ≤ 31 →
  (getDateKey d1 = getDateKey d2 ↔ same_day d1 d2)
  ∧ (working st →
     read st "toolHistoryIndex" (JArr []) = JArr (JStr <$> l) →
     length l < 89 → ¬ same_day d1 d2 →
     ∃ st1 st2,
       saveToHistory d1 data1 None st = (Returns true, st1)
       ∧ saveToHistory d2 data2 None st1 = (Returns true, st2)
       ∧ loadFromHistory (getDateKey d1) st2
         = (Returns (historyEntry d1 data1 (getDateKey d1)), st2)
       ∧ loadFromHistory (getDateKey d2) st2
         = (Returns (historyEntry d2 data2 (getDateKey d2)), st2)).
Proof.
  intros Hm1 Hd1 Hm2 Hd2. split.
  - split; [by apply getDateKey_inj|].
    intros (Hy & Hm & Hd). unfold getDateKey. by rewrite Hy, Hm, Hd.
  - intros W Hr Hlen Hdiff.
    destruct (saveToHistory_room d1 data1 None l st W Hr)
      as (st1 & l1 & E1 & W1 & Hr1 & Hlen1 & Hk1 & _); [lia|].
    destruct (saveToHistory_room d2 data2 None l1 st1 W1 Hr1)
      as (st2 & l2 & E2 & W2 & Hr2 & Hlen2 & Hk2 & Hother); [lia|].
    cbn [resolveKey] in *.
    exists st1, st2. split; [done|]. split; [done|].
    unfold loadFromHistory. rewrite !getItem_read, !read_working by done.
    rewrite Hk2, Hother, Hk1; [done|].
    intros E. by apply Hdiff, getDateKey_inj.
Qed.

Lemma one_record_per_day_witness :
  (getDateKey nov_1 = getDateKey nov_2 ↔ same_day nov_1 nov_2)
  ∧ (working fresh →
     read fresh "toolHistoryIndex" (JArr []) = JArr (JStr <$> []) →
     length (@nil string) < 89 → ¬ same_day nov_1 nov_2 →
     ∃ st1 st2,
       saveToHistory nov_1 (JObj []) None fresh = (Returns true, st1)
       ∧ saveToHistory nov_2 (JObj []) None st1 = (Returns true, st2)
       ∧ loadFromHistory (getDateKey nov_1) st2
         = (Returns (historyEntry nov_1 (JObj []) (getDateKey nov_1)), st2)
       ∧ loadFromHistory (getDateKey nov_2) st2
         = (Returns (historyEntry nov_2 (JObj []) (getDateKey nov_2)), st2)).
Proof.
  apply (one_record_per_day nov_1 nov_2 (JObj []) (JObj []) [] fresh);
    vm_compute; lia.
Defined.

(** **** The probe of the constructor *)

(** X24.  The constructor's probe finds the store available exactly when
    the store is not blocked and has room for the sentinel.  The probe
    leaves every other key as it was; an available store ends without the
    sentinel key, whatever was stored under it before, and an unavailable
    one keeps all its items. *)
Theorem new_Storage_probe (ls : LocalStorage) :
  (isAvailable (new_Storage ls) = true
   ↔ ls_denied ls = false ∧ ls_accepts ls "__storage_test__" BadText = true)
  ∧ (∀ k, k ≠ "__storage_test__" →
          stored (new_Storage ls) k = ls_items ls !! k)
  ∧ (isAvailable (new_Storage ls) = true →
     stored (new_Storage ls) "__storage_test__" = None)
  ∧ (isAvailable (new_Storage ls) = false →
     ls_items (localStorage (new_Storage ls)) = ls_items ls)
  ∧ ls_denied (localStorage (new_Storage ls)) = ls_denied ls.
Proof.
  unfold new_Storage, checkAvailability, try_catch, bind, ls_setItem,
    ls_removeItem, ret, stored.
  cbn [localStorage isAvailable].
  destruct (ls_denied ls) eqn:Hd; cbn [localStorage isAvailable].
  { split; [by split; [|intros []]|]. by repeat split. }
  destruct (ls_accepts ls "__storage_test__" BadText) eqn:Hq;
    cbn [localStorage isAvailable with_ls with_items ls_denied ls_items
         ls_accepts]; rewrite ?Hd; cbn [localStorage isAvailable with_ls
         with_items ls_denied ls_items ls_accepts].
  - split; [done|]. split.
    { intros k Hk. rewrite lookup_delete_ne, lookup_insert_ne; done. }
    split; [intros _; apply lookup_delete_eq|]. by split.
  - split; [by split; [|intros []]|]. by repeat split.
Qed.

End StorageLaws.

(* ===================================================================== *)
(** * Further properties of the application state                         *)
(* ===================================================================== *)

Module AppStateLaws.
Import Js Config AppState AppStateFacts.

Lemma elem_of_set_add x y l : x ∈ set_add y l ↔ x = y ∨ x ∈ l.
Proof.
  unfold set_add. case_bool_decide as H.
  - split; [by right|]. by intros [->|].
  - rewrite elem_of_app, list_elem_of_singleton. tauto.
Qed.

Lemma elem_of_set_delete x y l : x ∈ set_delete y l ↔ x ≠ y ∧ x ∈ l.
Proof. unfold set_delete. by rewrite list_elem_of_filter. Qed.

Lemma elem_of_toggled x name ex :
  x ∈ toggled name ex ↔ (x = name ∧ name ∉ ex) ∨ (x ≠ name ∧ x ∈ ex).
Proof.
  unfold toggled. case_bool_decide as H.
  - rewrite elem_of_set_delete. split; [by right|].
    by intros [(-> & ?)|].
  - rewrite elem_of_set_add. split.
    + intros [->|Hx]; [by left|]. right. split; [|done]. by intros ->.
    + intros [(-> & _)|(_ & Hx)]; [by left|by right].
Qed.

(** X10.  [toggleStack] flips one name and nothing else: after one call
    the name is among the expanded stacks exactly if it was not before, and
    every other name is where it was; after a second call the same names
    are expanded as at the start.  Inventory, dragged element and update
    time are not touched. *)
Theorem toggleStack_twice (toolName : string) (app : App) (v : StateView) :
  wf app → contents app = Some v →
  ∃ app1 app2 v1 v2,
    toggleStack toolName app = (Returns tt, app1)
    ∧ contents app1 = Some v1
    ∧ (toolName ∈ v_expandedStacks v1 ↔ toolName ∉ v_expandedStacks v)
    ∧ (∀ x, x ≠ toolName →
            (x ∈ v_expandedStacks v1 ↔ x ∈ v_expandedStacks v))
    ∧ toggleStack toolName app1 = (Returns tt, app2)
    ∧ contents app2 = Some v2
    ∧ (∀ x, x ∈ v_expandedStacks v2 ↔ x ∈ v_expandedStacks v)
    ∧ v_toolInventory v2 = v_toolInventory v
    ∧ v_draggedElement v2 = v_draggedElement v
    ∧ v_lastUpdateTime v2 = v_lastUpdateTime v.
Proof.
  intros Hwf Hc.
  destruct (perform_spec (WToggleStack toolName) app v Hwf Hc I)
    as (app1 & E1 & Hwf1 & Hc1 & _).
  destruct (perform_spec (WToggleStack toolName) app1 _ Hwf1 Hc1 I)
    as (app2 & E2 & Hwf2 & Hc2 & _).
  cbn [perform] in E1, E2.
  eexists app1, app2, _, _. split; [exact E1|]. split; [exact Hc1|].
  cbn [effect v_expandedStacks v_toolInventory v_draggedElement
       v_lastUpdateTime].
  fold (toggled toolName (v_expandedStacks v)).
  split.
  { rewrite elem_of_toggled. split; [by intros [(_ & ?)|(? & _)]|].
    intros H. by left. }
  split.
  { intros x Hx. rewrite elem_of_toggled. split; [by intros [(? & _)|(_ & ?)]|].
    intros H. by right. }
  split; [exact E2|]. split; [exact Hc2|].
  cbn [effect v_expandedStacks v_toolInventory v_draggedElement
       v_lastUpdateTime].
  fold (toggled toolName (v_expandedStacks v)).
  fold (toggled toolName (toggled toolName (v_expandedStacks v))).
  split; [|done].
  intros x. rewrite !elem_of_toggled.
  destruct (decide (x = toolName)) as [->|Hx];
    destruct (decide (toolName ∈ v_expandedStacks v)); tauto.
Qed.

Lemma toggleStack_twice_witness :
  ∃ app1 app2 v1 v2,
    toggleStack "Drill" new_AppState = (Returns tt, app1)
    ∧ contents app1 = Some v1
    ∧ ("Drill" ∈ v_expandedStacks v1 ↔ "Drill" ∉ @nil string)
    ∧ (∀ x, x ≠ "Drill" → (x ∈ v_expandedStacks v1 ↔ x ∈ @nil string))
    ∧ toggleStack "Drill" app1 = (Returns tt, app2)
    ∧ contents app2 = Some v2
    ∧ (∀ x, x ∈ v_expandedStacks v2 ↔ x ∈ @nil string)
    ∧ v_toolInventory v2 = DEFAULT_TOOL_INVENTORY
    ∧ v_draggedElement v2 = None
    ∧ v_lastUpdateTime v2 = None.
Proof.
  apply (toggleStack_twice "Drill" new_AppState
           {| v_toolInventory := DEFAULT_TOOL_INVENTORY;
              v_expandedStacks := [];
              v_draggedElement := None;
              v_lastUpdateTime := None |}).
  - exists {| toolInventory := 0; expandedStacks := 1;
              draggedElement := None; lastUpdateTime := None |},
      DEFAULT_TOOL_INVENTORY, []. repeat split. constructor.
  - reflexivity.
Defined.

Lemma contents_with_listeners app ls v :
  wf app → contents app = Some v → contents (with_listeners app ls) = Some v.
Proof.
  intros Hwf Hc.
  destruct (wf_view app v Hwf Hc) as (s & Hs & Hi & He & _ & Hd & Hl).
  rewrite (contents_spec (with_listeners app ls) s
             (v_toolInventory v) (v_expandedStacks v)) by done.
  destruct v. cbn in *. by rewrite Hd, Hl.
Qed.

Lemma filter_other_id (l : Listener) (ls : list Listener) :
  listener_id l ∉ listener_id <$> ls →
  filter (fun l' => listener_id l' ≠ listener_id l) (ls ++ [l]) = ls.
Proof.
  intros Hn. rewrite filter_app, filter_cons, decide_False by (by intros ?).
  rewrite filter_nil, app_nil_r.
  induction ls as [|x ls IH]; [done|].
  rewrite fmap_cons, not_elem_of_cons in Hn. destruct Hn as (Hx & Hn).
  rewrite filter_cons, decide_True by done. by rewrite IH.
Qed.

(** X11.  The function [subscribe] returns takes the listener out again:
    once it has run, every write that reaches [setState] (all but an
    [addTool] that throws on a category name inherited from
    [Object.prototype], which [valid] leaves out) calls the remaining
    listeners, in their order, and never the one removed.  Subscribing a
    new listener and unsubscribing it leaves the listeners as they were. *)
Theorem unsubscribed_listener_is_not_called (l : Listener) (w : Write)
    (app : App) (v : StateView) :
  wf app → contents app = Some v → valid w app →
  (∃ app',
     perform w (unsubscribe l app).2 = (Returns tt, app')
     ∧ called (drop (length (log app)) (log app'))
       = filter (fun id => id ≠ listener_id l) (listener_id <$> listeners app)
     ∧ listener_id l ∉ called (drop (length (log app)) (log app')))
  ∧ (listener_id l ∉ listener_id <$> listeners app →
     listeners (unsubscribe l (subscribe l app).2).2 = listeners app).
Proof.
  intros Hwf Hc Hv. split.
  - set (app0 := (unsubscribe l app).2).
    assert (wf app0) as Hwf0 by exact Hwf.
    assert (contents app0 = Some v) as Hc0
      by (by apply contents_with_listeners).
    assert (valid w app0) as Hv0 by (by destruct w).
    destruct (perform_spec w app0 v Hwf0 Hc0 Hv0)
      as (app' & E & _ & _ & _ & Hlog & _).
    exists app'. split; [exact E|].
    assert (called (drop (length (log app)) (log app'))
            = filter (fun id => id ≠ listener_id l)
                (listener_id <$> listeners app)) as Hcalled.
    { rewrite Hlog. change (log app0) with (log app).
      rewrite drop_app_length, called_notified.
      unfold app0, unsubscribe. cbn [snd listeners with_listeners].
      induction (listeners app) as [|x ls IH]; [done|].
      rewrite fmap_cons, !filter_cons.
      destruct (decide (listener_id x ≠ listener_id l)).
      - by rewrite fmap_cons, IH.
      - exact IH. }
    split; [exact Hcalled|]. rewrite Hcalled.
    by intros (? & _)%list_elem_of_filter.
  - intros Hn. unfold subscribe, unsubscribe. cbn [snd].
    assert (existsb (fun l' => Nat.eqb (listener_id l') (listener_id l))
              (listeners app) = false) as ->.
    { apply not_true_iff_false. intros (x & Hx & E)%existsb_exists.
      apply Nat.eqb_eq in E. apply Hn. rewrite <- E.
      apply list_elem_of_fmap_2. by apply list_elem_of_In. }
    cbn [listeners with_listeners]. rewrite filter_other_id by done.
    by destruct app.
Qed.

Lemma unsubscribed_listener_is_not_called_witness :
  (∃ app',
     setLastUpdateTime (Some "07:30") (unsubscribe (faulty 2) observed).2
     = (Returns tt, app')
     ∧ called (drop (length (log observed)) (log app'))
       = filter (fun id => id ≠ 2) (listener_id <$> listeners observed)
     ∧ 2 ∉ called (drop (length (log observed)) (log app')))
  ∧ (2 ∉ listener_id <$> listeners observed →
     listeners (unsubscribe (faulty 2) (subscribe (faulty 2) observed).2).2
     = listeners observed).
Proof.
  apply (unsubscribed_listener_is_not_called (faulty 2)
           (WSetLastUpdateTime (Some "07:30")) observed
           {| v_toolInventory := DEFAULT_TOOL_INVENTORY;
              v_expandedStacks := [];
              v_draggedElement := None;
              v_lastUpdateTime := None |}).
  - exists {| toolInventory := 0; expandedStacks := 1;
              draggedElement := None; lastUpdateTime := None |},
      DEFAULT_TOOL_INVENTORY, []. repeat split. constructor.
  - reflexivity.
  - exact I.
Defined.

End AppStateLaws.

(* ===================================================================== *)
(** * Further properties of the page                                      *)
(* ===================================================================== *)

Module PageLaws.
Import Js Config Dom Tools Crews Page MonadFacts DomFacts ToolsFacts PageFacts.

(** **** Validation *)

Lemma validateTool_length name quantity :
  length (validateTool name quantity).2 ≤ 2.
Proof.
  unfold validateTool. cbn [snd]. rewrite length_app.
  destruct (_ || _); [|destruct (Nat.ltb _ _)];
    (destruct (parseInt quantity) as [qty|];
     [destruct (qty <? _)%Z; [|destruct (_ <? qty)%Z]|]); cbn; lia.
Qed.

Lemma validateTool_too_long name quantity :
  100 < String.length name → (validateTool name quantity).1 = false.
Proof.
  intros Hl. unfold validateTool. cbn [fst].
  destruct (_ || _); [done|].
  replace (Nat.ltb VALIDATION.MAX_TOOL_NAME_LENGTH (String.length name))
    with true by (symmetry; by apply Nat.ltb_lt).
  done.
Qed.

Lemma validateTool_not_a_number name quantity :
  parseInt quantity = None → (validateTool name quantity).1 = false.
Proof.
  intros Hq. unfold validateTool. rewrite Hq. cbn [fst].
  rewrite length_app. cbn [length]. by rewrite Nat.add_comm.
Qed.

(** X12.  [validateTool] accepts exactly the names that are not blank and
    have at most 100 characters, white space around them included (the
    message speaks of less than 100, the test lets 100 through), with a
    quantity that [parseInt] reads as a whole number from 1 to 999.  It
    reports valid exactly when it lists no error, and it lists at most two:
    one for the name, one for the quantity.  What [parseInt] reads is the
    start of the quantity's text: the number 1000 is refused, the number
    1e21, whose text is 1e+21, is read as 1 and accepted, and so is the
    text 12abc. *)
Theorem validateTool_accepts_exactly (name : string) (quantity : Quantity) :
  ((validateTool name quantity).1 = true
   ↔ trim name ≠ "" ∧ String.length name ≤ 100
     ∧ ∃ qty, parseInt quantity = Some qty ∧ (1 ≤ qty ≤ 999)%Z)
  ∧ ((validateTool name quantity).1 = true
     ↔ (validateTool name quantity).2 = [])
  ∧ length (validateTool name quantity).2 ≤ 2
  ∧ (validateTool "Hammer" (QText "1000")).1 = false
  ∧ (validateTool "Hammer" (QText "1e+21")).1 = true
  ∧ parseInt (QText "1e+21") = Some 1%Z
  ∧ parseInt (QText "12abc") = Some 12%Z
  ∧ parseInt (QText "NaN") = None.
Proof.
  split; [|split; [|split; [apply validateTool_length|by vm_compute]]].
  - split.
    + intros Hv.
      destruct (decide (trim name = "")) as [Hb|Hb].
      { destruct (validateTool_blank name quantity Hb). congruence. }
      destruct (decide (String.length name ≤ 100)) as [Hl|Hl].
      2:{ rewrite validateTool_too_long in Hv by lia. done. }
      destruct (parseInt quantity) as [qty|] eqn:Hq.
      2:{ rewrite validateTool_not_a_number in Hv by done. done. }
      destruct (decide (qty < 1)%Z) as [Hlow|Hlow].
      { destruct (validateTool_quantity_low name quantity qty Hq Hlow).
        congruence. }
      destruct (decide (999 < qty)%Z) as [Hhigh|Hhigh].
      { destruct (validateTool_quantity_high name quantity qty Hq Hhigh).
        congruence. }
      split; [done|]. split; [done|]. exists qty. split; [done|lia].
    + intros (Hb & Hl & qty & Hq & Hr).
      by rewrite (validateTool_ok name quantity qty).
  - unfold validateTool. cbn [fst snd]. split.
    + intros H. apply Nat.eqb_eq in H. by apply nil_length_inv.
    + by intros ->.
Qed.

(** **** The Return button *)








(** **** Return All *)










(** **** What every page keeps *)

(** X15.  Whatever the user does (drags by pointer or touch, the Return,
    Return All and Clear buttons, clicks on stacks, Expand All, adding a
    tool, loading a snapshot), and whether the handlers return or throw, the
    page keeps two things: the state object with its inventory and its set
    of expanded stacks is in place, and a tool element that records a crew or
    a checkout time carries the class checked-out.  The page [init] renders
    has both. *)
Theorem pages_stay_sound (actions : list Action) :
  (∀ w, sound w → sound (run actions w))
  ∧ sound (run actions opened)
  ∧ (∀ e, e ∈ elements (doc (run actions opened)) →
          is_Some (ds_crew e) ∨ is_Some (ds_checkoutTime e) →
          contains "checked-out" (classList e) = true).
Proof.
  split; [intros w; apply sound_run|].
  pose proof (sound_run actions opened sound_opened) as Hs.
  split; [exact Hs|].
  intros e He Hrec. destruct Hs as (_ & Ht).
  unfold tidy, all in Ht. rewrite Forall_forall in Ht.
  specialize (Ht e He). unfold recorded_only_if_out in Ht.
  destruct (contains "checked-out" (classList e)); [done|].
  destruct Ht as (Hc & Htm); [done|]. rewrite Hc, Htm in Hrec.
  by destruct Hrec as [[? ?]|[? ?]].
Qed.



(** **** Restoring the checkouts of a snapshot *)

Lemma rows_insert (zs : list DropZone) z zone zone' row :
  zs !! z = Some zone → zoneItems zone' = zoneItems zone ++ [row] →
  length (concat (zoneItems <$> <[z := zone']> zs))
  = S (length (concat (zoneItems <$> zs))).
Proof.
  intros Hz Hrow. rewrite insert_take_drop by (by eapply lookup_lt_Some).
  rewrite <- (take_drop_middle zs z zone Hz) at 3.
  rewrite !fmap_app, !fmap_cons, !concat_app, !concat_cons, !length_app, Hrow.
  rewrite length_app. cbn [length]. lia.
Qed.

(** X17.  [loadCheckouts] reaches for [require], which a page loaded as a
    module does not define.  On such a page, when the first saved checkout
    is of a tool that sits in a stack, the call throws a ReferenceError:
    by then the tool is hidden and marked as checked out and its row is in
    the crew's zone, but the badge of its stack is not updated, nothing is
    announced and no further saved checkout is restored. *)
Theorem loadCheckouts_stops_at_a_stacked_tool (d : Doc) (crew : string)
    (z t : nat) (zone : DropZone) (saved : CheckedOut)
    (rest : list CheckedOut) (more : list (string * list CheckedOut))
    (e : Element) (s : Stack) :
  hasRequire d = false →
  querySelector_zone crew d = (Returns (Some z), d) →
  zones d !! z = Some zone →
  querySelector_tool (co_tool saved) (co_number saved) d
  = (Returns (Some t), d) →
  findElement t d = Some e →
  closestStack t d = Some s →
  ∃ d' e' zone',
    loadCheckouts ((crew, saved :: rest) :: more) d
    = (Throws ReferenceError, d')
    ∧ findElement t d' = Some e'
    ∧ contains "checked-out" (classList e') = true
    ∧ display e' = "none"
    ∧ ds_crew e' = Some crew
    ∧ zones d' !! z = Some zone'
    ∧ zoneItems zone'
      = zoneItems zone
        ++ [createCheckoutItem (co_tool saved) (co_number saved)
              (or_default (co_time saved) "N/A") crew]
    ∧ length (concat (zoneItems <$> zones d'))
      = S (length (concat (zoneItems <$> zones d)))
    ∧ badgeText <$> stacks d' = badgeText <$> stacks d
    ∧ liveRegion d' = liveRegion d.
Proof.
  intros Hreq Hzone Hz Htool Hf Hs.
  set (mark := fun x : Element =>
         set_crew (Some crew)
           (set_checkoutTime (Some (or_default (co_time saved) ""))
              (set_display "none"
                 (set_classList (classList_add "checked-out" (classList x))
                    x)))).
  set (row := createCheckoutItem (co_tool saved) (co_number saved)
                (or_default (co_time saved) "N/A") crew).
  set (d1 := (updateElement t mark d).2).
  set (d2 := (zone_append z row d1).2).
  destruct (crewsContainer d) as [zs|] eqn:Hc;
    [|by unfold zones in Hz; rewrite Hc in Hz].
  assert (zs !! z = Some zone) as Hz'.
  { by unfold zones in Hz; rewrite Hc in Hz. }
  set (zone' := set_zoneItems (zoneItems zone ++ [row]) zone).
  assert (crewsContainer d2 = Some (<[z := zone']> zs)) as Hc2.
  { unfold d2, zone_append. cbn [snd crewsContainer with_crews].
    assert (crewsContainer d1 = Some zs) as -> by exact Hc.
    cbn [fmap option_fmap option_map]. by rewrite Hz'. }
  assert (closestStack t d2
          = Some (set_items
                    ((fun x => if Nat.eqb (eid x) t then mark x else x)
                       <$> items s) s)) as Hs2.
  { rewrite (closestStack_pools t d1 d2) by done. unfold d1, updateElement.
    cbn [snd]. rewrite closestStack_map_doc; [by rewrite Hs| |done].
    intros x. by destruct (Nat.eqb (eid x) t). }
  assert (loadCheckout crew z saved 0 d = (Throws ReferenceError, d2)) as Hone.
  { unfold loadCheckout, bind. rewrite Htool. fold mark row.
    change (updateElement t mark d) with (Returns tt, d1). cbv beta iota.
    change (zone_append z row d1) with (Returns tt, d2). cbv beta iota.
    unfold get_state. rewrite Hs2.
    assert (hasRequire d2 = false) as -> by exact Hreq.
    reflexivity. }
  exists d2, (mark e), zone'. split.
  { unfold loadCheckouts, bind. cbn [loadCrews]. unfold bind.
    rewrite Hzone. cbn [loadCrew]. unfold bind. by rewrite Hone. }
  split.
  { rewrite (findElement_pools t d1 d2) by done.
    apply (findElement_updateElement t mark d e); [done|exact Hf]. }
  split.
  { change (classList (mark e))
      with (classList_add "checked-out" (classList e)).
    rewrite contains_add. apply orb_true_r. }
  split; [done|]. split; [done|].
  assert (zones d2 = <[z := zone']> zs) as Hzs by (unfold zones; by rewrite Hc2).
  split.
  { rewrite Hzs. apply list_lookup_insert_eq. by eapply lookup_lt_Some. }
  split; [done|]. split.
  { rewrite Hzs. unfold zones. rewrite Hc. cbn [default].
    by apply (rows_insert zs z zone zone' row). }
  split; [|done].
  rewrite (stacks_pools d1 d2) by done. unfold d1, updateElement. cbn [snd].
  rewrite stacks_map_doc, <- list_fmap_compose. by apply list_fmap_ext.
Qed.

Lemma loadCheckouts_stops_at_a_stacked_tool_witness :
  ∃ d',
    loadCheckouts
      [("1", [ {| co_tool := "Drill"; co_number := "1"; co_crew := "1";
                  co_time := "9:00 AM" |};
               {| co_tool := "Drill"; co_number := "2"; co_crew := "1";
                  co_time := "9:05 AM" |} ])] two_drills
    = (Throws ReferenceError, d')
    ∧ length (concat (zoneItems <$> zones d')) = 1
    ∧ badgeText <$> stacks d' = ["2"].
Proof.
  destruct (zones two_drills !! 0) as [zone|] eqn:Hz;
    [|vm_compute in Hz; discriminate Hz].
  destruct (findElement 1 two_drills) as [e|] eqn:Hf;
    [|vm_compute in Hf; discriminate Hf].
  destruct (closestStack 1 two_drills) as [s|] eqn:Hs;
    [|vm_compute in Hs; discriminate Hs].
  destruct (loadCheckouts_stops_at_a_stacked_tool two_drills "1" 0 1 zone
              {| co_tool := "Drill"; co_number := "1"; co_crew := "1";
                 co_time := "9:00 AM" |}
              [ {| co_tool := "Drill"; co_number := "2"; co_crew := "1";
                   co_time := "9:05 AM" |} ] [] e s)
    as (d' & e' & zone' & Hrun & _ & _ & _ & _ & _ & _ & Hlen & Hbadge & _).
  - vm_compute; reflexivity.
  - vm_compute; reflexivity.
  - exact Hz.
  - vm_compute; reflexivity.
  - exact Hf.
  - exact Hs.
  - exists d'. split; [exact Hrun|]. split.
    + rewrite Hlen. vm_compute; reflexivity.
    + rewrite Hbadge. vm_compute; reflexivity.
Defined.

(** **** A drop on a resource pool *)

Lemma stacks_detach t d :
  stacks (detach t d)
  = (fun s => set_items
                (filter (fun e => Nat.eqb (eid e) t = false) (items s)) s)
      <$> stacks d.
Proof.
  unfold stacks, detach. cbn [pools with_pools].
  rewrite <- list_fmap_compose.
  apply concat_fmap_fmap. intros p. unfold compose.
  cbn [children set_children].
  induction (children p) as [|c cs IH]; [done|].
  rewrite !fmap_cons, !concat_cons, fmap_app, concat_app, IH, fmap_app.
  f_equal. destruct c as [e|s]; cbn; [by destruct (Nat.eqb (eid e) t)|done].
Qed.

Lemma insert_snoc_tool (ps : list Pool) p q e :
  ps !! p = Some q →
  concat (pool_elements <$> <[p := set_children (children q ++ [PTool e]) q]> ps)
  = concat (pool_elements <$> take p ps) ++ pool_elements q ++ [e]
    ++ concat (pool_elements <$> drop (S p) ps)
  ∧ concat ((fun p => concat (child_stacks <$> children p))
              <$> <[p := set_children (children q ++ [PTool e]) q]> ps)
    = concat ((fun p => concat (child_stacks <$> children p)) <$> ps).
Proof.
  intros Hp. rewrite insert_take_drop by (by eapply lookup_lt_Some).
  split.
  - rewrite fmap_app, fmap_cons, concat_app, concat_cons, pool_elements_snoc.
    cbn [child_elements]. by rewrite <- !app_assoc.
  - rewrite <- (take_drop_middle ps p q Hp) at 3.
    rewrite !fmap_app, !fmap_cons, !concat_app, !concat_cons.
    cbn [children set_children]. rewrite fmap_app, concat_app. cbn.
    by rewrite !app_nil_r.
Qed.

Lemma appendChild_at_moves p t d q e :
  pools d !! p = Some q → findElement t d = Some e →
  ∃ q',
    pools (appendChild_at p t d).2 !! p = Some q'
    ∧ last (children q') = Some (PTool e)
    ∧ findElement t (appendChild_at p t d).2 = Some e
    ∧ closestStack t (appendChild_at p t d).2 = None
    ∧ badgeText <$> stacks (appendChild_at p t d).2 = badgeText <$> stacks d.
Proof.
  intros Hp Hf. unfold appendChild_at. rewrite Hf. cbn [snd].
  set (q1 := set_children (concat (remove_from_child t <$> children q)) q).
  assert (pools (detach t d) !! p = Some q1) as Hp1.
  { unfold detach. cbn [pools with_pools]. by rewrite list_lookup_fmap, Hp. }
  unfold append_at. rewrite Hp1.
  destruct (insert_snoc_tool (pools (detach t d)) p q1 e Hp1) as (He & Hs).
  assert (Forall (fun x => Nat.eqb (eid x) t = false) (elements (detach t d)))
    as Hall.
  { rewrite elements_detach. apply Forall_forall.
    by intros x (Hx & _)%list_elem_of_filter. }
  eexists. split.
  { cbn [pools with_pools]. apply list_lookup_insert_eq.
    by eapply lookup_lt_Some. }
  split; [cbn [children set_children]; by rewrite last_snoc|].
  split.
  { unfold findElement, elements. cbn [pools with_pools]. rewrite He.
    unfold elements in Hall.
    rewrite <- (take_drop_middle _ p q1 Hp1) in Hall.
    rewrite fmap_app, fmap_cons, concat_app, concat_cons in Hall.
    apply Forall_app in Hall as (H1 & H2).
    apply Forall_app in H2 as (H2 & _).
    rewrite find_app_none by done. rewrite find_app_none by done.
    cbn [List.app find].
    by rewrite (findElement_eid _ _ _ Hf), Nat.eqb_refl. }
  assert (stacks (with_pools (detach t d)
                    (<[p := set_children (children q1 ++ [PTool e]) q1]>
                       (pools (detach t d))))
          = stacks (detach t d)) as Hst.
  { unfold stacks. cbn [pools with_pools]. exact Hs. }
  split.
  - unfold closestStack. rewrite Hst, stacks_detach.
    destruct (find _ _) as [s'|] eqn:E; [exfalso|done].
    apply find_some in E as (Hin & (x & Hx & Hxt)%existsb_exists).
    apply list_elem_of_In, list_elem_of_fmap in Hin as (s & -> & _).
    cbn [items set_items] in Hx.
    apply list_elem_of_In, list_elem_of_filter in Hx as (Hne & _).
    congruence.
  - rewrite Hst, stacks_detach, <- list_fmap_compose. by apply list_fmap_ext.
Qed.

Lemma moved_to_pool_pools p t e d d' :
  pools d' = pools d → moved_to_pool p t e d → moved_to_pool p t e d'.
Proof.
  intros Hp (q & e' & Hq & Hl & Hf & H). exists q, e'.
  unfold moved_to_pool.
  rewrite Hp, (findElement_pools _ d d'), (closestStack_pools _ d d') by done.
  done.
Qed.

Lemma page_updateLastModifiedTime (P : Doc → Prop) now :
  (∀ d d', pools d' = pools d → P d → P d') →
  preserves (on_page P) (updateLastModifiedTime now).
Proof.
  intros HP. unfold updateLastModifiedTime.
  apply preserves_bind; [|intros _; apply preserves_bind; intros;
                           [apply page_on_storage|apply page_on_app]].
  apply page_on_doc. intros d. apply HP. cbn [snd].
  by destruct (updateTime d).
Qed.

Lemma unmarkToolBroken_spec t d e :
  findElement t d = Some e →
  ∃ d1, unmarkToolBroken t d = (Returns true, d1)
        ∧ pools d1
          = pools (updateElement t
                     (fun e =>
                        set_ariaLabel
                          (ds_toolName e +:+ " number " +:+ ds_toolNumber e
                           +:+ ", draggable tool")
                          (set_classList
                             (classList_remove "broken" (classList e)) e))
                     d).2.
Proof.
  intros Hf. unfold unmarkToolBroken, bind, get_state. rewrite Hf.
  cbn [updateElement announceToScreenReader ret snd].
  eexists. split; [reflexivity|]. by destruct (liveRegion _).
Qed.

Lemma appendChild_at_returns p t d :
  (appendChild_at p t d).1 = Returns tt.
Proof. unfold appendChild_at. by destruct (findElement t d). Qed.

(** X18.  A tool dropped on a resource pool, from wherever it was, becomes
    the last child of that pool and loses the tag broken.  Taken out of a
    stack it is an item of no stack any more, and the badge of the stack it
    left is not recounted: every badge reads as before the drop. *)
Theorem drop_on_resource_pool (w : World) (now : Date) (t p : nat)
    (pool : Pool) (e : Element) :
  pools (doc w) !! p = Some pool →
  poolId pool ≠ "brokenPool" →
  contains "resource-items" (poolClasses pool) = true →
  findElement t (doc w) = Some e →
  moved_to_pool p t e (doc (handleDrop now t (PoolZone p) w).2)
  ∧ badgeText <$> stacks (doc (handleDrop now t (PoolZone p) w).2)
    = badgeText <$> stacks (doc w).
Proof.
  intros Hp Hid Hcl Hf.
  set (P := fun d : Doc =>
         moved_to_pool p t e d
         ∧ badgeText <$> stacks d = badgeText <$> stacks (doc w)).
  change (on_page P (handleDrop now t (PoolZone p) w).2).
  assert (∀ d d', pools d' = pools d → P d → P d') as HP.
  { intros d d' Hpools (Hm & Hb). split.
    - by apply (moved_to_pool_pools p t e d d').
    - by rewrite (stacks_pools d d'). }
  (* the document once the tag is off *)
  assert (∃ d1 e1 q1 r,
            (match findElement t (doc w) with
             | Some e =>
                 if contains "broken" (classList e)
                 then do! on_doc (unmarkToolBroken t) in ret tt
                 else ret tt
             | None => ret tt
             end) w
            = (Returns r, {| doc := d1; app := app w; storage := storage w;
                             touchItem := touchItem w |})
            ∧ pools d1 !! p = Some q1
            ∧ findElement t d1 = Some e1
            ∧ ds_toolName e1 = ds_toolName e
            ∧ ds_toolNumber e1 = ds_toolNumber e
            ∧ contains "broken" (classList e1) = false
            ∧ contains "checked-out" (classList e1)
              = contains "checked-out" (classList e)
            ∧ badgeText <$> stacks d1 = badgeText <$> stacks (doc w))
    as (d1 & e1 & q1 & r & E1 & Hp1 & Hf1 & Hn1 & Hm1 & Hb1 & Hc1 & Hs1).
  { rewrite Hf. destruct (contains "broken" (classList e)) eqn:Hb.
    - destruct (unmarkToolBroken_spec t (doc w) e Hf) as (d1 & E & Hpools).
      set (unmark := fun e : Element => set_ariaLabel _ _) in Hpools.
      exists d1, (unmark e), (set_children (map_child
                   (fun e => if Nat.eqb (eid e) t then unmark e else e) id
                   <$> children pool) pool), tt.
      split; [unfold bind, on_doc; by rewrite E|].
      split.
      { rewrite Hpools. unfold updateElement, map_doc.
        cbn [snd pools with_pools]. by rewrite list_lookup_fmap, Hp. }
      split.
      { rewrite (findElement_pools t (updateElement t unmark (doc w)).2 d1)
          by done.
        by apply findElement_updateElement. }
      split; [done|]. split; [done|]. split.
      { cbn. rewrite contains_remove. rewrite bool_decide_eq_false_2 by naive_solver.
        apply andb_false_r. }
      split.
      { cbn. rewrite contains_remove. by rewrite andb_true_r. }
      rewrite (stacks_pools (updateElement t unmark (doc w)).2 d1) by done.
      unfold updateElement. cbn [snd].
      rewrite stacks_map_doc, <- list_fmap_compose. by apply list_fmap_ext.
    - exists (doc w), e, pool, tt. split; [by destruct w|]. done. }
  unfold handleDrop. unfold bind at 1. unfold get_state. cbv beta iota.
  cbn [zone_crew default truthy_string].
  rewrite Hp, bool_decide_eq_false_2, Hcl by done.
  unfold bind at 1. rewrite E1. unfold bind.
  destruct (appendChild_at_moves p t d1 q1 e1 Hp1 Hf1)
    as (q' & Hq' & Hl & Hf2 & Hcs & Hb2).
  pose proof (appendChild_at_returns p t d1) as Hr.
  unfold on_doc at 1. cbn [doc].
  destruct (appendChild_at p t d1) as [r2 d2]. cbn [fst snd] in *. subst r2.
  unfold on_doc at 1. cbn [doc]. unfold updateStackOf, bind, get_state.
  rewrite Hcs. cbn [ret].
  apply page_updateLastModifiedTime; [exact HP|].
  unfold on_page. cbn [doc]. split.
  - exists q', e1. by rewrite Hn1, Hm1, Hc1.
  - by rewrite Hb2.
Qed.

Lemma drop_on_resource_pool_witness :
  ∃ e,
    findElement 1 two_drills = Some e
    ∧ moved_to_pool 6 1 e
        (doc (handleDrop Storage.nov_1 1 (PoolZone 6)
                {| doc := two_drills; app := AppState.new_AppState;
                   storage := Storage.fresh; touchItem := None |}).2)
    ∧ badgeText <$>
        stacks (doc (handleDrop Storage.nov_1 1 (PoolZone 6)
                       {| doc := two_drills; app := AppState.new_AppState;
                          storage := Storage.fresh; touchItem := None |}).2)
      = ["2"].
Proof.
  set (w := {| doc := two_drills; app := AppState.new_AppState;
               storage := Storage.fresh; touchItem := None |}).
  destruct (findElement 1 two_drills) as [e|] eqn:Hf;
    [|vm_compute in Hf; discriminate Hf].
  destruct (pools two_drills !! 6) as [pool|] eqn:Hp;
    [|vm_compute in Hp; discriminate Hp].
  assert (poolId pool = "powerPool"
          ∧ contains "resource-items" (poolClasses pool) = true)
    as (Hid & Hcl).
  { vm_compute in Hp. injection Hp as <-. split; vm_compute; reflexivity. }
  destruct (drop_on_resource_pool w Storage.nov_1 1 6 pool e) as (Hm & Hb).
  - exact Hp.
  - rewrite Hid. discriminate.
  - exact Hcl.
  - exact Hf.
  - exists e. split; [reflexivity|]. split; [exact Hm|].
    rewrite Hb. vm_compute; reflexivity.
Defined.

(** **** Rendering a tool *)

Lemma createItems_spec tool ns d :
  ∃ new d',
    createItems tool ns d = (Returns new, d')
    ∧ pools d' = pools d
    ∧ nextId d' = nextId d + length ns
    ∧ tool_key <$> new = (fun i => (name tool, pretty i)) <$> ns
    ∧ eid <$> new = seq (nextId d) (length ns)
    ∧ Forall (fun e => ds_crew e = None ∧ ds_checkoutTime e = None
                       ∧ display e = "") new.
Proof.
  revert d. induction ns as [|n ns IH]; intros d; cbn [createItems].
  - eexists _, _. split; [done|]. by repeat split.
  - unfold bind, createToolElement, fresh_id, ret. cbn.
    destruct (IH (with_nextId d (S (nextId d))))
      as (l & d' & -> & Hp & Hn & Hk & Hid & Hall).
    cbn [nextId with_nextId] in Hn, Hid.
    eexists _, _. split; [done|]. split; [done|].
    split; [rewrite Hn; cbn; lia|].
    split; [by rewrite !fmap_cons, Hk|].
    split; [by rewrite fmap_cons, Hid|].
    by constructor.
Qed.

Lemma getPool_append_child_to_first id c d q :
  getPool id d = Some q →
  getPool id (pool_appendChild id c d).2
  = Some (set_children (children q ++ [c]) q).
Proof.
  unfold getPool, pool_appendChild. cbn [snd pools with_pools].
  induction (pools d) as [|p ps IH]; [done|].
  cbn [find append_child_to_first].
  destruct (bool_decide (poolId p = id)) eqn:E.
  - intros [= ->]. cbn [find poolId set_children]. by rewrite E.
  - intros H. cbn [find]. rewrite E. by apply IH.
Qed.

(** X19.  [createToolStack] renders a tool of quantity q, in a pool that
    exists, as a new last child of the pool holding the tool elements
    numbered 1 to q in order, each with a node identity of its own and
    neither hidden nor checked out: a lone element when q is 1, else a
    stack whose badge reads q.  A quantity of 0 or less gives a stack with
    no item. *)
Theorem createToolStack_renders (tool : Tool) (id : string) (d : Doc)
    (q : Pool) :
  getPool id d = Some q →
  ∃ d' c,
    createToolStack tool id d = (Returns tt, d')
    ∧ getPool id d' = Some (set_children (children q ++ [c]) q)
    ∧ tool_key <$> child_elements c
      = (fun i => (name tool, pretty i)) <$> numbers (qty tool)
    ∧ NoDup (eid <$> child_elements c)
    ∧ (∀ e, e ∈ child_elements c →
            nextId d ≤ eid e < nextId d'
            ∧ ds_crew e = None ∧ ds_checkoutTime e = None ∧ display e = "")
    ∧ match c with
      | PTool _ => qty tool = 1%Z
      | PStack s =>
          qty tool ≠ 1%Z
          ∧ badgeText s = pretty (qty tool)
          ∧ stackDisplay s = ""
          ∧ nextId d ≤ stackId s < nextId d'
          ∧ stackId s ∉ eid <$> items s
      end.
Proof.
  intros Hq. unfold createToolStack, bind, get_state. rewrite Hq.
  destruct (qty tool =? 1)%Z eqn:E.
  - apply Z.eqb_eq in E.
    unfold createToolElement, bind, fresh_id, ret. cbn [fst snd].
    eexists _, (PTool _). split; [reflexivity|].
    split; [by apply (getPool_append_child_to_first id _ _ q)|].
    rewrite E. cbn [child_elements]. split; [done|].
    split; [apply NoDup_singleton|]. split; [|done].
    intros e ->%list_elem_of_singleton. cbn. repeat split; lia.
  - apply Z.eqb_neq in E. unfold fresh_id. cbn [fst snd].
    destruct (createItems_spec tool (numbers (qty tool))
                (with_nextId d (S (nextId d))))
      as (new & d1 & -> & Hp & Hn & Hk & Hid & Hall).
    cbn [nextId with_nextId] in Hn, Hid.
    eexists _, (PStack _). split; [reflexivity|].
    split.
    { rewrite <- (getPool_pools id d d1) in Hq by done.
      by apply (getPool_append_child_to_first id _ _ q). }
    cbn [child_elements items]. split; [exact Hk|].
    split; [rewrite Hid; apply NoDup_seq|].
    split.
    { intros e He. rewrite Forall_forall in Hall.
      destruct (Hall e He) as (? & ? & ?).
      assert (eid e ∈ seq (S (nextId d)) (length (numbers (qty tool))))
        as Hin by (rewrite <- Hid; by apply list_elem_of_fmap_2).
      apply elem_of_seq in Hin. cbn [nextId pool_appendChild snd with_pools].
      repeat split; try done; lia. }
    split; [done|]. split; [done|]. split; [done|].
    cbn [stackId nextId pool_appendChild snd with_pools].
    split; [lia|]. rewrite Hid. rewrite elem_of_seq. lia.
Qed.

Lemma createToolStack_renders_witness :
  ∃ d' c,
    createToolStack {| name := "Drill"; qty := 2; class := "power-tool" |}
      "powerPool" page = (Returns tt, d')
    ∧ tool_key <$> child_elements c = [("Drill", "1"); ("Drill", "2")]
    ∧ match c with PTool _ => False | PStack s => badgeText s = "2" end.
Proof.
  destruct (getPool "powerPool" page) as [q|] eqn:Hq;
    [|vm_compute in Hq; discriminate Hq].
  destruct (createToolStack_renders
              {| name := "Drill"; qty := 2; class := "power-tool" |}
              "powerPool" page q Hq)
    as (d' & c & Hrun & _ & Hk & _ & _ & Hc).
  exists d', c. split; [exact Hrun|]. split; [exact Hk|].
  destruct c as [e|s]; [discriminate Hc|]. by destruct Hc as (_ & -> & _).
Defined.

(** **** A drop on a crew *)

Lemma doc_updateLastModifiedTime now w :
  pools (doc (updateLastModifiedTime now w).2) = pools (doc w)
  ∧ crewsContainer (doc (updateLastModifiedTime now w).2)
    = crewsContainer (doc w).
Proof.
  unfold updateLastModifiedTime, bind, on_doc, on_storage, on_app.
  cbn [doc].
  destruct (updateTime (doc w));
    (destruct (Storage.saveUpdateTime _ _) as [[?|?] ?]; cbn [doc app];
     [destruct (AppState.setLastUpdateTime _ _) as [[?|?] ?]|]; done).
Qed.

Lemma NoDup_fmap_concat_part {A B} (f : A → B) (ls : list (list A)) l :
  NoDup (f <$> concat ls) → l ∈ ls → NoDup (f <$> l).
Proof.
  induction ls as [|k ls IH]; intros Hnd Hin; [by apply elem_of_nil in Hin|].
  rewrite concat_cons, fmap_app in Hnd.
  apply NoDup_app in Hnd as (Hk & _ & Hls).
  apply elem_of_cons in Hin as [->|Hin]; [done|by apply IH].
Qed.

Lemma NoDup_stack_items d s :
  NoDup (eid <$> elements d) → s ∈ stacks d → NoDup (eid <$> items s).
Proof.
  unfold stacks, elements. intros Hnd Hs.
  apply elem_of_concat in Hs as (ss & Hs & Hss).
  apply list_elem_of_fmap in Hss as (p & -> & Hp).
  apply elem_of_concat in Hs as (cs & Hs & Hcs).
  apply list_elem_of_fmap in Hcs as (c & -> & Hc).
  destruct c as [e|s']; [by apply elem_of_nil in Hs|].
  apply list_elem_of_singleton in Hs as ->.
  apply (NoDup_fmap_concat_part eid (child_elements <$> children p)).
  - change (NoDup (eid <$> pool_elements p)).
    apply (NoDup_fmap_concat_part eid (pool_elements <$> pools d));
      [done|by apply list_elem_of_fmap_2].
  - by apply (list_elem_of_fmap_2 child_elements _ (PStack s')).
Qed.

(** Marking one available item as checked out takes one off the count. *)
Lemma available_one_less i (mark : Element → Element) (l : list Element) e :
  NoDup (eid <$> l) → e ∈ l → eid e = i →
  available_class (classList e) = true →
  available_class (classList (mark e)) = false →
  S (length (filter (fun x => available_class (classList x) = true)
               ((fun x => if Nat.eqb (eid x) i then mark x else x) <$> l)))
  = length (filter (fun x => available_class (classList x) = true) l).
Proof.
  intros Hnd Hin Hi Ha Hm. induction l as [|x l IH];
    [by apply elem_of_nil in Hin|].
  rewrite fmap_cons in Hnd. apply NoDup_cons in Hnd as (Hx & Hnd).
  rewrite fmap_cons, !filter_cons.
  apply elem_of_cons in Hin as [<-|Hin].
  - rewrite Hi, Nat.eqb_refl, Ha, Hm.
    rewrite decide_False, decide_True by done. cbn [length]. f_equal.
    apply (length_filter_fmap_inv (fun x => available_class (classList x))).
    intros y Hy. destruct (Nat.eqb (eid y) i) eqn:E; [|done].
    apply Nat.eqb_eq in E. exfalso. apply Hx. rewrite Hi, <- E.
    by apply list_elem_of_fmap_2.
  - assert (Nat.eqb (eid x) i = false) as ->.
    { apply Nat.eqb_neq. intros E. apply Hx. rewrite E, <- Hi.
      by apply list_elem_of_fmap_2. }
    destruct (decide (available_class (classList x) = true));
      cbn [length]; by rewrite <- IH.
Qed.

Lemma updateStackCount_run d s :
  NoDup (stackId <$> stacks d) → s ∈ stacks d →
  ∃ d', updateStackCount (stackId s) d = (Returns tt, d')
        ∧ pools d'
          = pools (updateStack (stackId s)
                     (set_badge (pretty (availableCount s))
                        (pretty (availableCount s) +:+ " available")
                        (if Nat.eqb (availableCount s) 0 then "none" else ""))
                     d).2
        ∧ crewsContainer d' = crewsContainer d.
Proof.
  intros Hnd Hin. unfold updateStackCount, bind, get_state.
  rewrite (find_unique stackId _ s Hnd Hin).
  destruct (Nat.eqb (availableCount s) 0).
  - cbn [updateStack announceToScreenReader snd]. eexists.
    split; [reflexivity|]. by destruct (liveRegion _).
  - eexists. by split.
Qed.

(** X20.  A drop on a crew's zone of a tool element that is an available
    item of a stack, on a page whose nodes are distinct: the element is
    hidden and marked as checked out with the crew and the time of the drop,
    a row with its name, number, time and crew is the last of the zone, and
    the stack counts one available item less, shows that number on its
    badge and is hidden when it reaches 0. *)
Theorem drop_on_crew (w : World) (now : Date) (t z : nat) (e : Element)
    (s : Stack) (zone : DropZone) :
  distinct_nodes (doc w) →
  findElement t (doc w) = Some e →
  available_class (classList e) = true →
  closestStack t (doc w) = Some s →
  zones (doc w) !! z = Some zone →
  truthy_string (zoneCrew zone) = true →
  ∃ e' s' zone',
    findElement t (doc (handleDrop now t (CrewZone z) w).2) = Some e'
    ∧ contains "checked-out" (classList e') = true
    ∧ display e' = "none"
    ∧ ds_crew e' = Some (zoneCrew zone)
    ∧ ds_checkoutTime e' = Some (toLocaleTimeString now)
    ∧ zones (doc (handleDrop now t (CrewZone z) w).2) !! z = Some zone'
    ∧ zoneItems zone'
      = zoneItems zone
        ++ [createCheckoutItem (ds_toolName e) (ds_toolNumber e)
              (toLocaleTimeString now) (zoneCrew zone)]
    ∧ closestStack t (doc (handleDrop now t (CrewZone z) w).2) = Some s'
    ∧ S (availableCount s') = availableCount s
    ∧ badgeText s' = pretty (availableCount s')
    ∧ stackDisplay s'
      = (if Nat.eqb (availableCount s') 0 then "none" else "").
Proof.
  intros (Hne & Hns) Hf Ha Hcs Hz Ht.
  pose proof (findElement_eid _ _ _ Hf) as Hi.
  set (crew := zoneCrew zone) in *. set (time := toLocaleTimeString now).
  set (upd := fun x => if Nat.eqb (eid x) t then checked_out time crew x
                       else x).
  assert (∀ x, eid (upd x) = eid x) as Hupd.
  { intros x. unfold upd. by destruct (Nat.eqb (eid x) t). }
  assert (zone_crew (CrewZone z) (doc w) = Some crew) as Hzc.
  { cbn [zone_crew]. by rewrite Hz. }
  destruct (checkoutTool_spec now t (CrewZone z) (doc w) e crew Hzc Ht Hf)
    as (dA & EA & HpA & HcA).
  change (pools dA = pools (map_doc upd id (doc w))) in HpA.
  set (s1 := set_items (upd <$> items s) s).
  assert (closestStack t dA = Some s1) as Hcs1.
  { rewrite (closestStack_pools _ _ _ HpA).
    rewrite (closestStack_map_doc t upd id) by done. by rewrite Hcs. }
  destruct (closestStack_in _ _ _ Hcs1) as (Hin1 & _).
  destruct (closestStack_in _ _ _ Hcs) as (Hin & x & Hx & Hxt).
  assert (x = e) as ->.
  { apply (NoDup_fmap_eq eid (elements (doc w))); try done.
    - by apply (stack_items_elements (doc w) s).
    - apply find_some in Hf as (Hf & _). by apply list_elem_of_In.
    - by rewrite Hxt. }
  assert (stackId <$> stacks dA = stackId <$> stacks (doc w)) as Hids.
  { rewrite (stacks_pools _ _ HpA). by rewrite stackIds_map_doc. }
  destruct (updateStackCount_run dA s1) as (dB & EB & HpB & HcB);
    [by rewrite Hids|done|].
  set (n := availableCount s1) in *.
  set (s2 := set_badge (pretty n) (pretty n +:+ " available")
               (if Nat.eqb n 0 then "none" else "") s1).
  destruct (doc_updateLastModifiedTime now
              {| doc := dB; app := app w; storage := storage w;
                 touchItem := touchItem w |}) as (HpC & HcC).
  cbn [doc] in HpC, HcC.
  assert (handleDrop now t (CrewZone z) w
          = updateLastModifiedTime now
              {| doc := dB; app := app w; storage := storage w;
                 touchItem := touchItem w |}) as ->.
  { unfold handleDrop. unfold bind at 1. unfold get_state. cbv beta iota.
    rewrite Hzc. cbn [default]. change (id crew) with crew. rewrite Ht.
    unfold bind at 1. unfold on_doc at 1. rewrite EA.
    unfold bind at 1. unfold on_doc at 1. cbn [doc].
    unfold updateStackOf, bind at 1, get_state. rewrite Hcs1.
    change (stackId s1) with (stackId s1). by rewrite EB. }
  set (dC := doc (updateLastModifiedTime now _).2) in *.
  assert (zones dC !! z
          = Some (set_zoneItems
                    (zoneItems zone
                     ++ [createCheckoutItem (ds_toolName e) (ds_toolNumber e)
                           time crew]) zone)) as HzC.
  { unfold zones. rewrite HcC, HcB, HcA. unfold zone_append.
    cbn [snd crewsContainer with_crews].
    unfold zones in Hz. destruct (crewsContainer (doc w)) as [zs|]; [|done].
    change (zs !! z = Some zone) in Hz.
    change (default [] (?f <$> Some zs)) with (f zs). cbv beta. rewrite Hz.
    apply list_lookup_insert_eq. by eapply lookup_lt_Some. }
  eexists (checked_out time crew e), s2, _.
  split.
  { rewrite (findElement_pools t dB dC) by done.
    rewrite (findElement_pools t _ dB HpB).
    rewrite findElement_updateStack by done.
    rewrite (findElement_pools _ _ _ HpA).
    by apply (findElement_updateElement t (checked_out time crew) (doc w) e). }
  split.
  { change (classList (checked_out time crew e))
      with (classList_add "checked-out" (classList e)).
    rewrite contains_add. apply orb_true_r. }
  split; [done|]. split; [done|]. split; [done|].
  split; [exact HzC|]. split; [done|].
  split.
  { rewrite (closestStack_pools t dB dC) by done.
    rewrite (closestStack_pools t _ dB HpB). unfold updateStack. cbn [snd].
    rewrite (closestStack_map_doc t id) by
      (try done; intros y; by destruct (Nat.eqb (stackId y) _)).
    rewrite Hcs1. cbn [fmap option_fmap option_map].
    rewrite list_fmap_id.
    replace (set_items (items s1) s1) with s1 by (by destruct s1).
    by rewrite Nat.eqb_refl. }
  assert (availableCount s2 = n) as Hn2 by done.
  rewrite Hn2. split; [|done].
  unfold n, availableCount, s1. cbn [labelClasses items set_items].
  rewrite <- Nat.add_succ_r. f_equal.
  apply (available_one_less t (checked_out time crew) (items s) e);
    try done.
  - by apply (NoDup_stack_items (doc w)).
  - unfold available_class.
    change (classList (checked_out time crew e))
      with (classList_add "checked-out" (classList e)).
    rewrite !contains_add, orb_true_r. apply andb_false_r.
Qed.

(** The first of two drills dragged to crew 1: the badge goes from 2
    to 1. *)
Lemma drop_on_crew_witness :
  ∃ e' s' zone',
    findElement 1
      (doc (handleDrop Storage.nov_1 1 (CrewZone 0)
              {| doc := two_drills; app := AppState.new_AppState;
                 storage := Storage.fresh; touchItem := None |}).2)
    = Some e'
    ∧ ds_crew e' = Some "1"
    ∧ zones
        (doc (handleDrop Storage.nov_1 1 (CrewZone 0)
                {| doc := two_drills; app := AppState.new_AppState;
                   storage := Storage.fresh; touchItem := None |}).2) !! 0
      = Some zone'
    ∧ length (zoneItems zone') = 1
    ∧ closestStack 1
        (doc (handleDrop Storage.nov_1 1 (CrewZone 0)
                {| doc := two_drills; app := AppState.new_AppState;
                   storage := Storage.fresh; touchItem := None |}).2)
      = Some s'
    ∧ badgeText s' = "1".
Proof.
  set (w := {| doc := two_drills; app := AppState.new_AppState;
               storage := Storage.fresh; touchItem := None |}).
  destruct (findElement 1 two_drills) as [e|] eqn:Hf;
    [|vm_compute in Hf; discriminate Hf].
  destruct (closestStack 1 two_drills) as [s|] eqn:Hs;
    [|vm_compute in Hs; discriminate Hs].
  destruct (zones two_drills !! 0) as [zone|] eqn:Hz;
    [|vm_compute in Hz; discriminate Hz].
  assert (available_class (classList e) = true) as Ha.
  { vm_compute in Hf. injection Hf as <-. vm_compute; reflexivity. }
  assert (zoneCrew zone = "1" ∧ zoneItems zone = []) as (Hcrew & Hrows).
  { vm_compute in Hz. injection Hz as <-. by split. }
  assert (availableCount s = 2) as Hcount.
  { vm_compute in Hs. injection Hs as <-. vm_compute; reflexivity. }
  destruct (drop_on_crew w Storage.nov_1 1 0 e s zone)
    as (e' & s' & zone' & Hf' & _ & _ & Hc' & _ & Hz' & Hrows' & Hs' & Hn
        & Hb & _).
  - split; apply (bool_decide_unpack _); vm_compute; exact I.
  - exact Hf.
  - exact Ha.
  - exact Hs.
  - exact Hz.
  - by rewrite Hcrew.
  - exists e', s', zone'. split; [exact Hf'|].
    split; [by rewrite Hc', Hcrew|]. split; [exact Hz'|].
    split; [by rewrite Hrows', Hrows|]. split; [exact Hs'|].
    rewrite Hb. rewrite Hcount in Hn. injection Hn as ->. reflexivity.
Defined.

(** **** The time of the last change *)

(** X21.  [updateLastModifiedTime] always returns.  It writes the time on
    the line of the page, if the page has one, and into the state, whose
    other contents stay.  The store holds the time afterwards exactly when
    it could take the write; when it cannot, it is left as it was and the
    failure is nowhere reported. *)
Theorem updateLastModifiedTime_records (w : World) (now : Date)
    (v : AppState.StateView) :
  AppState.wf (app w) → AppState.contents (app w) = Some v →
  ∃ w',
    updateLastModifiedTime now w = (Returns tt, w')
    ∧ updateTime (doc w')
      = (fun _ => "Last Updated: " +:+ toLocaleString now)
          <$> updateTime (doc w)
    ∧ AppState.contents (app w')
      = Some {| AppState.v_toolInventory := AppState.v_toolInventory v;
                AppState.v_expandedStacks := AppState.v_expandedStacks v;
                AppState.v_draggedElement := AppState.v_draggedElement v;
                AppState.v_lastUpdateTime := Some (toLocaleString now) |}
    ∧ (Storage.writable (storage w) STORAGE_KEYS.UPDATE_TIME
         (Storage.JsonText (JStr (toLocaleString now))) →
       Storage.loadUpdateTime (storage w')
       = (Returns (JStr (toLocaleString now)), storage w'))
    ∧ (¬ Storage.writable (storage w) STORAGE_KEYS.UPDATE_TIME
           (Storage.JsonText (JStr (toLocaleString now))) →
       storage w' = storage w).
Proof.
  intros Hwf Hc.
  destruct (AppStateFacts.perform_spec
              (AppState.WSetLastUpdateTime (Some (toLocaleString now)))
              (app w) v Hwf Hc I) as (app' & E & _ & Hc' & _).
  cbn [AppState.perform AppState.effect] in E, Hc'.
  unfold updateLastModifiedTime, bind, on_doc, on_storage, on_app.
  cbn [doc app storage touchItem]. unfold Storage.saveUpdateTime.
  destruct (decide (Storage.writable (storage w) STORAGE_KEYS.UPDATE_TIME
                      (Storage.JsonText (JStr (toLocaleString now)))))
    as [Hw|Hw].
  - rewrite (StorageLaws.setItem_writable _ _ _ Hw).
    cbn [doc app storage touchItem]. rewrite E.
    eexists. split; [reflexivity|]. cbn [doc app storage].
    split; [destruct (updateTime (doc w)) eqn:Hu; [reflexivity|exact Hu]|].
    split; [exact Hc'|].
    split; [|by intros Hn; destruct (Hn Hw)].
    intros _. destruct Hw as (Ha & Hd & _).
    unfold Storage.loadUpdateTime.
    rewrite StorageFacts.getItem_read, StorageLaws.read_unfold by done.
    by rewrite StorageFacts.stored_put, decide_True.
  - rewrite (StorageLaws.setItem_not_writable _ _ _ Hw).
    cbn [doc app storage touchItem]. rewrite E.
    eexists. split; [reflexivity|]. cbn [doc app storage].
    split; [destruct (updateTime (doc w)) eqn:Hu; [reflexivity|exact Hu]|].
    split; [exact Hc'|]. split; [done|]. done.
Qed.

Lemma updateLastModifiedTime_records_witness :
  ∃ w',
    updateLastModifiedTime Storage.nov_1 opened = (Returns tt, w')
    ∧ updateTime (doc w')
      = Some ("Last Updated: " +:+ toLocaleString Storage.nov_1)
    ∧ Storage.loadUpdateTime (storage w')
      = (Returns (JStr (toLocaleString Storage.nov_1)), storage w').
Proof.
  destruct (AppStateFacts.wf_contents (app opened)) as (v & Hv);
    [apply sound_opened|].
  destruct (updateLastModifiedTime_records opened Storage.nov_1 v)
    as (w' & Hrun & Hline & _ & Hstore & _);
    [apply sound_opened|exact Hv|].
  exists w'. split; [exact Hrun|]. split.
  - rewrite Hline. vm_compute; reflexivity.
  - apply Hstore. vm_compute. by repeat split.
Defined.

(** **** The Clear button *)

Lemma cleared_pools l d d' :
  pools d' = pools d → crewsContainer d' = crewsContainer d →
  cleared_keeping l d → cleared_keeping l d'.
Proof.
  unfold cleared_keeping, getBrokenToolsData, zones.
  intros Hp Hc. by rewrite (getPool_pools _ d d'), Hc.
Qed.

Lemma cleared_announce l message :
  preserves (cleared_keeping l) (announceToScreenReader message).
Proof.
  intros d. apply cleared_pools; cbn [snd announceToScreenReader];
    by destruct (liveRegion d).
Qed.

Lemma draggables_fmap (f : Element → Element) (l : list Element) :
  (∀ e, tool_key (f e) = tool_key e
        ∧ contains "draggable" (classList (f e))
          = contains "draggable" (classList e)) →
  (fun e => (ds_toolName e, ds_toolNumber e)) <$>
    filter (fun e => contains "draggable" (classList e) = true) (f <$> l)
  = (fun e => (ds_toolName e, ds_toolNumber e)) <$>
      filter (fun e => contains "draggable" (classList e) = true) l.
Proof.
  intros Hf. induction l as [|x l IH]; [done|].
  destruct (Hf x) as (Hk & Hc). rewrite fmap_cons, !filter_cons, Hc.
  destruct (decide (contains "draggable" (classList x) = true));
    [|exact IH].
  rewrite !fmap_cons, IH. f_equal. exact Hk.
Qed.

Lemma child_draggables_map f g c :
  (∀ e, tool_key (f e) = tool_key e
        ∧ contains "draggable" (classList (f e))
          = contains "draggable" (classList e)) →
  (∀ s, labelClasses (g s) = labelClasses s
        ∧ stackToolName (g s) = stackToolName s
        ∧ items (g s) = items s) →
  child_draggables (map_child f g c) = child_draggables c.
Proof.
  intros Hf Hg. destruct c as [e|s]; cbn [map_child child_draggables].
  - destruct (Hf e) as (Hk & ->). unfold tool_key in Hk.
    destruct (contains _ _); [|done]. by rewrite Hk.
  - destruct (Hg (set_items (f <$> items s) s)) as (-> & -> & ->).
    cbn [labelClasses stackToolName items set_items].
    by rewrite draggables_fmap.
Qed.

Lemma cleared_map_doc l f g :
  (∀ e, tool_key (f e) = tool_key e
        ∧ contains "draggable" (classList (f e))
          = contains "draggable" (classList e)) →
  (∀ s, labelClasses (g s) = labelClasses s
        ∧ stackToolName (g s) = stackToolName s
        ∧ items (g s) = items s) →
  preserves (cleared_keeping l) (fun d => (Returns tt, map_doc f g d)).
Proof.
  intros Hf Hg d (Hb & Hz). split; [|exact Hz]. cbn [snd].
  unfold getBrokenToolsData in *. rewrite getPool_map_doc.
  destruct (getPool "brokenPool" d) as [q|]; [|done].
  cbn [fmap option_fmap option_map children set_children].
  rewrite <- list_fmap_compose.
  assert ((child_draggables ∘ map_child f g) <$> children q
          = child_draggables <$> children q) as ->; [|done].
  apply list_fmap_ext. intros i c _. unfold compose.
  by apply child_draggables_map.
Qed.

Lemma cleared_updateStack l t g :
  (∀ s, labelClasses (g s) = labelClasses s
        ∧ stackToolName (g s) = stackToolName s
        ∧ items (g s) = items s) →
  preserves (cleared_keeping l) (updateStack t g).
Proof.
  intros Hg. apply (cleared_map_doc l id); [done|].
  intros s. destruct (Nat.eqb (stackId s) t); [apply Hg|done].
Qed.

Lemma cleared_updateStackCount l stackDiv :
  preserves (cleared_keeping l) (updateStackCount stackDiv).
Proof.
  unfold updateStackCount. apply preserves_read. intros d.
  destruct (find _ _); [|apply preserves_ret].
  destruct (Nat.eqb _ 0).
  - apply preserves_bind; [by apply cleared_updateStack|].
    intros _. apply cleared_announce.
  - by apply cleared_updateStack.
Qed.

Lemma cleared_returnTool l toolElement :
  preserves (cleared_keeping l) (returnTool toolElement).
Proof.
  unfold returnTool. destruct toolElement as [[toolName toolNumber]|];
    [|apply preserves_ret].
  apply preserves_bind.
  { intros d Hd. unfold querySelector_tool. by destruct (_ && _). }
  intros [t|]; [|apply preserves_ret].
  apply preserves_bind.
  { apply (cleared_map_doc l _ id); [|done]. intros e.
    destruct (Nat.eqb (eid e) t); [|done]. split; [done|].
    cbn. rewrite contains_remove. apply andb_true_r. }
  intros _. apply preserves_read. intros d.
  apply preserves_bind.
  { destruct (closestStack _ _);
      [apply cleared_updateStackCount|apply preserves_ret]. }
  intros _. apply preserves_bind; [apply cleared_announce|].
  intros _. apply preserves_ret.
Qed.

Lemma cleared_returnEach l tools count :
  preserves (cleared_keeping l) (returnEach tools count).
Proof.
  revert count. induction tools as [|tool tools IH]; intros count;
    cbn [returnEach]; [apply preserves_ret|].
  apply preserves_bind; [apply cleared_returnTool|]. intros ok. apply IH.
Qed.

Lemma clearZones_clears l d :
  l `prefix_of` getBrokenToolsData d → cleared_keeping l (clearZones d).2.
Proof.
  intros Hb. split; [exact Hb|]. unfold zones, clearZones.
  cbn [snd crewsContainer with_crews].
  destruct (crewsContainer d) as [zs|]; [|by constructor].
  cbn [fmap option_fmap option_map default].
  apply Forall_fmap, Forall_forall. by intros zone _.
Qed.

Lemma cleared_returnAllTools l :
  preserves (cleared_keeping l) returnAllTools.
Proof.
  unfold returnAllTools. apply preserves_read. intros d.
  apply preserves_bind; [apply cleared_returnEach|]. intros count.
  apply preserves_bind.
  { intros d' (Hb & _). by apply clearZones_clears. }
  intros _. apply preserves_bind; [apply cleared_announce|].
  intros _. apply preserves_ret.
Qed.

Lemma cleared_createCrewCards l :
  preserves (cleared_keeping l) createCrewCards.
Proof.
  unfold createCrewCards. apply preserves_read. intros d.
  destruct (crewsContainer d); [|apply preserves_ret].
  apply preserves_bind; [|intros _; apply cleared_announce].
  intros d' (Hb & _). split; [exact Hb|]. unfold zones.
  cbn [snd crewsContainer with_crews default].
  apply Forall_fmap, Forall_forall. by intros n _.
Qed.

Lemma getPool_clear_first id id' d :
  id ≠ id' →
  getPool id' (clearPool id d).2 = getPool id' d.
Proof.
  intros Hne. unfold getPool, clearPool. cbn [snd pools with_pools].
  induction (pools d) as [|p ps IH]; [done|].
  cbn [clear_first]. case_bool_decide as E; cbn [find poolId set_children].
  - rewrite bool_decide_eq_false_2 by congruence. done.
  - by rewrite IH.
Qed.

Lemma cleared_clearPool l id :
  id ≠ "brokenPool" → preserves (cleared_keeping l) (clearPool id).
Proof.
  intros Hne d (Hb & Hz). split; [|exact Hz].
  unfold getBrokenToolsData. by rewrite getPool_clear_first.
Qed.

Lemma getPool_append_child_other id id' c d :
  id ≠ id' →
  getPool id' (pool_appendChild id c d).2 = getPool id' d.
Proof.
  intros Hne. unfold getPool, pool_appendChild. cbn [snd pools with_pools].
  induction (pools d) as [|p ps IH]; [done|].
  cbn [append_child_to_first].
  case_bool_decide as E; cbn [find poolId set_children].
  - rewrite bool_decide_eq_false_2 by congruence. done.
  - by rewrite IH.
Qed.

Lemma cleared_pool_appendChild l id c :
  preserves (cleared_keeping l) (pool_appendChild id c).
Proof.
  intros d (Hb & Hz). split; [|exact Hz]. unfold getBrokenToolsData in *.
  destruct (decide (id = "brokenPool")) as [->|Hne].
  - destruct (getPool "brokenPool" d) as [q|] eqn:Hq.
    + rewrite (getPool_append_child_to_first _ c d q Hq).
      cbn [children set_children]. rewrite fmap_app, concat_app.
      by apply prefix_app_r.
    + destruct (getPool "brokenPool" (pool_appendChild _ c d).2);
        [|done].
      etrans; [exact Hb|]. apply prefix_nil.
  - by rewrite getPool_append_child_other.
Qed.

Lemma createItems_crews tool ns d :
  ∃ new d', createItems tool ns d = (Returns new, d')
            ∧ pools d' = pools d ∧ crewsContainer d' = crewsContainer d.
Proof.
  revert d. induction ns as [|n ns IH]; intros d; cbn [createItems].
  - by eexists _, _.
  - unfold bind, createToolElement, fresh_id, ret. cbn.
    destruct (IH (with_nextId d (S (nextId d)))) as (l & d' & -> & Hp & Hc).
    by eexists _, _.
Qed.

Lemma cleared_createToolStack l tool id :
  preserves (cleared_keeping l) (createToolStack tool id).
Proof.
  intros d Hd. unfold createToolStack, bind, get_state.
  destruct (getPool id d); [|done].
  destruct (qty tool =? 1)%Z.
  - unfold createToolElement, bind, fresh_id, ret. cbn [fst snd].
    apply cleared_pool_appendChild. by apply (cleared_pools l d).
  - unfold fresh_id. cbn [fst snd].
    destruct (createItems_crews tool (numbers (qty tool))
                (with_nextId d (S (nextId d)))) as (new & d' & -> & Hp & Hc).
    apply cleared_pool_appendChild. by apply (cleared_pools l d).
Qed.

Lemma cleared_initializeInventory l :
  preserves (on_page (cleared_keeping l)) initializeInventory.
Proof.
  unfold initializeInventory.
  apply preserves_bind; [apply page_on_app|]. intros r.
  apply preserves_bind; [apply page_on_app|]. intros inventory.
  apply preserves_bind.
  { apply page_on_doc, preserves_for_each. intros poolId.
    case_bool_decide; [by apply cleared_clearPool|apply preserves_ret]. }
  intros _. apply preserves_bind.
  { apply page_on_doc, preserves_for_each. intros [category tools].
    destruct (POOL_IDS category); [|apply preserves_ret].
    apply preserves_for_each. intros tool. apply cleared_createToolStack. }
  intros _. apply page_on_doc, cleared_announce.
Qed.

Lemma cleared_updateLastModifiedTime l now :
  preserves (on_page (cleared_keeping l)) (updateLastModifiedTime now).
Proof.
  unfold updateLastModifiedTime.
  apply preserves_bind; [|intros _; apply preserves_bind; intros;
                           [apply page_on_storage|apply page_on_app]].
  apply page_on_doc. intros d. apply cleared_pools; cbn [snd];
    by destruct (updateTime d).
Qed.

Lemma cleared_after_the_zones l now :
  preserves (on_page (cleared_keeping l))
    (do! on_doc returnAllTools in
     do! initializeInventory in
     do! on_doc createCrewCards in
     do! updateLastModifiedTime now in
     on_doc (announceToScreenReader
               "All checkouts cleared and reset complete")).
Proof.
  apply preserves_bind; [apply page_on_doc, cleared_returnAllTools|].
  intros _. apply preserves_bind; [apply cleared_initializeInventory|].
  intros _. apply preserves_bind; [apply page_on_doc, cleared_createCrewCards|].
  intros _. apply preserves_bind; [apply cleared_updateLastModifiedTime|].
  intros _. apply page_on_doc, cleared_announce.
Qed.

(** X22.  The Clear button, whether its handler runs to the end or throws
    on the way: no crew's zone holds a row afterwards, and the broken pool
    still lists every tool it listed, first and in the same order.  Clear
    never takes a tool out of the broken pool. *)
Theorem clearAll_keeps_broken_tools (w : World) (now : Date) :
  getBrokenToolsData (doc w)
    `prefix_of` getBrokenToolsData (doc (clearAll now w).2)
  ∧ Forall (fun zone => zoneItems zone = [])
      (zones (doc (clearAll now w).2)).
Proof.
  set (l := getBrokenToolsData (doc w)).
  change (on_page (cleared_keeping l) (clearAll now w).2).
  unfold clearAll. unfold bind at 1. unfold on_doc at 1.
  unfold clearAllCheckouts.
  change (clearZones (doc w)) with (Returns tt, (clearZones (doc w)).2).
  cbv beta iota. apply cleared_after_the_zones.
  unfold on_page. cbn [doc]. by apply clearZones_clears.
Qed.

(** **** Expand All *)

Lemma elem_of_new_Set x l : x ∈ AppState.new_Set l ↔ x ∈ l.
Proof.
  unfold AppState.new_Set.
  assert (∀ acc, x ∈ fold_left (fun a y => AppState.set_add y a) l acc
                 ↔ x ∈ acc ∨ x ∈ l) as H.
  { induction l as [|y l IH]; intros acc; cbn [fold_left].
    - rewrite elem_of_nil. tauto.
    - rewrite IH, AppStateLaws.elem_of_set_add, elem_of_cons. tauto. }
  rewrite H, elem_of_nil. tauto.
Qed.

(** X23.  Expand All is all or nothing.  When no stack is expanded it
    expands every stack and the state then lists exactly the names of the
    stacks; when at least one stack is expanded it collapses every stack,
    also those that were collapsed, and empties the list of the state.  The
    tool elements are not touched. *)
Theorem toggleExpandAll_all_or_nothing (w : World) (v : AppState.StateView) :
  AppState.wf (app w) → AppState.contents (app w) = Some v →
  ∃ w' v',
    toggleExpandAll w = (Returns tt, w')
    ∧ AppState.contents (app w') = Some v'
    ∧ elements (doc w') = elements (doc w)
    ∧ stackToolName <$> stacks (doc w') = stackToolName <$> stacks (doc w)
    ∧ if existsb (fun s => contains "expanded" (stackClasses s))
           (stacks (doc w))
      then Forall (fun s => contains "expanded" (stackClasses s) = false)
             (stacks (doc w'))
           ∧ AppState.v_expandedStacks v' = []
      else Forall (fun s => contains "expanded" (stackClasses s) = true)
             (stacks (doc w'))
           ∧ NoDup (AppState.v_expandedStacks v')
           ∧ ∀ x, x ∈ AppState.v_expandedStacks v'
                  ↔ x ∈ stackToolName <$> stacks (doc w).
Proof.
  intros Hwf Hc. unfold toggleExpandAll. unfold bind at 1.
  unfold get_state. cbv beta iota.
  destruct (existsb _ (stacks (doc w))) eqn:Hex; cbn [negb].
  - destruct (AppStateFacts.perform_spec AppState.WCollapseAllStacks
                (app w) v Hwf Hc I) as (app' & E & _ & Hc' & _).
    cbn [AppState.perform AppState.effect] in E, Hc'.
    unfold bind, on_doc, on_app. cbn [doc app storage touchItem]. rewrite E.
    eexists _, _. split; [reflexivity|]. cbn [doc app].
    split; [exact Hc'|].
    match goal with |- elements ?d = _ ∧ _ => set (df := d) end.
    set (dm := map_doc id
                 (fun s => set_stackClasses
                             (classList_remove "expanded" (stackClasses s)) s)
                 (doc w)).
    assert (pools df = pools dm) as Hp
      by (unfold df, dm; destruct (liveRegion (map_doc _ _ _)); reflexivity).
    rewrite (elements_pools dm df Hp), (stacks_pools dm df Hp). unfold dm.
    rewrite elements_map_doc, stacks_map_doc by done.
    split; [apply list_fmap_id|].
    split; [rewrite <- list_fmap_compose; by apply list_fmap_ext|].
    split; [|done].
    apply Forall_fmap, Forall_forall. intros s _.
    change (contains "expanded"
              (classList_remove "expanded" (stackClasses s)) = false).
    rewrite contains_remove, bool_decide_eq_false_2 by naive_solver.
    apply andb_false_r.
  - destruct (AppStateFacts.perform_spec
                (AppState.WExpandAllStacks (stackToolName <$> stacks (doc w)))
                (app w) v Hwf Hc I) as (app' & E & _ & Hc' & _).
    cbn [AppState.perform AppState.effect] in E, Hc'.
    unfold bind, on_doc, on_app. cbn [doc app storage touchItem]. rewrite E.
    eexists _, _. split; [reflexivity|]. cbn [doc app].
    split; [exact Hc'|].
    match goal with |- elements ?d = _ ∧ _ => set (df := d) end.
    set (dm := map_doc id
                 (fun s => set_stackClasses
                             (classList_add "expanded" (stackClasses s)) s)
                 (doc w)).
    assert (pools df = pools dm) as Hp
      by (unfold df, dm; destruct (liveRegion (map_doc _ _ _)); reflexivity).
    rewrite (elements_pools dm df Hp), (stacks_pools dm df Hp). unfold dm.
    rewrite elements_map_doc, stacks_map_doc by done.
    cbn [AppState.v_expandedStacks].
    split; [apply list_fmap_id|].
    split; [rewrite <- list_fmap_compose; by apply list_fmap_ext|].
    split; [|split; [apply AppStateFacts.new_Set_NoDup
                    |intros x; apply elem_of_new_Set]].
    apply Forall_fmap, Forall_forall. intros s _.
    change (contains "expanded"
              (classList_add "expanded" (stackClasses s)) = true).
    rewrite contains_add. apply orb_true_r.
Qed.

Lemma toggleExpandAll_all_or_nothing_witness :
  ∃ w' v',
    toggleExpandAll opened = (Returns tt, w')
    ∧ AppState.contents (app w') = Some v'
    ∧ Forall (fun s => contains "expanded" (stackClasses s) = true)
        (stacks (doc w'))
    ∧ length (AppState.v_expandedStacks v') = length (stacks (doc opened)).
Proof.
  destruct (AppStateFacts.wf_contents (app opened)) as (v & Hv);
    [apply sound_opened|].
  destruct (toggleExpandAll_all_or_nothing opened v)
    as (w' & v' & Hrun & Hc & _ & _ & Hcase);
    [apply sound_opened|exact Hv|].
  assert (existsb (fun s => contains "expanded" (stackClasses s))
            (stacks (doc opened)) = false) as Hex
    by (vm_compute; reflexivity).
  rewrite Hex in Hcase. destruct Hcase as (Hall & Hnd & Hin).
  exists w', v'. split; [exact Hrun|]. split; [exact Hc|].
  split; [exact Hall|].
  assert (NoDup (stackToolName <$> stacks (doc opened))) as Hnames
    by (apply (bool_decide_unpack _); vm_compute; exact I).
  rewrite <- (length_fmap stackToolName).
  apply Permutation_length, NoDup_Permutation; done.
Defined.

End PageLaws.
